(** * Arena: a shallow embedding of the fighter classes and of the tick

    The development follows the TypeScript sources:
    - [classes/Fighter.ts]            (abstract class [Fighter]),
    - [classes/fighters/Heavy.ts], [Base.ts], [Archer.ts],
    - [components/HelloWorld.vue]     ([checkCollisionWithWall],
      [checkAndIncreaseStrength], [updatePhysics]).

    Modelling choices.
    - A JavaScript [number] is a real number ([R]): the IEEE-754 rounding of
      the arithmetic is idealised away, [Math.sqrt], [Math.cos], [Math.sin],
      [Math.floor], [Math.max], [Math.min], [Math.abs] are the functions of
      the real-number library.  Counters that the code only increments by one
      and resets ([regenTimer], [shieldCharge]) are natural numbers.
      Rounding matters where the code compares a distance with the very
      value a previous step aimed at (the push out of a wall, the separation
      of two fighters): computed in the reals the push lands exactly on the
      sum of the radii, in binary64 it can fall short of it by a rounding
      error.  Module [Binary64] repeats these two computations on binary64
      numbers; the properties stated for the code do not rely on the exact
      landing.
    - JavaScript's [/] never throws; a zero denominator yields [NaN] or an
      infinity that would poison every later position.  The embedding makes
      that outcome visible: [a / b] is the partial operation [div], which
      fails ([None]) on a zero denominator, and every function that divides
      lives in the option monad.
    - [Math.random()] is an input of the tick (four draws per tick).
    - Each call of [takeDamage] made by the tick is recorded in a ghost log
      ([Hit]), so that "damage was applied" can be stated. *)

From Stdlib Require Import Floats.
From Stdlib Require Import Reals Lra Lia ZArith List Bool String.
Import ListNotations.
Close Scope float_scope.
Open Scope R_scope.

(** ** Numbers *)

Definition ltb (a b : R) : bool := if Rlt_dec a b then true else false.
Definition gtb (a b : R) : bool := ltb b a.
Definition leb (a b : R) : bool := if Rle_dec a b then true else false.
Definition eqb (a b : R) : bool := if Req_dec_T a b then true else false.

Definition Math_floor (v : R) : R := IZR (Zfloor v).

(** [a / b] of the source; fails when the denominator is zero. *)
Definition div (a b : R) : option R :=
  if Req_dec_T b 0 then None else Some (a / b).

Definition bind {A B : Type} (m : option A) (k : A -> option B) : option B :=
  match m with
  | Some a => k a
  | None => None
  end.

Notation "v <- m ;; k" := (bind m (fun v => k))
  (at level 61, m at next level, right associativity).
Notation "' pat <- m ;; k" :=
  (bind m (fun v => match v with pat => k end))
  (at level 61, pat pattern, m at next level, right associativity).

(** ** Data model *)

Record FighterConfig := mkConfig {
  cfg_x : R;
  cfg_y : R;
  cfg_color : string;
  cfg_name : string
}.

Module Bullet.
Record t := mk {
  x : R;
  y : R;
  vx : R;
  vy : R;
  damage : R;
  active : bool
}.
End Bullet.

(** Private state of [HeavyFighter].  [squareSize], [squareDistance] and
    [squareRotationSpeed] are never assigned after their initialisers and are
    constants below. *)
Record HeavyState := mkHeavy {
  squareRotation : R;
  shieldCharge : nat;
  hasShield : bool
}.

(** State of [ArcherFighter]; [shootRotationSpeed], [shootCooldownMax],
    [bulletSpeed] and [bulletRadius] are never assigned and are constants. *)
Record ArcherState := mkArcher {
  bullets : list Bullet.t;
  shootAngle : R;
  shootCooldown : R
}.

(** The concrete class of a fighter, with the fields the subclass adds. *)
Inductive Variant :=
| BaseV (regenTimer : nat)
| HeavyV (h : HeavyState)
| ArcherV (a : ArcherState).

Module Fighter.

Record t := mk {
  x : R;
  y : R;
  vx : R;
  vy : R;
  hp : R;
  maxHp : R;
  strength : R;
  radius : R;
  color : string;
  name : string;
  dealsBodyDamage : bool;
  variant : Variant
}.

Definition with_pos (f : t) (x' y' : R) : t :=
  mk x' y' (vx f) (vy f) (hp f) (maxHp f) (strength f) (radius f)
     (color f) (name f) (dealsBodyDamage f) (variant f).

Definition with_vel (f : t) (vx' vy' : R) : t :=
  mk (x f) (y f) vx' vy' (hp f) (maxHp f) (strength f) (radius f)
     (color f) (name f) (dealsBodyDamage f) (variant f).

Definition with_hp (f : t) (hp' : R) : t :=
  mk (x f) (y f) (vx f) (vy f) hp' (maxHp f) (strength f) (radius f)
     (color f) (name f) (dealsBodyDamage f) (variant f).

Definition with_strength (f : t) (s' : R) : t :=
  mk (x f) (y f) (vx f) (vy f) (hp f) (maxHp f) s' (radius f)
     (color f) (name f) (dealsBodyDamage f) (variant f).

Definition with_variant (f : t) (v' : Variant) : t :=
  mk (x f) (y f) (vx f) (vy f) (hp f) (maxHp f) (strength f) (radius f)
     (color f) (name f) (dealsBodyDamage f) v'.

(** The abstract properties, given by each subclass. *)
Definition speedMultiplier (f : t) : R :=
  match variant f with
  | BaseV _ => 1.0
  | HeavyV _ => 0.7
  | ArcherV _ => 1.2
  end.

Definition strengthGainRate (f : t) : R :=
  match variant f with
  | BaseV _ => 1
  | HeavyV _ => 2
  | ArcherV _ => 1
  end.

(** [constructor(config)]: the defaults, before the subclass overwrites
    them; [v] is the subclass state. *)
Definition create (config : FighterConfig) (v : Variant) : t :=
  mk (cfg_x config) (cfg_y config) 0 0 100 100 1 30
     (cfg_color config) (cfg_name config) true v.

Definition applyGravity (f : t) (centerX centerY gravityStrength : R)
  : option t :=
  let dx := centerX - x f in
  let dy := centerY - y f in
  let dist := sqrt (dx * dx + dy * dy) in
  if gtb dist 0 then
    ux <- div dx dist ;;
    uy <- div dy dist ;;
    Some (with_vel f
            (vx f + ux * gravityStrength * speedMultiplier f)
            (vy f + uy * gravityStrength * speedMultiplier f))
  else Some f.

Definition applyDamping (f : t) (damping : R) : t :=
  with_vel f (vx f * damping) (vy f * damping).

Definition updatePosition (f : t) : t :=
  with_pos f (x f + vx f) (y f + vy f).

Definition isInCenterZone (f : t) (centerX centerY : R) : bool :=
  let dx := x f - centerX in
  let dy := y f - centerY in
  let dist := sqrt (dx * dx + dy * dy) in
  ltb dist (radius f).

Definition gainStrength (f : t) : t :=
  with_strength f (strength f + strengthGainRate f).

(** [Fighter.takeDamage], the method the Base and Archer classes inherit. *)
Definition takeDamage (f : t) (damage : R) : t :=
  with_hp f (Rmax 0 (hp f - damage)).

Definition isAlive (f : t) : bool := gtb (hp f) 0.

Definition getDistanceTo (f other : t) : R :=
  let dx := x f - x other in
  let dy := y f - y other in
  sqrt (dx * dx + dy * dy).

End Fighter.

(** ** [HeavyFighter] *)

Module HeavyFighter.

Definition squareSize : R := 30.
Definition squareDistance : R := 60.
Definition squareRotationSpeed : R := 0.05.

Definition create (config : FighterConfig) : Fighter.t :=
  let f := Fighter.create config (HeavyV (mkHeavy 0 0 false)) in
  Fighter.mk (Fighter.x f) (Fighter.y f) (Fighter.vx f) (Fighter.vy f)
    250 250 2 50 (Fighter.color f) (Fighter.name f) false (Fighter.variant f).

(** Ground slam: push away from the centre. *)
Definition useSpecialAbility (f : Fighter.t) (centerX centerY : R)
  : option Fighter.t :=
  let dx := Fighter.x f - centerX in
  let dy := Fighter.y f - centerY in
  let dist := sqrt (dx * dx + dy * dy) in
  if ltb dist 100 && gtb dist 0 then
    ux <- div dx dist ;;
    uy <- div dy dist ;;
    Some (Fighter.with_vel f (Fighter.vx f + ux * 5) (Fighter.vy f + uy * 5))
  else Some f.

Definition passiveAbility (f : Fighter.t) (h : HeavyState)
  (centerX centerY : R) : Fighter.t :=
  let rot := squareRotation h + squareRotationSpeed in
  if Fighter.isInCenterZone f centerX centerY then
    let charge := S (shieldCharge h) in
    if (180 <=? charge)%nat && negb (hasShield h) then
      Fighter.with_variant f (HeavyV (mkHeavy rot 0 true))
    else
      Fighter.with_variant f (HeavyV (mkHeavy rot charge (hasShield h)))
  else
    Fighter.with_variant f
      (HeavyV (mkHeavy rot (shieldCharge h) (hasShield h))).

(** The override of [takeDamage]. *)
Definition takeDamage (f : Fighter.t) (h : HeavyState) (damage : R)
  : Fighter.t :=
  if hasShield h then
    let damage := Math_floor (damage * 0.5) in
    let f := Fighter.with_variant f
               (HeavyV (mkHeavy (squareRotation h) 0 false)) in
    Fighter.with_hp f (Rmax 0 (Fighter.hp f - damage))
  else
    Fighter.with_hp f (Rmax 0 (Fighter.hp f - damage)).

Definition getHasShield (h : HeavyState) : bool := hasShield h.

Definition getSquarePosition (f : Fighter.t) (h : HeavyState) : R * R :=
  (Fighter.x f + cos (squareRotation h) * squareDistance,
   Fighter.y f + sin (squareRotation h) * squareDistance).

Definition isPointInSquare (f : Fighter.t) (h : HeavyState) (px py : R)
  : bool :=
  let center := getSquarePosition f h in
  let dx := px - fst center in
  let dy := py - snd center in
  let c := cos (- squareRotation h) in
  let s := sin (- squareRotation h) in
  let localX := dx * c - dy * s in
  let localY := dx * s + dy * c in
  let halfSize := squareSize / 2 in
  leb (Rabs localX) halfSize && leb (Rabs localY) halfSize.

Definition checkSquareCollisionWithFighter (f : Fighter.t) (h : HeavyState)
  (other : Fighter.t) : bool :=
  let squareCenter := getSquarePosition f h in
  let dx := Fighter.x other - fst squareCenter in
  let dy := Fighter.y other - snd squareCenter in
  let dist := sqrt (dx * dx + dy * dy) in
  let halfSize := squareSize / 2 in
  let maxDist := sqrt 2 * halfSize + Fighter.radius other in
  if gtb dist maxDist then false
  else isPointInSquare f h (Fighter.x other) (Fighter.y other)
       || ltb dist (halfSize + Fighter.radius other).

(** [getSquareCorners()]: the loop [for (i = 0; i < 4; i++)]. *)
Definition getSquareCorners (f : Fighter.t) (h : HeavyState) : list (R * R) :=
  let center := getSquarePosition f h in
  let halfSize := squareSize / 2 in
  map (fun i =>
         let angle := squareRotation h + PI / 4 + INR i * PI / 2 in
         let distance := sqrt 2 * halfSize in
         (fst center + cos angle * distance,
          snd center + sin angle * distance))
      (seq 0 4).

End HeavyFighter.

(** ** [BaseFighter] *)

Module BaseFighter.

Definition create (config : FighterConfig) : Fighter.t :=
  let f := Fighter.create config (BaseV 0) in
  Fighter.mk (Fighter.x f) (Fighter.y f) (Fighter.vx f) (Fighter.vy f)
    100 100 1 30 (Fighter.color f) (Fighter.name f)
    (Fighter.dealsBodyDamage f) (Fighter.variant f).

(** Quick dash towards the centre when far away. *)
Definition useSpecialAbility (f : Fighter.t) (centerX centerY : R)
  : option Fighter.t :=
  let dx := centerX - Fighter.x f in
  let dy := centerY - Fighter.y f in
  let dist := sqrt (dx * dx + dy * dy) in
  if gtb dist 200 then
    ux <- div dx dist ;;
    uy <- div dy dist ;;
    Some (Fighter.with_vel f (Fighter.vx f + ux * 2) (Fighter.vy f + uy * 2))
  else Some f.

Definition passiveAbility (f : Fighter.t) (regenTimer : nat)
  (_centerX _centerY : R) : Fighter.t :=
  let regenTimer := S regenTimer in
  if ltb (Fighter.hp f) (Fighter.maxHp f * 0.5)
     && (120 <=? regenTimer)%nat
     && negb (eqb (Fighter.hp f) 0)
  then
    Fighter.with_variant
      (Fighter.with_hp f (Rmin (Fighter.maxHp f) (Fighter.hp f + 1)))
      (BaseV 0)
  else Fighter.with_variant f (BaseV regenTimer).

End BaseFighter.

(** ** [ArcherFighter] *)

Module ArcherFighter.

Definition shootRotationSpeed : R := 0.08.
Definition shootCooldownMax : R := 30.
Definition bulletSpeed : R := 8.
Definition bulletRadius : R := 5.

Definition create (config : FighterConfig) : Fighter.t :=
  let f := Fighter.create config (ArcherV (mkArcher [] 0 0)) in
  Fighter.mk (Fighter.x f) (Fighter.y f) (Fighter.vx f) (Fighter.vy f)
    150 150 3 28 (Fighter.color f) (Fighter.name f) false (Fighter.variant f).

(** [shootBullet(angle)]: the new bullet is pushed at the end of [bullets]. *)
Definition newBullet (f : Fighter.t) (angle : R) : Bullet.t :=
  Bullet.mk
    (Fighter.x f + cos angle * Fighter.radius f)
    (Fighter.y f + sin angle * Fighter.radius f)
    (cos angle * bulletSpeed * (1 + Fighter.strength f * 0.24) + Fighter.vx f)
    (sin angle * bulletSpeed * (1 + Fighter.strength f * 0.25) + Fighter.vy f)
    (Fighter.strength f)
    true.

Definition shootBullet (f : Fighter.t) (a : ArcherState) (angle : R)
  : ArcherState :=
  mkArcher (bullets a ++ [newBullet f angle]) (shootAngle a) (shootCooldown a).

(** The body of the [forEach] of [updateBullets]. *)
Definition moveBullet (f : Fighter.t) (b : Bullet.t) : Bullet.t :=
  if Bullet.active b then
    let bx := Bullet.x b + Bullet.vx b in
    let by_ := Bullet.y b + Bullet.vy b in
    let dx := bx - Fighter.x f in
    let dy := by_ - Fighter.y f in
    let dist := sqrt (dx * dx + dy * dy) in
    Bullet.mk bx by_ (Bullet.vx b) (Bullet.vy b) (Bullet.damage b)
      (if gtb dist 500 then false else true)
  else b.

Definition updateBullets (f : Fighter.t) (a : ArcherState) : ArcherState :=
  mkArcher (filter Bullet.active (map (moveBullet f) (bullets a)))
    (shootAngle a) (shootCooldown a).

(** Shoot 8 bullets in a circle: the loop [for (i = 0; i < 8; i++)]. *)
Definition useSpecialAbility (f : Fighter.t) (a : ArcherState)
  (_centerX _centerY : R) : Fighter.t :=
  let a' :=
    fold_left (fun acc i => shootBullet f acc (PI * 2 * INR i / 8))
      (seq 0 8) a in
  Fighter.with_variant f (ArcherV a').

Definition passiveAbility (f : Fighter.t) (a : ArcherState)
  (_centerX _centerY : R) : Fighter.t :=
  let a := mkArcher (bullets a) (shootAngle a + shootRotationSpeed)
             (shootCooldown a) in
  let a :=
    if gtb (shootCooldown a) 0 then
      mkArcher (bullets a) (shootAngle a) (shootCooldown a - 1)
    else
      let a := shootBullet f a (shootAngle a) in
      mkArcher (bullets a) (shootAngle a)
        (shootCooldownMax - Fighter.strength f * 1.5) in
  Fighter.with_variant f (ArcherV (updateBullets f a)).

(** Does this bullet touch [other]?  The test of [checkBulletCollision]. *)
Definition bulletHits (other : Fighter.t) (b : Bullet.t) : bool :=
  Bullet.active b &&
  (let dx := Bullet.x b - Fighter.x other in
   let dy := Bullet.y b - Fighter.y other in
   let dist := sqrt (dx * dx + dy * dy) in
   ltb dist (bulletRadius + Fighter.radius other)).

Definition deactivate (b : Bullet.t) : Bullet.t :=
  Bullet.mk (Bullet.x b) (Bullet.y b) (Bullet.vx b) (Bullet.vy b)
    (Bullet.damage b) false.

(** [checkBulletCollision(other)]: the bullets with the ones that hit
    deactivated, and the flag [hit]. *)
Definition checkBulletCollision (a : ArcherState) (other : Fighter.t)
  : ArcherState * bool :=
  (mkArcher
     (map (fun b => if bulletHits other b then deactivate b else b)
        (bullets a))
     (shootAngle a) (shootCooldown a),
   existsb (bulletHits other) (bullets a)).

Definition getBulletDamage (f : Fighter.t) : R := Fighter.strength f.

End ArcherFighter.

(** ** Dynamic dispatch on the concrete class *)

Definition takeDamage (f : Fighter.t) (damage : R) : Fighter.t :=
  match Fighter.variant f with
  | HeavyV h => HeavyFighter.takeDamage f h damage
  | _ => Fighter.takeDamage f damage
  end.

Definition passiveAbility (f : Fighter.t) (centerX centerY : R) : Fighter.t :=
  match Fighter.variant f with
  | BaseV tm => BaseFighter.passiveAbility f tm centerX centerY
  | HeavyV h => HeavyFighter.passiveAbility f h centerX centerY
  | ArcherV a => ArcherFighter.passiveAbility f a centerX centerY
  end.

Definition useSpecialAbility (f : Fighter.t) (centerX centerY : R)
  : option Fighter.t :=
  match Fighter.variant f with
  | BaseV _ => BaseFighter.useSpecialAbility f centerX centerY
  | HeavyV _ => HeavyFighter.useSpecialAbility f centerX centerY
  | ArcherV a => Some (ArcherFighter.useSpecialAbility f a centerX centerY)
  end.

(** ** The component: arena state, walls and the tick *)

Module Wall.
Record t := mk {
  x : R;
  y : R;
  radius : R
}.
End Wall.

Inductive FighterType := base | heavy | archer.

Definition FighterType_eqb (a b : FighterType) : bool :=
  match a, b with
  | base, base | heavy, heavy | archer, archer => true
  | _, _ => false
  end.

Record FighterOption := mkOption {
  opt_type : FighterType;
  opt_name : string;
  opt_description : string;
  opt_color : string
}.

Definition fighterOptions : list FighterOption :=
  [ mkOption base "Base Fighter" "Balanced stats, regenerates HP"
      "linear-gradient(135deg, #f093fb 0%, #f5576c 100%)";
    mkOption heavy "Heavy Fighter" "High HP, rotating square attack"
      "linear-gradient(135deg, #667eea 0%, #764ba2 100%)";
    mkOption archer "Archer" "Fast, shoots rotating bullets"
      "linear-gradient(135deg, #11998e 0%, #38ef7d 100%)" ].

Definition createFighter (type : FighterType) (x y : R) (name color : string)
  : Fighter.t :=
  let config := mkConfig x y color name in
  match type with
  | base => BaseFighter.create config
  | heavy => HeavyFighter.create config
  | archer => ArcherFighter.create config
  end.

Definition WALL_DISTANCE : R := 400.
Definition WALL_RADIUS : R := 40.
Definition GRAVITY_STRENGTH : R := 0.5.
Definition DAMPING : R := 0.98.
Definition BALL_COLLISION_DAMPING : R := 1.5.
Definition WALL_COLLISION_DAMPING : R := 0.6.

(** The module-level state of the component that the tick reads or writes. *)
Record Arena := mkArena {
  fighter1 : option Fighter.t;
  fighter2 : option Fighter.t;
  ballsInCollision : bool;
  centerX : R;
  centerY : R;
  walls : list Wall.t
}.

Definition updateWalls (a : Arena) : Arena :=
  mkArena (fighter1 a) (fighter2 a) (ballsInCollision a)
    (centerX a) (centerY a)
    [ Wall.mk (centerX a) (centerY a - WALL_DISTANCE) WALL_RADIUS;
      Wall.mk (centerX a + WALL_DISTANCE) (centerY a) WALL_RADIUS;
      Wall.mk (centerX a) (centerY a + WALL_DISTANCE) WALL_RADIUS;
      Wall.mk (centerX a - WALL_DISTANCE) (centerY a) WALL_RADIUS ].

Definition gainIfInCenter (f : Fighter.t) (cx cy : R) : Fighter.t :=
  if Fighter.isInCenterZone f cx cy then Fighter.gainStrength f else f.

Definition checkAndIncreaseStrength (a : Arena) : Arena :=
  match fighter1 a, fighter2 a with
  | Some f1, Some f2 =>
      mkArena (Some (gainIfInCenter f1 (centerX a) (centerY a)))
        (Some (gainIfInCenter f2 (centerX a) (centerY a)))
        (ballsInCollision a) (centerX a) (centerY a) (walls a)
  | _, _ => a
  end.

Definition checkCollisionWithWall (fighter : Fighter.t) (wall : Wall.t)
  : option Fighter.t :=
  let dx := Fighter.x fighter - Wall.x wall in
  let dy := Fighter.y fighter - Wall.y wall in
  let dist := sqrt (dx * dx + dy * dy) in
  let minDist := Fighter.radius fighter + Wall.radius wall in
  if ltb dist minDist && gtb dist 0 then
    nx <- div dx dist ;;
    ny <- div dy dist ;;
    let overlap := minDist - dist in
    let fighter :=
      Fighter.with_pos fighter
        (Fighter.x fighter + nx * overlap)
        (Fighter.y fighter + ny * overlap) in
    let dotProduct := Fighter.vx fighter * nx + Fighter.vy fighter * ny in
    if ltb dotProduct 0 then
      Some (Fighter.with_vel fighter
              (Fighter.vx fighter - nx * dotProduct * WALL_COLLISION_DAMPING)
              (Fighter.vy fighter - ny * dotProduct * WALL_COLLISION_DAMPING))
    else Some fighter
  else Some fighter.

(** *** Ghost log of the [takeDamage] calls of a tick *)

Inductive Side := First | Second.
Inductive Cause := Square | Projectile | Body.

Record Hit := mkHit {
  cause : Cause;
  target : Side;
  amount : R
}.

(** [defender.takeDamage(damage)], logged. *)
Definition strike (c : Cause) (tgt : Side) (defender : Fighter.t) (damage : R)
  : Fighter.t * list Hit :=
  (takeDamage defender damage, [mkHit c tgt damage]).

(** The four values [Math.random()] returns during one tick. *)
Record Rnd := mkRnd { r1 : R; r2 : R; r3 : R; r4 : R }.

(** Gravity, damping, position update and passive abilities, in the order
    of the source (lines 478-492 of the component). *)
Definition integrate (f1 f2 : Fighter.t) (cx cy : R)
  : option (Fighter.t * Fighter.t) :=
  f1 <- Fighter.applyGravity f1 cx cy GRAVITY_STRENGTH ;;
  f2 <- Fighter.applyGravity f2 cx cy GRAVITY_STRENGTH ;;
  let f1 := Fighter.applyDamping f1 DAMPING in
  let f2 := Fighter.applyDamping f2 DAMPING in
  let f1 := Fighter.updatePosition f1 in
  let f2 := Fighter.updatePosition f2 in
  let f1 := passiveAbility f1 cx cy in
  let f2 := passiveAbility f2 cx cy in
  Some (f1, f2).

(** One [if (attacker instanceof HeavyFighter)] block (lines 498-515):
    the defender after the block, and whether [squareHit] was set. *)
Definition squareStrike (attacker defender : Fighter.t) (balls : bool)
  (tgt : Side) : Fighter.t * bool * list Hit :=
  match Fighter.variant attacker with
  | HeavyV h =>
      if HeavyFighter.checkSquareCollisionWithFighter attacker h defender
         && negb balls
      then
        let '(d, log) := strike Square tgt defender (Fighter.strength attacker) in
        (d, true, log)
      else (defender, false, [])
  | _ => (defender, false, [])
  end.

(** One [if (attacker instanceof ArcherFighter)] block (lines 517-530):
    the attacker (its bullets are deactivated in place), the defender, and
    whether [bulletHit] was set. *)
Definition bulletStrike (attacker defender : Fighter.t) (tgt : Side)
  : Fighter.t * Fighter.t * bool * list Hit :=
  match Fighter.variant attacker with
  | ArcherV a =>
      let '(a', hit) := ArcherFighter.checkBulletCollision a defender in
      let attacker := Fighter.with_variant attacker (ArcherV a') in
      if hit then
        let '(d, log) :=
          strike Projectile tgt defender
            (ArcherFighter.getBulletDamage attacker) in
        (attacker, d, true, log)
      else (attacker, defender, false, [])
  | _ => (attacker, defender, false, [])
  end.

(** The damage of the first contact (lines 534-541). *)
Definition bodyDamage (f1 f2 : Fighter.t) (gate : bool)
  : Fighter.t * Fighter.t * list Hit :=
  if gate then
    let '(f2, log1) :=
      if Fighter.dealsBodyDamage f1
      then strike Body Second f2 (Fighter.strength f1)
      else (f2, []) in
    let '(f1, log2) :=
      if Fighter.dealsBodyDamage f2
      then strike Body First f1 (Fighter.strength f2)
      else (f1, []) in
    (f1, f2, log1 ++ log2)
  else (f1, f2, []).

(** Separation and impulse (lines 549-571); [dist] is not zero here. *)
Definition separate (f1 f2 : Fighter.t) (dist minDist : R) (rnd : Rnd)
  : option (Fighter.t * Fighter.t) :=
  let dx := Fighter.x f2 - Fighter.x f1 in
  let dy := Fighter.y f2 - Fighter.y f1 in
  nx <- div dx dist ;;
  ny <- div dy dist ;;
  let overlap := minDist - dist in
  let f1 := Fighter.with_pos f1 (Fighter.x f1 - nx * overlap * 0.5)
              (Fighter.y f1 - ny * overlap * 0.5) in
  let f2 := Fighter.with_pos f2 (Fighter.x f2 + nx * overlap * 0.5)
              (Fighter.y f2 + ny * overlap * 0.5) in
  let dvx := Fighter.vx f2 - Fighter.vx f1 in
  let dvy := Fighter.vy f2 - Fighter.vy f1 in
  let dotProduct := dvx * nx + dvy * ny in
  let f1 := Fighter.with_vel f1
      (Fighter.vx f1 + nx * dotProduct * BALL_COLLISION_DAMPING * 2 * r1 rnd)
      (Fighter.vy f1 + ny * dotProduct * BALL_COLLISION_DAMPING * 2 * r2 rnd) in
  let f2 := Fighter.with_vel f2
      (Fighter.vx f2 - nx * dotProduct * BALL_COLLISION_DAMPING * 2 * r3 rnd)
      (Fighter.vy f2 - ny * dotProduct * BALL_COLLISION_DAMPING * 2 * r4 rnd) in
  Some (f1, f2).

(** The [forEach] over the walls (lines 580-583). *)
Fixpoint wallPhase (ws : list Wall.t) (f1 f2 : Fighter.t)
  : option (Fighter.t * Fighter.t) :=
  match ws with
  | [] => Some (f1, f2)
  | wall :: ws' =>
      f1 <- checkCollisionWithWall f1 wall ;;
      f2 <- checkCollisionWithWall f2 wall ;;
      wallPhase ws' f1 f2
  end.

(** The square and bullet checks of the tick (lines 498-530): the fighters,
    [squareHit], [bulletHit] and the damage applied. *)
Definition hitPhase (f1 f2 : Fighter.t) (balls : bool)
  : Fighter.t * Fighter.t * bool * bool * list Hit :=
  let '(f2, hit12, logS1) := squareStrike f1 f2 balls Second in
  let '(f1, hit21, logS2) := squareStrike f2 f1 balls First in
  let squareHit := hit12 || hit21 in
  let '(f1, f2, bhit12, logB1) := bulletStrike f1 f2 Second in
  let '(f2, f1, bhit21, logB2) := bulletStrike f2 f1 First in
  let bulletHit := bhit12 || bhit21 in
  (f1, f2, squareHit, bulletHit, logS1 ++ logS2 ++ logB1 ++ logB2).

(** The body collision of the tick (lines 532-577): the fighters, the new
    value of [ballsInCollision] and the damage applied. *)
Definition contactPhase (f1 f2 : Fighter.t) (dist minDist : R)
  (balls squareHit bulletHit : bool) (rnd : Rnd)
  : option (Fighter.t * Fighter.t * bool * list Hit) :=
  if ltb dist minDist && gtb dist 0 then
    let '(f1, f2, logD) :=
      bodyDamage f1 f2 (negb balls && negb squareHit && negb bulletHit) in
    let balls := if squareHit || bulletHit then true else true in
    '(f1, f2) <- separate f1 f2 dist minDist rnd ;;
    Some (f1, f2, balls, logD)
  else if squareHit || bulletHit then Some (f1, f2, true, [])
  else Some (f1, f2, false, []).

(** [updatePhysics()]: one tick.  Returns the next state and the log of the
    damage applied during the tick. *)
Definition updatePhysics (a : Arena) (rnd : Rnd) : option (Arena * list Hit) :=
  match fighter1 a, fighter2 a with
  | Some f1, Some f2 =>
      '(f1, f2) <- integrate f1 f2 (centerX a) (centerY a) ;;
      let dist := Fighter.getDistanceTo f1 f2 in
      let minDist := Fighter.radius f1 + Fighter.radius f2 in
      let '(f1, f2, squareHit, bulletHit, logH) :=
        hitPhase f1 f2 (ballsInCollision a) in
      '(f1, f2, balls, logD) <-
        contactPhase f1 f2 dist minDist (ballsInCollision a)
          squareHit bulletHit rnd ;;
      '(f1, f2) <- wallPhase (walls a) f1 f2 ;;
      Some (mkArena (Some f1) (Some f2) balls (centerX a) (centerY a)
              (walls a), logH ++ logD)
  | _, _ => Some (a, [])
  end.

(** [startGame()], called on the state [a] of the component with the
    selected types: the two fighters are created on either side of the
    centre, the walls are laid out and the first frame runs at once (the
    call [updatePhysics()] of line 375).  The frames and the strength timer
    that the function schedules are the events of [play] below. *)
Definition startGame (a : Arena) (selectedFighter1Type
  selectedFighter2Type : FighterType) (rnd : Rnd)
  : option (Arena * list Hit) :=
  option1 <-
    find (fun f => FighterType_eqb (opt_type f) selectedFighter1Type)
      fighterOptions ;;
  option2 <-
    find (fun f => FighterType_eqb (opt_type f) selectedFighter2Type)
      fighterOptions ;;
  let fighter1 :=
    createFighter selectedFighter1Type (centerX a - 200) (centerY a - 200)
      (opt_name option1 ++ " 1") (opt_color option1) in
  let fighter2 :=
    createFighter selectedFighter2Type (centerX a + 200) (centerY a + 200)
      (opt_name option2 ++ " 2") (opt_color option2) in
  let a :=
    mkArena (Some fighter1) (Some fighter2) (ballsInCollision a)
      (centerX a) (centerY a) (walls a) in
  updatePhysics (updateWalls a) rnd.

(** The distance between the centres and the sum of the radii that a tick
    started in [a] compares: those after integration and passive abilities. *)
Definition contact (a : Arena) : option (R * R) :=
  match fighter1 a, fighter2 a with
  | Some f1, Some f2 =>
      '(f1, f2) <- integrate f1 f2 (centerX a) (centerY a) ;;
      Some (Fighter.getDistanceTo f1 f2, Fighter.radius f1 + Fighter.radius f2)
  | _, _ => None
  end.

(** Consecutive ticks: for each tick the state before it, the damage it
    applied and the state after it. *)
Record Step := mkStep {
  before : Arena;
  applied : list Hit;
  after : Arena
}.

Fixpoint run (a : Arena) (rs : list Rnd) : option (list Step) :=
  match rs with
  | [] => Some []
  | r :: rs' =>
      '(a', log) <- updatePhysics a r ;;
      rest <- run a' rs' ;;
      Some (mkStep a log a' :: rest)
  end.

(** What the host does to a started game: a frame ([updatePhysics]) or the
    500 ms timer ([checkAndIncreaseStrength]). *)
Inductive Event :=
| Frame (rnd : Rnd)
| StrengthTimer.

Definition step (a : Arena) (e : Event) : option Arena :=
  match e with
  | Frame rnd => '(a', _) <- updatePhysics a rnd ;; Some a'
  | StrengthTimer => Some (checkAndIncreaseStrength a)
  end.

Fixpoint play (a : Arena) (es : list Event) : option Arena :=
  match es with
  | [] => Some a
  | e :: es' => a' <- step a e ;; play a' es'
  end.

(** ** The operations on one fighter, as a script

    What the tick, the strength timer and an explicit trigger can do to one
    fighter, one method call at a time. *)

Inductive Op :=
| OpApplyGravity (centerX centerY gravityStrength : R)
| OpApplyDamping (damping : R)
| OpUpdatePosition
| OpPassiveAbility (centerX centerY : R)
| OpUseSpecialAbility (centerX centerY : R)
| OpTakeDamage (damage : R)
| OpGainStrength
| OpCollideWithWall (wall : Wall.t).

Definition applyOp (f : Fighter.t) (o : Op) : option Fighter.t :=
  match o with
  | OpApplyGravity cx cy g => Fighter.applyGravity f cx cy g
  | OpApplyDamping d => Some (Fighter.applyDamping f d)
  | OpUpdatePosition => Some (Fighter.updatePosition f)
  | OpPassiveAbility cx cy => Some (passiveAbility f cx cy)
  | OpUseSpecialAbility cx cy => useSpecialAbility f cx cy
  | OpTakeDamage d => Some (takeDamage f d)
  | OpGainStrength => Some (Fighter.gainStrength f)
  | OpCollideWithWall w => checkCollisionWithWall f w
  end.

Fixpoint runOps (ops : list Op) (f : Fighter.t) : option Fighter.t :=
  match ops with
  | [] => Some f
  | o :: ops' => f' <- applyOp f o ;; runOps ops' f'
  end.

(** The damage passed to [takeDamage] is not negative. *)
Definition damageOk (o : Op) : Prop :=
  match o with
  | OpTakeDamage d => 0 <= d
  | _ => True
  end.

Definition hpInRange (f : Fighter.t) : Prop :=
  0 <= Fighter.hp f <= Fighter.maxHp f.

(** Both fighters of a started game have hp within range and a strength
    that is not negative. *)
Definition fighterOk (f : Fighter.t) : Prop :=
  hpInRange f /\ 0 <= Fighter.strength f.

Definition arenaOk (a : Arena) : Prop :=
  exists f1 f2,
    fighter1 a = Some f1 /\ fighter2 a = Some f2 /\ fighterOk f1 /\ fighterOk f2.

(** The circles overlap, their centres apart: [0 < dist < minDist] in the
    tick started in [a]. *)
Definition positiveOverlap (a : Arena) : Prop :=
  exists d m, contact a = Some (d, m) /\ 0 < d < m.

(** ** Vocabulary of the statements *)

(** [stable f f']: strength, maxHp, radius and the body-damage flag of [f']
    are those of [f]. *)
Definition stable (f f' : Fighter.t) : Prop :=
  Fighter.strength f' = Fighter.strength f /\
  Fighter.maxHp f' = Fighter.maxHp f /\
  Fighter.radius f' = Fighter.radius f /\
  Fighter.dealsBodyDamage f' = Fighter.dealsBodyDamage f.

(** The strength of the fighter that attacks [tgt]. *)
Definition attackerStrength (f1 f2 : Fighter.t) (tgt : Side) : R :=
  match tgt with
  | Second => Fighter.strength f1
  | First => Fighter.strength f2
  end.

Definition hasCause (c : Cause) (log : list Hit) : Prop :=
  exists h, In h log /\ cause h = c.

(** The circles of [f] and [w] do not overlap. *)
Definition farFrom (f : Fighter.t) (w : Wall.t) : Prop :=
  0 <= Fighter.radius f + Wall.radius w /\
  (Fighter.radius f + Wall.radius w) * (Fighter.radius f + Wall.radius w)
  <= (Fighter.x f - Wall.x w) * (Fighter.x f - Wall.x w)
     + (Fighter.y f - Wall.y w) * (Fighter.y f - Wall.y w).

(** ** Sample states *)

(** An archer that has held the centre for 19 strength gains (3 + 19 = 22),
    ready to shoot. *)
Definition archer22 : Fighter.t :=
  Fighter.mk 0 0 0 0 150 150 22 28 "green" "Archer 1" false
    (ArcherV (mkArcher [] 0 0)).

(** A fresh archer. *)
Definition archer3 : Fighter.t :=
  ArcherFighter.create (mkConfig 0 0 "green" "Archer 1").

(** A heavy fighter at the arena centre [(0, 0)], one tick short of a
    shield, with [hp] left. *)
Definition heavy179 (hp : R) : Fighter.t :=
  Fighter.mk 0 0 0 0 hp 250 2 50 "blue" "Heavy 1" false
    (HeavyV (mkHeavy 0 179 false)).

(** A knocked-out heavy fighter whose shield is armed. *)
Definition heavyKO : Fighter.t :=
  Fighter.mk 0 0 0 0 0 250 2 50 "blue" "Heavy 1" false
    (HeavyV (mkHeavy 0 42 true)).

(** A base fighter with [hp] left and a regeneration timer at [tm]. *)
Definition baseAt (hp : R) (tm : nat) : Fighter.t :=
  Fighter.mk 0 0 0 0 hp 100 1 30 "red" "Base 1" true (BaseV tm).

(** The top wall of an arena centred at [(0, 0)], a base fighter sitting
    exactly on its centre, and one that overlaps it from below while
    moving towards it. *)
Definition topWall : Wall.t := Wall.mk 0 (-400) WALL_RADIUS.

Definition baseOnWall : Fighter.t :=
  Fighter.mk 0 (-400) 0 0 100 100 1 30 "red" "Base 1" true (BaseV 0).

Definition baseNearWall : Fighter.t :=
  Fighter.mk 0 (-350) 0 (-2) 100 100 1 30 "red" "Base 1" true (BaseV 0).

(** A fresh heavy fighter and a script for it: a passive tick, two hits (the
    second larger than its hp), a strength gain and the ground slam. *)
Definition freshHeavy : Fighter.t :=
  createFighter heavy 0 0 "Heavy 1" "blue".

Definition sampleOps : list Op :=
  [ OpPassiveAbility 0 0; OpTakeDamage 10; OpTakeDamage 300;
    OpGainStrength; OpUseSpecialAbility 0 0 ].

(** *** Two base fighters on the same spot

    Both fighters sit on the arena centre, the contact flag is set. *)

Definition twin1 : Fighter.t :=
  Fighter.mk 0 0 0 0 100 100 1 30 "red" "Base 1" true (BaseV 0).
Definition twin2 : Fighter.t :=
  Fighter.mk 0 0 0 0 100 100 1 30 "red" "Base 2" true (BaseV 0).
Definition twinArena : Arena :=
  updateWalls (mkArena (Some twin1) (Some twin2) true 0 0 []).

(** The fighters after the tick. *)
Definition twin1' : Fighter.t :=
  Fighter.mk 0 0 0 0 100 100 1 30 "red" "Base 1" true (BaseV 1).
Definition twin2' : Fighter.t :=
  Fighter.mk 0 0 0 0 100 100 1 30 "red" "Base 2" true (BaseV 1).
Definition twinArena' : Arena :=
  updateWalls (mkArena (Some twin1') (Some twin2') false 0 0 []).

(** *** An archer whose strength grew while its bullet was in flight

    The bullet was shot at strength 3 and carries damage 3; the archer has
    since gained strength and is at 4.  During the tick the bullet reaches
    the base fighter. *)

Definition flyingBullet : Bullet.t := Bullet.mk 165 0 10 0 3 true.

Definition shooter : Fighter.t :=
  Fighter.mk (-200) 0 0 0 150 150 4 28 "green" "Archer 1" false
    (ArcherV (mkArcher [flyingBullet] 0 10)).
Definition victim : Fighter.t :=
  Fighter.mk 200 0 0 0 100 100 1 30 "red" "Base 2" true (BaseV 0).
Definition shotArena : Arena :=
  updateWalls (mkArena (Some shooter) (Some victim) false 0 0 []).

(** After integration and passive abilities. *)
Definition shooterMoved : Fighter.t :=
  Fighter.mk (-199.412) 0 0.588 0 150 150 4 28 "green" "Archer 1" false
    (ArcherV (mkArcher [Bullet.mk 175 0 10 0 3 true] 0.08 9)).
Definition victimMoved : Fighter.t :=
  Fighter.mk 199.51 0 (-0.49) 0 100 100 1 30 "red" "Base 2" true (BaseV 1).

(** After the tick. *)
Definition shooter' : Fighter.t :=
  Fighter.mk (-199.412) 0 0.588 0 150 150 4 28 "green" "Archer 1" false
    (ArcherV (mkArcher [Bullet.mk 175 0 10 0 3 false] 0.08 9)).
Definition victim' : Fighter.t :=
  Fighter.mk 199.51 0 (-0.49) 0 96 100 1 30 "red" "Base 2" true (BaseV 1).
Definition shotArena' : Arena :=
  updateWalls (mkArena (Some shooter') (Some victim') true 0 0 []).

(** *** Two base fighters that stay in contact for two ticks

    [Math.random()] returns 0 four times in each tick. *)

Definition rnd0 : Rnd := mkRnd 0 0 0 0.

Definition left0 : Fighter.t :=
  Fighter.mk (-10) 0 0 0 100 100 1 30 "red" "Base 1" true (BaseV 0).
Definition right0 : Fighter.t :=
  Fighter.mk 10 0 0 0 100 100 1 30 "red" "Base 2" true (BaseV 0).
Definition pairArena0 : Arena :=
  updateWalls (mkArena (Some left0) (Some right0) false 0 0 []).

(** First tick: after integration, and at the end. *)
Definition left0m : Fighter.t :=
  Fighter.mk (-9.51) 0 0.49 0 100 100 1 30 "red" "Base 1" true (BaseV 1).
Definition right0m : Fighter.t :=
  Fighter.mk 9.51 0 (-0.49) 0 100 100 1 30 "red" "Base 2" true (BaseV 1).
Definition left1 : Fighter.t :=
  Fighter.mk (-30) 0 0.49 0 99 100 1 30 "red" "Base 1" true (BaseV 1).
Definition right1 : Fighter.t :=
  Fighter.mk 30 0 (-0.49) 0 99 100 1 30 "red" "Base 2" true (BaseV 1).
Definition pairArena1 : Arena :=
  updateWalls (mkArena (Some left1) (Some right1) true 0 0 []).

(** Second tick: after integration, and at the end. *)
Definition left1m : Fighter.t :=
  Fighter.mk (-29.0298) 0 0.9702 0 99 100 1 30 "red" "Base 1" true (BaseV 2).
Definition right1m : Fighter.t :=
  Fighter.mk 29.0298 0 (-0.9702) 0 99 100 1 30 "red" "Base 2" true (BaseV 2).
Definition left2 : Fighter.t :=
  Fighter.mk (-30) 0 0.9702 0 99 100 1 30 "red" "Base 1" true (BaseV 2).
Definition right2 : Fighter.t :=
  Fighter.mk 30 0 (-0.9702) 0 99 100 1 30 "red" "Base 2" true (BaseV 2).
Definition pairArena2 : Arena :=
  updateWalls (mkArena (Some left2) (Some right2) true 0 0 []).

(** ** More of the component and vocabulary for it *)

(** [resetGame()], without the cancelling of the timers. *)
Definition resetGame (a : Arena) : Arena :=
  mkArena None None false (centerX a) (centerY a) (walls a).

(** The passive ability called on consecutive frames, the arena centre of
    each frame given. *)
Fixpoint passiveAlong (cs : list (R * R)) (f : Fighter.t) : Fighter.t :=
  match cs with
  | [] => f
  | (cx, cy) :: cs' => passiveAlong cs' (passiveAbility f cx cy)
  end.

(** The share of one fighter in [integrate]: gravity, damping, position
    update and passive ability. *)
Definition advance (f : Fighter.t) (cx cy : R) : option Fighter.t :=
  f' <- Fighter.applyGravity f cx cy GRAVITY_STRENGTH ;;
  Some (passiveAbility
          (Fighter.updatePosition (Fighter.applyDamping f' DAMPING)) cx cy).

(** The state of a fighter of a new game after its share of the first
    frame. *)
Definition settled (px py : R) (g : Fighter.t) : Prop :=
  (px - 1 <= Fighter.x g <= px + 1) /\
  (py - 1 <= Fighter.y g <= py + 1) /\
  (0 <= Fighter.radius g <= 50) /\
  Fighter.hp g = Fighter.maxHp g /\
  match Fighter.variant g with
  | ArcherV a =>
      Forall (fun b =>
                Fighter.x g - 50 <= Bullet.x b <= Fighter.x g + 50)
        (bullets a)
  | _ => True
  end.

(** The bullets [bs] of the archer [f] after [n] calls of [updateBullets]:
    moved and pruned [n] times, none added. *)
Fixpoint agedBullets (f : Fighter.t) (n : nat) (bs : list Bullet.t)
  : list Bullet.t :=
  match n with
  | O => bs
  | S n' =>
      agedBullets f n'
        (filter Bullet.active (map (ArcherFighter.moveBullet f) bs))
  end.

(** One fighter against the walls in turn, as the [forEach] treats it. *)
Fixpoint againstWalls (ws : list Wall.t) (f : Fighter.t) : option Fighter.t :=
  match ws with
  | [] => Some f
  | w :: ws' => f' <- checkCollisionWithWall f w ;; againstWalls ws' f'
  end.

Definition distToWall (f : Fighter.t) (w : Wall.t) : R :=
  sqrt ((Fighter.x f - Wall.x w) * (Fighter.x f - Wall.x w)
        + (Fighter.y f - Wall.y w) * (Fighter.y f - Wall.y w)).

(** The circles of [f] and [w] do not overlap. *)
Definition clearOf (f : Fighter.t) (w : Wall.t) : Prop :=
  Fighter.radius f + Wall.radius w <= distToWall f w.

(** What the wall loop did to [f] to give [g]: nothing, every wall being
    clear of [f] or centred on it, or the resolution of one wall that [f]
    overlapped. *)
Definition resolvedByOneWall (ws : list Wall.t) (f g : Fighter.t) : Prop :=
  (g = f /\ Forall (fun w => clearOf f w \/ distToWall f w = 0) ws) \/
  (exists w,
     In w ws /\
     0 < distToWall f w < Fighter.radius f + Wall.radius w /\
     checkCollisionWithWall f w = Some g).

Definition speed (f : Fighter.t) : R :=
  sqrt (Fighter.vx f * Fighter.vx f + Fighter.vy f * Fighter.vy f).

Definition dist2 (p q : R * R) : R :=
  sqrt ((fst p - fst q) * (fst p - fst q) + (snd p - snd q) * (snd p - snd q)).

Definition heavyState (f : Fighter.t) : option HeavyState :=
  match Fighter.variant f with
  | HeavyV h => Some h
  | _ => None
  end.

Definition archerState (f : Fighter.t) : option ArcherState :=
  match Fighter.variant f with
  | ArcherV a => Some a
  | _ => None
  end.

(** Is [h] a hit of cause [c] on [tgt]? *)
Definition isHit (c : Cause) (tgt : Side) (h : Hit) : bool :=
  match cause h, c with
  | Square, Square | Projectile, Projectile | Body, Body =>
      match target h, tgt with
      | First, First | Second, Second => true
      | _, _ => false
      end
  | _, _ => false
  end.

(** The fighter of [a] on side [s]. *)
Definition fighterOn (a : Arena) (s : Side) : option Fighter.t :=
  match s with
  | First => fighter1 a
  | Second => fighter2 a
  end.

Definition opponentOf (s : Side) : Side :=
  match s with
  | First => Second
  | Second => First
  end.

Definition wallDist (w w' : Wall.t) : R :=
  sqrt ((Wall.x w - Wall.x w') * (Wall.x w - Wall.x w')
        + (Wall.y w - Wall.y w') * (Wall.y w - Wall.y w')).

(** ** The two push-outs in binary64

    [checkCollisionWithWall] and the separation of two fighters once more,
    on IEEE-754 binary64 numbers and operation by operation as the source
    writes them, to see what rounding leaves of the distance the push aims
    at.  A comparison with [NaN] is false, a division by zero gives an
    infinity or [NaN]: nothing fails. *)

Set Warnings "-inexact-float".

Module Binary64.

Record Circle := mk {
  x : float;
  y : float;
  vx : float;
  vy : float;
  radius : float
}.

Definition BALL_COLLISION_DAMPING : float := 1.5%float.
Definition WALL_COLLISION_DAMPING : float := 0.6%float.

(** [applyGravity], [applyDamping] and [updatePosition] of [Fighter];
    [speedMultiplier] is the subclass's. *)
Definition applyGravity (f : Circle)
  (centerX centerY gravityStrength speedMultiplier : float) : Circle :=
  let dx := (centerX - x f)%float in
  let dy := (centerY - y f)%float in
  let dist := PrimFloat.sqrt (dx * dx + dy * dy)%float in
  if PrimFloat.ltb 0%float dist then
    mk (x f) (y f)
      (vx f + (dx / dist) * gravityStrength * speedMultiplier)%float
      (vy f + (dy / dist) * gravityStrength * speedMultiplier)%float
      (radius f)
  else f.

Definition applyDamping (f : Circle) (damping : float) : Circle :=
  mk (x f) (y f) (vx f * damping)%float (vy f * damping)%float (radius f).

Definition updatePosition (f : Circle) : Circle :=
  mk (x f + vx f)%float (y f + vy f)%float (vx f) (vy f) (radius f).

(** [Math.sqrt(dx * dx + dy * dy)] between two centres. *)
Definition distance (a b : Circle) : float :=
  let dx := (x a - x b)%float in
  let dy := (y a - y b)%float in
  PrimFloat.sqrt (dx * dx + dy * dy)%float.

Definition checkCollisionWithWall (fighter wall : Circle) : Circle :=
  let dx := (x fighter - x wall)%float in
  let dy := (y fighter - y wall)%float in
  let dist := PrimFloat.sqrt (dx * dx + dy * dy)%float in
  let minDist := (radius fighter + radius wall)%float in
  if PrimFloat.ltb dist minDist && PrimFloat.ltb 0%float dist then
    let nx := (dx / dist)%float in
    let ny := (dy / dist)%float in
    let overlap := (minDist - dist)%float in
    let px := (x fighter + nx * overlap)%float in
    let py := (y fighter + ny * overlap)%float in
    let dotProduct := (vx fighter * nx + vy fighter * ny)%float in
    if PrimFloat.ltb dotProduct 0%float then
      mk px py
        (vx fighter - nx * dotProduct * WALL_COLLISION_DAMPING)%float
        (vy fighter - ny * dotProduct * WALL_COLLISION_DAMPING)%float
        (radius fighter)
    else mk px py (vx fighter) (vy fighter) (radius fighter)
  else fighter.

(** Separation and impulse of [updatePhysics] (lines 549-571); [r1] to
    [r4] are the four values of [Math.random()]. *)
Definition separate (f1 f2 : Circle) (dist minDist r1 r2 r3 r4 : float)
  : Circle * Circle :=
  let dx := (x f2 - x f1)%float in
  let dy := (y f2 - y f1)%float in
  let nx := (dx / dist)%float in
  let ny := (dy / dist)%float in
  let overlap := (minDist - dist)%float in
  let x1 := (x f1 - nx * overlap * 0.5)%float in
  let y1 := (y f1 - ny * overlap * 0.5)%float in
  let x2 := (x f2 + nx * overlap * 0.5)%float in
  let y2 := (y f2 + ny * overlap * 0.5)%float in
  let dvx := (vx f2 - vx f1)%float in
  let dvy := (vy f2 - vy f1)%float in
  let dotProduct := (dvx * nx + dvy * ny)%float in
  (mk x1 y1
     (vx f1 + nx * dotProduct * BALL_COLLISION_DAMPING * 2 * r1)%float
     (vy f1 + ny * dotProduct * BALL_COLLISION_DAMPING * 2 * r2)%float
     (radius f1),
   mk x2 y2
     (vx f2 - nx * dotProduct * BALL_COLLISION_DAMPING * 2 * r3)%float
     (vy f2 - ny * dotProduct * BALL_COLLISION_DAMPING * 2 * r4)%float
     (radius f2)).

(** The test [dist < minDist] of the next call. *)
Definition overlaps (fighter wall : Circle) : bool :=
  PrimFloat.ltb (distance fighter wall) (radius fighter + radius wall)%float.

(** The top wall of an arena centred at [(0, 0)] and a fighter of radius 30
    that overlaps it, at rest. *)
Definition topWall : Circle := mk 0 (-400) 0 0 40.
Definition nearTopWall : Circle := mk 7 (-376) 0 0 30.

(** The base fighter and the archer of [duelArena0] below. *)
Definition duelBase : Circle := mk 10 0 0.5 0 30.
Definition duelArcher : Circle := mk 10 0 0.6 0 28.

(** Two fighters of radius 30 at rest, 25 apart. *)
Definition onCenter : Circle := mk 0 0 0 0 30.
Definition nearCenter : Circle := mk 7 24 0 0 30.

End Binary64.

(** *** More sample states *)

(** A heavy fighter 5 away from the centre [(0, 0)], before and after its
    ground slam. *)
Definition heavyNear : Fighter.t :=
  Fighter.mk 3 4 0 0 250 250 2 50 "blue" "Heavy 1" false
    (HeavyV (mkHeavy 0 0 false)).
Definition heavySlammed : Fighter.t :=
  Fighter.mk 3 4 3 4 250 250 2 50 "blue" "Heavy 1" false
    (HeavyV (mkHeavy 0 0 false)).

(** A base fighter 500 away from the centre [(0, 0)], before and after its
    dash. *)
Definition baseFar : Fighter.t :=
  Fighter.mk 300 400 0 0 100 100 1 30 "red" "Base 1" true (BaseV 0).
Definition baseDashed : Fighter.t :=
  Fighter.mk 300 400 (-1.2) (-1.6) 100 100 1 30 "red" "Base 1" true (BaseV 0).

(** [left0] after gravity towards [(0, 0)]. *)
Definition left0pulled : Fighter.t :=
  Fighter.mk (-10) 0 0.5 0 100 100 1 30 "red" "Base 1" true (BaseV 0).

(** [left0m] and [right0m] after their separation, with the draws of
    [rnd0]. *)
Definition left0apart : Fighter.t :=
  Fighter.mk (-30) 0 0.49 0 100 100 1 30 "red" "Base 1" true (BaseV 1).
Definition right0apart : Fighter.t :=
  Fighter.mk 30 0 (-0.49) 0 100 100 1 30 "red" "Base 2" true (BaseV 1).

(** [baseNearWall] after the top wall has pushed it out. *)
Definition basePushed : Fighter.t :=
  Fighter.mk 0 (-330) 0 (-0.8) 100 100 1 30 "red" "Base 1" true (BaseV 0).

(** *** A base fighter and an archer on the same spot

    The two fighters sit on the same point, 10 to the right of the centre,
    with the contact flag set, and drift outwards at the speed that the pull
    of the first frame cancels exactly (0.5 and 0.6, also in binary64): in
    the first frame the centres still coincide, in the second the archer,
    pulled harder, is 0.098 ahead.  [Math.random()] returns 0. *)


(** First frame: after integration, which is also its end. *)
Definition duelBase1 : Fighter.t :=
  Fighter.mk 10 0 0 0 100 100 1 30 "red" "Base 1" true (BaseV 1).
Definition duelArcher1 : Fighter.t :=
  Fighter.mk 10 0 0 0 150 150 3 28 "green" "Archer 2" false
    (ArcherV (mkArcher [] 0.08 9)).
Definition duelArena1 : Arena :=
  updateWalls (mkArena (Some duelBase1) (Some duelArcher1) false 0 0 []).

(** Second frame: after integration, and at the end. *)
Definition duelBase1m : Fighter.t :=
  Fighter.mk 9.51 0 (-0.49) 0 100 100 1 30 "red" "Base 1" true (BaseV 2).
Definition duelArcher1m : Fighter.t :=
  Fighter.mk 9.412 0 (-0.588) 0 150 150 3 28 "green" "Archer 2" false
    (ArcherV (mkArcher [] 0.16 8)).
Definition duelBase2 : Fighter.t :=
  Fighter.mk 38.461 0 (-0.49) 0 100 100 1 30 "red" "Base 1" true (BaseV 2).
Definition duelArcher2 : Fighter.t :=
  Fighter.mk (-19.539) 0 (-0.588) 0 149 150 3 28 "green" "Archer 2" false
    (ArcherV (mkArcher [] 0.16 8)).
Definition duelArena2 : Arena :=
  updateWalls (mkArena (Some duelBase2) (Some duelArcher2) true 0 0 []).

(** * Properties *)

(** ** Comparisons and distances *)

Lemma ltb_true (a b : R) : ltb a b = true <-> a < b.
Proof. unfold ltb; destruct (Rlt_dec a b); split; intros; try easy. Qed.

Lemma ltb_false (a b : R) : ltb a b = false <-> b <= a.
Proof.
  unfold ltb; destruct (Rlt_dec a b); split; intros; try easy; lra.
Qed.

Lemma gtb_true (a b : R) : gtb a b = true <-> b < a.
Proof. apply ltb_true. Qed.

Lemma gtb_false (a b : R) : gtb a b = false <-> a <= b.
Proof. apply ltb_false. Qed.

Lemma eqb_true (a b : R) : eqb a b = true <-> a = b.
Proof. unfold eqb; destruct (Req_dec_T a b); split; intros; try easy. Qed.

Lemma eqb_false (a b : R) : eqb a b = false <-> a <> b.
Proof. unfold eqb; destruct (Req_dec_T a b); split; intros; try easy. Qed.

Lemma div_ok (a b : R) : b <> 0 -> div a b = Some (a / b).
Proof. intros Hb; unfold div; destruct (Req_dec_T b 0); easy. Qed.

Lemma sumsq_nonneg (a b : R) : 0 <= a * a + b * b.
Proof. nra. Qed.

Lemma norm_sq (a b : R) :
  sqrt (a * a + b * b) * sqrt (a * a + b * b) = a * a + b * b.
Proof. apply sqrt_sqrt, sumsq_nonneg. Qed.

(** Scaling a vector by [k >= 0] scales its norm by [k]. *)
Lemma norm_scale (k a b : R) :
  0 <= k ->
  sqrt ((k * a) * (k * a) + (k * b) * (k * b)) = k * sqrt (a * a + b * b).
Proof.
  intros Hk.
  replace ((k * a) * (k * a) + (k * b) * (k * b))
    with ((k * k) * (a * a + b * b)) by ring.
  rewrite sqrt_mult; [|nra|apply sumsq_nonneg].
  now rewrite sqrt_square.
Qed.

(** ** Zero-distance guards: the functions that divide never fail *)

Lemma applyGravity_total (f : Fighter.t) (cx cy g : R) :
  exists f', Fighter.applyGravity f cx cy g = Some f'.
Proof.
  unfold Fighter.applyGravity.
  destruct (gtb _ 0) eqn:Hd; [|eauto].
  apply gtb_true in Hd.
  rewrite !div_ok by lra. simpl. eauto.
Qed.

Lemma applyGravity_skip (f : Fighter.t) (cx cy g : R) :
  sqrt ((cx - Fighter.x f) * (cx - Fighter.x f)
        + (cy - Fighter.y f) * (cy - Fighter.y f)) = 0 ->
  Fighter.applyGravity f cx cy g = Some f.
Proof.
  intros H. unfold Fighter.applyGravity.
  destruct (gtb _ 0) eqn:Hd; [|reflexivity].
  apply gtb_true in Hd. lra.
Qed.

Lemma checkCollisionWithWall_total (f : Fighter.t) (w : Wall.t) :
  exists f', checkCollisionWithWall f w = Some f'.
Proof.
  unfold checkCollisionWithWall.
  destruct (ltb _ _ && gtb _ 0) eqn:Hd; [|eauto].
  apply andb_true_iff in Hd as [_ Hd]. apply gtb_true in Hd.
  rewrite !div_ok by lra. simpl.
  destruct (ltb _ 0); eauto.
Qed.

Lemma checkCollisionWithWall_skip (f : Fighter.t) (w : Wall.t) :
  sqrt ((Fighter.x f - Wall.x w) * (Fighter.x f - Wall.x w)
        + (Fighter.y f - Wall.y w) * (Fighter.y f - Wall.y w)) = 0 ->
  checkCollisionWithWall f w = Some f.
Proof.
  intros H. unfold checkCollisionWithWall.
  destruct (ltb _ _ && gtb _ 0) eqn:Hd; [|reflexivity].
  apply andb_true_iff in Hd as [_ Hd]. apply gtb_true in Hd. lra.
Qed.

Lemma separate_total (f1 f2 : Fighter.t) (dist minDist : R) (rnd : Rnd) :
  dist <> 0 -> exists p, separate f1 f2 dist minDist rnd = Some p.
Proof.
  intros Hd. unfold separate. rewrite !div_ok by assumption. simpl. eauto.
Qed.

Lemma wallPhase_total (ws : list Wall.t) (f1 f2 : Fighter.t) :
  exists p, wallPhase ws f1 f2 = Some p.
Proof.
  revert f1 f2; induction ws as [|w ws IH]; intros f1 f2; simpl; [eauto|].
  destruct (checkCollisionWithWall_total f1 w) as [f1' ->].
  destruct (checkCollisionWithWall_total f2 w) as [f2' ->].
  simpl. apply IH.
Qed.

Lemma integrate_total (f1 f2 : Fighter.t) (cx cy : R) :
  exists p, integrate f1 f2 cx cy = Some p.
Proof.
  unfold integrate.
  destruct (applyGravity_total f1 cx cy GRAVITY_STRENGTH) as [f1' ->].
  destruct (applyGravity_total f2 cx cy GRAVITY_STRENGTH) as [f2' ->].
  simpl. eauto.
Qed.

Lemma contactPhase_total (f1 f2 : Fighter.t) (dist minDist : R)
  (balls sq bh : bool) (rnd : Rnd) :
  exists p, contactPhase f1 f2 dist minDist balls sq bh rnd = Some p.
Proof.
  unfold contactPhase.
  destruct (ltb dist minDist && gtb dist 0) eqn:Hd.
  - apply andb_true_iff in Hd as [_ Hd]. apply gtb_true in Hd.
    destruct (bodyDamage f1 f2 _) as [[g1 g2] logD].
    destruct (separate_total g1 g2 dist minDist rnd) as [[h1 h2] ->]; [lra|].
    simpl. eauto.
  - destruct (sq || bh); eauto.
Qed.

Lemma contactPhase_skip (f1 f2 : Fighter.t) (minDist : R)
  (balls sq bh : bool) (rnd : Rnd) :
  contactPhase f1 f2 0 minDist balls sq bh rnd
  = Some (f1, f2, sq || bh, []).
Proof.
  unfold contactPhase.
  replace (gtb 0 0) with false by (symmetry; apply gtb_false; lra).
  rewrite andb_false_r. now destruct (sq || bh).
Qed.

Lemma updatePhysics_total (a : Arena) (rnd : Rnd) :
  exists a' log, updatePhysics a rnd = Some (a', log).
Proof.
  unfold updatePhysics.
  destruct (fighter1 a) as [f1|]; [|eauto].
  destruct (fighter2 a) as [f2|]; [|eauto].
  destruct (integrate_total f1 f2 (centerX a) (centerY a)) as [[g1 g2] ->].
  simpl.
  destruct (hitPhase g1 g2 _) as [[[[h1 h2] sq] bh] logH].
  destruct (contactPhase_total h1 h2 (Fighter.getDistanceTo g1 g2)
              (Fighter.radius g1 + Fighter.radius g2)
              (ballsInCollision a) sq bh rnd) as [[[[k1 k2] b] logD] ->].
  simpl.
  destruct (wallPhase_total (walls a) k1 k2) as [[w1 w2] ->].
  simpl. eauto.
Qed.

(** C9.  Gravity, the fighter-wall response and the fighter-fighter response
    all test [dist > 0] before they divide by [dist]: none of them, and no
    tick, ever divides by zero (they always return a result), and when the
    distance is exactly zero the force or response is skipped (the fighters
    are returned unchanged). *)
Theorem zero_distance_guards :
  (forall f cx cy g,
      exists f', Fighter.applyGravity f cx cy g = Some f' /\
        (sqrt ((cx - Fighter.x f) * (cx - Fighter.x f)
               + (cy - Fighter.y f) * (cy - Fighter.y f)) = 0 -> f' = f)) /\
  (forall f w,
      exists f', checkCollisionWithWall f w = Some f' /\
        (sqrt ((Fighter.x f - Wall.x w) * (Fighter.x f - Wall.x w)
               + (Fighter.y f - Wall.y w) * (Fighter.y f - Wall.y w)) = 0 ->
         f' = f)) /\
  (forall f1 f2 balls sq bh rnd,
      exists f1' f2' balls' log,
        contactPhase f1 f2 (Fighter.getDistanceTo f1 f2)
          (Fighter.radius f1 + Fighter.radius f2) balls sq bh rnd
        = Some (f1', f2', balls', log) /\
        (Fighter.getDistanceTo f1 f2 = 0 ->
         f1' = f1 /\ f2' = f2 /\ log = [])) /\
  (forall a rnd, exists a' log, updatePhysics a rnd = Some (a', log)).
Proof.
  repeat split.
  - intros f cx cy g.
    destruct (applyGravity_total f cx cy g) as [f' Hf]. exists f'. split; trivial.
    intros Hz. rewrite (applyGravity_skip _ _ _ _ Hz) in Hf. congruence.
  - intros f w.
    destruct (checkCollisionWithWall_total f w) as [f' Hf]. exists f'.
    split; trivial.
    intros Hz. rewrite (checkCollisionWithWall_skip _ _ Hz) in Hf. congruence.
  - intros f1 f2 balls sq bh rnd.
    destruct (contactPhase_total f1 f2 (Fighter.getDistanceTo f1 f2)
                (Fighter.radius f1 + Fighter.radius f2) balls sq bh rnd)
      as [[[[g1 g2] b] log] Hc].
    exists g1, g2, b, log. split; trivial.
    intros Hz. rewrite Hz, contactPhase_skip in Hc.
    inversion Hc; subst. auto.
  - apply updatePhysics_total.
Qed.

(** ** Health stays within [0, maxHp] *)

Lemma Math_floor_nonneg (v : R) : 0 <= v -> 0 <= Math_floor v.
Proof.
  intros Hv. unfold Math_floor. apply IZR_le.
  apply Zfloor_lub. simpl. exact Hv.
Qed.

Lemma Math_floor_int (z : Z) (v : R) : v = IZR z -> Math_floor v = IZR z.
Proof. intros ->. unfold Math_floor. now rewrite ZfloorZ. Qed.

Lemma clamp_low (h m d : R) : 0 <= h <= m -> 0 <= d -> 0 <= Rmax 0 (h - d) <= m.
Proof.
  intros Hh Hd. unfold Rmax. destruct (Rle_dec 0 (h - d)); lra.
Qed.

Lemma created_hpInRange (type : FighterType) (x y : R) (name color : string) :
  hpInRange (createFighter type x y name color).
Proof. unfold hpInRange; destruct type; simpl; lra. Qed.

Lemma Fighter_takeDamage_range (f : Fighter.t) (d : R) :
  hpInRange f -> 0 <= d -> hpInRange (Fighter.takeDamage f d).
Proof. unfold hpInRange; simpl. apply clamp_low. Qed.

Lemma Heavy_takeDamage_range (f : Fighter.t) (h : HeavyState) (d : R) :
  hpInRange f -> 0 <= d -> hpInRange (HeavyFighter.takeDamage f h d).
Proof.
  unfold hpInRange, HeavyFighter.takeDamage. intros Hf Hd.
  destruct (hasShield h); simpl; apply clamp_low; trivial.
  apply Math_floor_nonneg. lra.
Qed.

Lemma takeDamage_range (f : Fighter.t) (d : R) :
  hpInRange f -> 0 <= d -> hpInRange (takeDamage f d).
Proof.
  unfold takeDamage. destruct (Fighter.variant f).
  - apply Fighter_takeDamage_range.
  - apply Heavy_takeDamage_range.
  - apply Fighter_takeDamage_range.
Qed.

Lemma passiveAbility_range (f : Fighter.t) (cx cy : R) :
  hpInRange f -> hpInRange (passiveAbility f cx cy).
Proof.
  unfold hpInRange, passiveAbility. intros Hf.
  destruct (Fighter.variant f) as [tm|h|a].
  - unfold BaseFighter.passiveAbility.
    destruct (_ && _ && _); simpl; trivial.
    unfold Rmin. destruct (Rle_dec _ _); lra.
  - unfold HeavyFighter.passiveAbility.
    destruct (Fighter.isInCenterZone f cx cy); [destruct (_ && _)|]; simpl; trivial.
  - simpl. trivial.
Qed.

Lemma applyGravity_hp (f f' : Fighter.t) (cx cy g : R) :
  Fighter.applyGravity f cx cy g = Some f' ->
  Fighter.hp f' = Fighter.hp f /\ Fighter.maxHp f' = Fighter.maxHp f.
Proof.
  unfold Fighter.applyGravity. destruct (gtb _ 0) eqn:Hd.
  - apply gtb_true in Hd. rewrite !div_ok by lra. simpl.
    intros [= <-]. simpl. auto.
  - intros [= <-]. auto.
Qed.

Lemma checkCollisionWithWall_hp (f f' : Fighter.t) (w : Wall.t) :
  checkCollisionWithWall f w = Some f' ->
  Fighter.hp f' = Fighter.hp f /\ Fighter.maxHp f' = Fighter.maxHp f.
Proof.
  unfold checkCollisionWithWall.
  destruct (ltb _ _ && gtb _ 0) eqn:Hd.
  - apply andb_true_iff in Hd as [_ Hd]. apply gtb_true in Hd.
    rewrite !div_ok by lra. simpl.
    destruct (ltb _ 0); intros [= <-]; simpl; auto.
  - intros [= <-]. auto.
Qed.

Lemma useSpecialAbility_hp (f f' : Fighter.t) (cx cy : R) :
  useSpecialAbility f cx cy = Some f' ->
  Fighter.hp f' = Fighter.hp f /\ Fighter.maxHp f' = Fighter.maxHp f.
Proof.
  unfold useSpecialAbility. destruct (Fighter.variant f) as [tm|h|a].
  - unfold BaseFighter.useSpecialAbility. destruct (gtb _ 200) eqn:Hd.
    + apply gtb_true in Hd. rewrite !div_ok by lra. simpl.
      intros [= <-]. simpl. auto.
    + intros [= <-]. auto.
  - unfold HeavyFighter.useSpecialAbility.
    destruct (ltb _ 100 && gtb _ 0) eqn:Hd.
    + apply andb_true_iff in Hd as [_ Hd]. apply gtb_true in Hd.
      rewrite !div_ok by lra. simpl. intros [= <-]. simpl. auto.
    + intros [= <-]. auto.
  - intros [= <-]. simpl. auto.
Qed.

Lemma useSpecialAbility_total (f : Fighter.t) (cx cy : R) :
  exists f', useSpecialAbility f cx cy = Some f'.
Proof.
  unfold useSpecialAbility. destruct (Fighter.variant f) as [tm|h|a].
  - unfold BaseFighter.useSpecialAbility. destruct (gtb _ 200) eqn:Hd; [|eauto].
    apply gtb_true in Hd. rewrite !div_ok by lra. simpl. eauto.
  - unfold HeavyFighter.useSpecialAbility.
    destruct (ltb _ 100 && gtb _ 0) eqn:Hd; [|eauto].
    apply andb_true_iff in Hd as [_ Hd]. apply gtb_true in Hd.
    rewrite !div_ok by lra. simpl. eauto.
  - eauto.
Qed.

Lemma applyOp_range (f : Fighter.t) (o : Op) :
  hpInRange f -> damageOk o ->
  exists f', applyOp f o = Some f' /\ hpInRange f'.
Proof.
  intros Hf Ho. destruct o as [cx cy g|d| |cx cy|cx cy|d| |wall]; simpl in *.
  - destruct (applyGravity_total f cx cy g) as [f' Hf'].
    exists f'. split; trivial.
    apply applyGravity_hp in Hf' as [H1 H2]. unfold hpInRange. now rewrite H1, H2.
  - eexists; split; [reflexivity|exact Hf].
  - eexists; split; [reflexivity|exact Hf].
  - eexists; split; [reflexivity|now apply passiveAbility_range].
  - destruct (useSpecialAbility_total f cx cy) as [f' Hf'].
    exists f'. split; trivial.
    apply useSpecialAbility_hp in Hf' as [H1 H2]. unfold hpInRange. now rewrite H1, H2.
  - eexists; split; [reflexivity|now apply takeDamage_range].
  - eexists; split; [reflexivity|exact Hf].
  - destruct (checkCollisionWithWall_total f wall) as [f' Hf'].
    exists f'. split; trivial.
    apply checkCollisionWithWall_hp in Hf' as [H1 H2]. unfold hpInRange. now rewrite H1, H2.
Qed.

(** C1.  From a fighter whose hp is within [0, maxHp] (every created fighter
    is, see [created_hpInRange]; for whole games see [game_hp_in_range]
    below), every sequence of operations (gravity,
    damping, position update, passive ability, special ability, damage
    intake, strength gain, wall collision) in which the damage passed to
    [takeDamage] is never negative runs to completion and leaves
    [0 <= hp <= maxHp]. *)
Theorem hp_always_in_range (f : Fighter.t) (ops : list Op) :
  hpInRange f ->
  Forall damageOk ops ->
  exists f', runOps ops f = Some f' /\ hpInRange f'.
Proof.
  intros Hf Hops. revert f Hf.
  induction Hops as [|o ops Ho _ IH]; intros f Hf; simpl.
  - eauto.
  - destruct (applyOp_range f o Hf Ho) as [f1 [-> H1]]. simpl. now apply IH.
Qed.

(** ** What a tick leaves alone *)

Lemma stable_refl (f : Fighter.t) : stable f f.
Proof. now unfold stable. Qed.

Lemma stable_trans (f g h : Fighter.t) : stable f g -> stable g h -> stable f h.
Proof. unfold stable. intros (->&->&->&->) (->&->&->&->). auto. Qed.

Lemma applyGravity_stable (f f' : Fighter.t) (cx cy g : R) :
  Fighter.applyGravity f cx cy g = Some f' -> stable f f'.
Proof.
  unfold Fighter.applyGravity. destruct (gtb _ 0) eqn:Hd.
  - apply gtb_true in Hd. rewrite !div_ok by lra. simpl.
    intros [= <-]. now unfold stable.
  - intros [= <-]. apply stable_refl.
Qed.

Lemma passiveAbility_stable (f : Fighter.t) (cx cy : R) :
  stable f (passiveAbility f cx cy).
Proof.
  unfold passiveAbility. destruct (Fighter.variant f) as [tm|h|a].
  - unfold BaseFighter.passiveAbility. destruct (_ && _ && _); now unfold stable.
  - unfold HeavyFighter.passiveAbility.
    destruct (Fighter.isInCenterZone f cx cy); [destruct (_ && _)|];
      now unfold stable.
  - now unfold stable.
Qed.

Lemma takeDamage_stable (f : Fighter.t) (d : R) : stable f (takeDamage f d).
Proof.
  unfold takeDamage. destruct (Fighter.variant f) as [tm|h|a]; try now unfold stable.
  unfold HeavyFighter.takeDamage. destruct (hasShield h); now unfold stable.
Qed.

Lemma checkCollisionWithWall_stable (f f' : Fighter.t) (w : Wall.t) :
  checkCollisionWithWall f w = Some f' -> stable f f'.
Proof.
  unfold checkCollisionWithWall.
  destruct (ltb _ _ && gtb _ 0) eqn:Hd.
  - apply andb_true_iff in Hd as [_ Hd]. apply gtb_true in Hd.
    rewrite !div_ok by lra. simpl.
    destruct (ltb _ 0); intros [= <-]; now unfold stable.
  - intros [= <-]. apply stable_refl.
Qed.

Lemma integrate_stable (f1 f2 g1 g2 : Fighter.t) (cx cy : R) :
  integrate f1 f2 cx cy = Some (g1, g2) -> stable f1 g1 /\ stable f2 g2.
Proof.
  unfold integrate.
  destruct (Fighter.applyGravity f1 _ _ _) as [e1|] eqn:H1; [|discriminate].
  destruct (Fighter.applyGravity f2 _ _ _) as [e2|] eqn:H2; [|discriminate].
  simpl. intros [= <- <-].
  apply applyGravity_stable in H1, H2.
  split; (eapply stable_trans; [eassumption|]);
    (eapply stable_trans; [|apply passiveAbility_stable]); now unfold stable.
Qed.

Lemma integrate_range (f1 f2 g1 g2 : Fighter.t) (cx cy : R) :
  integrate f1 f2 cx cy = Some (g1, g2) ->
  hpInRange f1 -> hpInRange f2 -> hpInRange g1 /\ hpInRange g2.
Proof.
  unfold integrate.
  destruct (Fighter.applyGravity f1 _ _ _) as [e1|] eqn:H1; [|discriminate].
  destruct (Fighter.applyGravity f2 _ _ _) as [e2|] eqn:H2; [|discriminate].
  simpl. intros [= <- <-] R1 R2.
  apply applyGravity_hp in H1 as [A1 B1], H2 as [A2 B2].
  split; apply passiveAbility_range; unfold hpInRange in *; simpl; lra.
Qed.

Lemma wallPhase_stable (ws : list Wall.t) (f1 f2 g1 g2 : Fighter.t) :
  wallPhase ws f1 f2 = Some (g1, g2) ->
  (stable f1 g1 /\ stable f2 g2) /\
  (Fighter.hp g1 = Fighter.hp f1 /\ Fighter.hp g2 = Fighter.hp f2).
Proof.
  revert f1 f2; induction ws as [|w ws IH]; intros f1 f2; simpl.
  - intros [= <- <-]. auto using stable_refl.
  - destruct (checkCollisionWithWall f1 w) as [e1|] eqn:H1; [|discriminate].
    destruct (checkCollisionWithWall f2 w) as [e2|] eqn:H2; [|discriminate].
    simpl. intros H. apply IH in H as [[S1 S2] [E1 E2]].
    pose proof (checkCollisionWithWall_stable _ _ _ H1).
    pose proof (checkCollisionWithWall_stable _ _ _ H2).
    apply checkCollisionWithWall_hp in H1 as [A1 _], H2 as [A2 _].
    repeat split; try (eapply stable_trans; eassumption); congruence.
Qed.

Lemma separate_stable (f1 f2 g1 g2 : Fighter.t) (dist minDist : R) (rnd : Rnd) :
  separate f1 f2 dist minDist rnd = Some (g1, g2) ->
  (stable f1 g1 /\ stable f2 g2) /\
  (Fighter.hp g1 = Fighter.hp f1 /\ Fighter.hp g2 = Fighter.hp f2).
Proof.
  unfold separate.
  destruct (div _ dist) as [nx|]; [|discriminate].
  destruct (div _ dist) as [ny|]; [|discriminate].
  simpl. intros [= <- <-]. now unfold stable.
Qed.

(** ** The damage a tick applies *)

Lemma hasCause_app (c : Cause) (l1 l2 : list Hit) :
  hasCause c (l1 ++ l2) <-> hasCause c l1 \/ hasCause c l2.
Proof.
  unfold hasCause. split.
  - intros [h [Hin Hc]]. apply in_app_or in Hin as [Hin|Hin]; eauto.
  - intros [[h [Hin Hc]]|[h [Hin Hc]]]; exists h; split; trivial;
      apply in_or_app; auto.
Qed.

Lemma hasCause_nil (c : Cause) : ~ hasCause c [].
Proof. intros [h [[] _]]. Qed.

Lemma squareStrike_spec (att def d : Fighter.t) (balls hit : bool) (tgt : Side)
  (log : list Hit) :
  squareStrike att def balls tgt = (d, hit, log) ->
  (hit = false /\ d = def /\ log = []) \/
  (hit = true /\ balls = false /\ d = takeDamage def (Fighter.strength att) /\
   log = [mkHit Square tgt (Fighter.strength att)]).
Proof.
  unfold squareStrike. destruct (Fighter.variant att) as [tm|h|a].
  - intros [= <- <- <-]. auto.
  - destruct (HeavyFighter.checkSquareCollisionWithFighter att h def && negb balls)
      eqn:Hc.
    + apply andb_true_iff in Hc as [_ Hb]. apply negb_true_iff in Hb.
      simpl. intros [= <- <- <-]. right. auto.
    + intros [= <- <- <-]. auto.
  - intros [= <- <- <-]. auto.
Qed.

Lemma bulletStrike_spec (att def att' d : Fighter.t) (hit : bool) (tgt : Side)
  (log : list Hit) :
  bulletStrike att def tgt = (att', d, hit, log) ->
  (stable att att' /\ Fighter.hp att' = Fighter.hp att) /\
  ((hit = false /\ d = def /\ log = []) \/
   (hit = true /\ d = takeDamage def (Fighter.strength att) /\
    log = [mkHit Projectile tgt (Fighter.strength att)])).
Proof.
  unfold bulletStrike. destruct (Fighter.variant att) as [tm|h|a].
  - intros [= <- <- <- <-]. auto using stable_refl.
  - intros [= <- <- <- <-]. auto using stable_refl.
  - destruct (ArcherFighter.checkBulletCollision a def) as [a' hit'].
    destruct hit'; simpl; intros [= <- <- <- <-];
      (split; [now unfold stable|]); auto.
Qed.

Lemma hasCause_cons (c : Cause) (h : Hit) (l : list Hit) :
  hasCause c (h :: l) <-> cause h = c \/ hasCause c l.
Proof.
  unfold hasCause. split.
  - intros [h' [[<-|Hin] Hc]]; eauto.
  - intros [Hc|[h' [Hin Hc]]]; [exists h|exists h']; simpl; auto.
Qed.

Ltac solve_hasCause :=
  simpl; repeat rewrite hasCause_cons; simpl; split;
  [ intros Hs; try discriminate Hs; auto
  | intros Hc; repeat (destruct Hc as [Hc|Hc]; try discriminate Hc);
    try reflexivity; exfalso; exact (hasCause_nil _ Hc) ].

(** Everything [hitPhase] does, in one statement. *)
Lemma hitPhase_spec (f1 f2 h1 h2 : Fighter.t) (balls sq bh : bool)
  (log : list Hit) :
  hitPhase f1 f2 balls = (h1, h2, sq, bh, log) ->
  (stable f1 h1 /\ stable f2 h2) /\
  (forall h, In h log ->
     cause h <> Body /\
     amount h = attackerStrength f1 f2 (target h)) /\
  (sq = true <-> hasCause Square log) /\
  (bh = true <-> hasCause Projectile log) /\
  (balls = true -> sq = false) /\
  (0 <= Fighter.strength f1 -> 0 <= Fighter.strength f2 ->
   hpInRange f1 -> hpInRange f2 -> hpInRange h1 /\ hpInRange h2).
Proof.
  unfold hitPhase.
  destruct (squareStrike f1 f2 balls Second) as [[d2 hit12] logS1] eqn:E1.
  destruct (squareStrike d2 f1 balls First) as [[d1 hit21] logS2] eqn:E2.
  destruct (bulletStrike d1 d2 Second) as [[[b1 b2] bhit12] logB1] eqn:E3.
  destruct (bulletStrike b2 b1 First) as [[[c2 c1] bhit21] logB2] eqn:E4.
  intros [= <- <- <- <- <-].
  apply squareStrike_spec in E1, E2.
  apply bulletStrike_spec in E3 as [[Sb1 Hb1] E3], E4 as [[Sc2 Hc2] E4].
  assert (S2 : stable f2 d2).
  { destruct E1 as [(_&->&_)|(_&_&->&_)];
      [apply stable_refl|apply takeDamage_stable]. }
  assert (S1 : stable f1 d1).
  { destruct E2 as [(_&->&_)|(_&_&->&_)];
      [apply stable_refl|apply takeDamage_stable]. }
  assert (T2 : stable d2 b2).
  { destruct E3 as [(_&->&_)|(_&->&_)];
      [apply stable_refl|apply takeDamage_stable]. }
  assert (T1 : stable b1 c1).
  { destruct E4 as [(_&->&_)|(_&->&_)];
      [apply stable_refl|apply takeDamage_stable]. }
  pose proof (stable_trans _ _ _ S1 Sb1) as U1.
  pose proof (stable_trans _ _ _ S2 T2) as U2.
  assert (Ed2 : Fighter.strength d2 = Fighter.strength f2) by apply S2.
  assert (Ed1 : Fighter.strength d1 = Fighter.strength f1) by apply S1.
  assert (Eb2 : Fighter.strength b2 = Fighter.strength f2) by apply U2.
  split; [|split; [|split; [|split; [|split]]]].
  - split; eapply stable_trans; eassumption.
  - intros h Hin.
    repeat (apply in_app_or in Hin as [Hin|Hin]).
    + destruct E1 as [(_&_&->)|(_&_&_&->)]; [easy|].
      destruct Hin as [<-|[]]. simpl. split; [discriminate|reflexivity].
    + destruct E2 as [(_&_&->)|(_&_&_&->)]; [easy|].
      destruct Hin as [<-|[]]. simpl. split; [discriminate|assumption].
    + destruct E3 as [(_&_&->)|(_&_&->)]; [easy|].
      destruct Hin as [<-|[]]. simpl. split; [discriminate|assumption].
    + destruct E4 as [(_&_&->)|(_&_&->)]; [easy|].
      destruct Hin as [<-|[]]. simpl. split; [discriminate|assumption].
  - destruct E1 as [(->&_&->)|(->&_&_&->)], E2 as [(->&_&->)|(->&_&_&->)],
      E3 as [(_&_&->)|(_&_&->)], E4 as [(_&_&->)|(_&_&->)]; solve_hasCause.
  - destruct E1 as [(_&_&->)|(_&_&_&->)], E2 as [(_&_&->)|(_&_&_&->)],
      E3 as [(->&_&->)|(->&_&->)], E4 as [(->&_&->)|(->&_&->)]; solve_hasCause.
  - intros ->.
    destruct E1 as [(->&_)|(_&Hb&_)]; [|discriminate].
    destruct E2 as [(->&_)|(_&Hb&_)]; [|discriminate]. reflexivity.
  - intros P1 P2 R1 R2.
    assert (R2' : hpInRange d2).
    { destruct E1 as [(_&->&_)|(_&_&->&_)]; [assumption|].
      now apply takeDamage_range. }
    assert (R1' : hpInRange d1).
    { destruct E2 as [(_&->&_)|(_&_&->&_)]; [assumption|].
      apply takeDamage_range; [assumption|]. now rewrite Ed2. }
    assert (Rb1 : hpInRange b1).
    { unfold hpInRange in *. destruct Sb1 as (_&->&_). now rewrite Hb1. }
    assert (Rb2 : hpInRange b2).
    { destruct E3 as [(_&->&_)|(_&->&_)]; [assumption|].
      apply takeDamage_range; [assumption|]. now rewrite Ed1. }
    split.
    + destruct E4 as [(_&->&_)|(_&->&_)]; [assumption|].
      apply takeDamage_range; [assumption|]. now rewrite Eb2.
    + unfold hpInRange in *. destruct Sc2 as (_&->&_). now rewrite Hc2.
Qed.

Lemma bodyDamage_spec (f1 f2 g1 g2 : Fighter.t) (gate : bool) (log : list Hit) :
  bodyDamage f1 f2 gate = (g1, g2, log) ->
  (stable f1 g1 /\ stable f2 g2) /\
  (gate = false -> log = []) /\
  (forall h, In h log ->
     cause h = Body /\ amount h = attackerStrength f1 f2 (target h)) /\
  (0 <= Fighter.strength f1 -> 0 <= Fighter.strength f2 ->
   hpInRange f1 -> hpInRange f2 -> hpInRange g1 /\ hpInRange g2).
Proof.
  unfold bodyDamage. destruct gate.
  - assert (Es : Fighter.strength (takeDamage f2 (Fighter.strength f1))
                 = Fighter.strength f2) by apply takeDamage_stable.
    assert (Ed : Fighter.dealsBodyDamage (takeDamage f2 (Fighter.strength f1))
                 = Fighter.dealsBodyDamage f2) by apply takeDamage_stable.
    destruct (Fighter.dealsBodyDamage f1) eqn:D1; simpl;
      rewrite ?Ed; destruct (Fighter.dealsBodyDamage f2) eqn:D2; simpl;
      rewrite ?Es; intros [= <- <- <-];
      (split; [split; first [apply takeDamage_stable | apply stable_refl]|]);
      (split; [discriminate|]);
      (split;
       [ intros h Hin; simpl in Hin;
         repeat (destruct Hin as [<-|Hin]; [simpl; auto|]); contradiction
       | intros P1 P2 R1 R2; split;
         first [assumption | now apply takeDamage_range] ]).
  - intros [= <- <- <-].
    split; [split; apply stable_refl|].
    split; [reflexivity|].
    split; [intros h []|auto].
Qed.

Lemma contactPhase_spec (h1 h2 k1 k2 : Fighter.t) (dist minDist : R)
  (balls sq bh b : bool) (rnd : Rnd) (logD : list Hit) :
  contactPhase h1 h2 dist minDist balls sq bh rnd = Some (k1, k2, b, logD) ->
  (stable h1 k1 /\ stable h2 k2) /\
  (b = true <-> (0 < dist < minDist) \/ sq = true \/ bh = true) /\
  (forall h, In h logD ->
     cause h = Body /\ amount h = attackerStrength h1 h2 (target h)) /\
  (logD <> [] ->
     balls = false /\ sq = false /\ bh = false /\ 0 < dist < minDist) /\
  (0 <= Fighter.strength h1 -> 0 <= Fighter.strength h2 ->
   hpInRange h1 -> hpInRange h2 -> hpInRange k1 /\ hpInRange k2).
Proof.
  unfold contactPhase.
  destruct (ltb dist minDist && gtb dist 0) eqn:Hd.
  - apply andb_true_iff in Hd as [Hlt Hgt].
    apply ltb_true in Hlt. apply gtb_true in Hgt.
    destruct (bodyDamage h1 h2 _) as [[g1 g2] logB] eqn:Eb.
    destruct (separate g1 g2 dist minDist rnd) as [[s1 s2]|] eqn:Es;
      [|discriminate].
    simpl. intros [= <- <- <- <-].
    apply bodyDamage_spec in Eb as ((S1&S2)&Hgate&Hlog&Hrange).
    apply separate_stable in Es as ((T1&T2)&(E1&E2)).
    split; [split; eapply stable_trans; eassumption|].
    split; [split; [intros _; left; lra | now destruct (sq || bh)]|].
    split; [exact Hlog|].
    split.
    + intros Hne.
      destruct balls, sq, bh; simpl in Hgate;
        try (exfalso; apply Hne, Hgate; reflexivity).
      auto.
    + intros P1 P2 R1 R2. destruct (Hrange P1 P2 R1 R2) as [Q1 Q2].
      unfold hpInRange in *.
      destruct T1 as (_&->&_), T2 as (_&->&_). rewrite E1, E2. auto.
  - assert (Hn : ~ (0 < dist < minDist)).
    { intros [A B]. apply andb_false_iff in Hd as [Hd|Hd].
      - apply ltb_false in Hd. lra.
      - apply gtb_false in Hd. lra. }
    destruct (sq || bh) eqn:Hs; intros [= <- <- <- <-];
      (split; [split; apply stable_refl|]);
      (split; [|split; [intros h []|split; [intros Hne; now elim Hne|auto]]]).
    + apply orb_true_iff in Hs. tauto.
    + apply orb_false_iff in Hs as [-> ->].
      split; [discriminate|].
      intros [?|[?|?]]; [contradiction|discriminate|discriminate].
Qed.

(** A tick, phase by phase. *)
Lemma updatePhysics_inv (a a' : Arena) (rnd : Rnd) (log : list Hit)
  (f1 f2 : Fighter.t) :
  fighter1 a = Some f1 -> fighter2 a = Some f2 ->
  updatePhysics a rnd = Some (a', log) ->
  exists g1 g2 h1 h2 sq bh logH k1 k2 b logD w1 w2,
    integrate f1 f2 (centerX a) (centerY a) = Some (g1, g2) /\
    hitPhase g1 g2 (ballsInCollision a) = (h1, h2, sq, bh, logH) /\
    contactPhase h1 h2 (Fighter.getDistanceTo g1 g2)
      (Fighter.radius g1 + Fighter.radius g2)
      (ballsInCollision a) sq bh rnd = Some (k1, k2, b, logD) /\
    wallPhase (walls a) k1 k2 = Some (w1, w2) /\
    a' = mkArena (Some w1) (Some w2) b (centerX a) (centerY a) (walls a) /\
    log = logH ++ logD.
Proof.
  intros E1 E2. unfold updatePhysics. rewrite E1, E2.
  destruct (integrate f1 f2 _ _) as [[g1 g2]|] eqn:Hi; [|discriminate].
  simpl.
  destruct (hitPhase g1 g2 _) as [[[[h1 h2] sq] bh] logH] eqn:Hh.
  destruct (contactPhase h1 h2 _ _ _ sq bh rnd) as [[[[k1 k2] b] logD]|] eqn:Hc;
    [|discriminate].
  simpl.
  destruct (wallPhase (walls a) k1 k2) as [[w1 w2]|] eqn:Hw; [|discriminate].
  simpl. intros [= <- <-].
  exists g1, g2, h1, h2, sq, bh, logH, k1, k2, b, logD, w1, w2. auto 10.
Qed.

Lemma contact_integrate (a : Arena) (f1 f2 g1 g2 : Fighter.t) :
  fighter1 a = Some f1 -> fighter2 a = Some f2 ->
  integrate f1 f2 (centerX a) (centerY a) = Some (g1, g2) ->
  contact a
  = Some (Fighter.getDistanceTo g1 g2, Fighter.radius g1 + Fighter.radius g2).
Proof. intros E1 E2 Hi. unfold contact. now rewrite E1, E2, Hi. Qed.

(** What one tick does to the flag, the log and the fighters' statistics. *)
Lemma updatePhysics_spec (a a' : Arena) (rnd : Rnd) (log : list Hit)
  (f1 f2 : Fighter.t) :
  fighter1 a = Some f1 -> fighter2 a = Some f2 ->
  updatePhysics a rnd = Some (a', log) ->
  exists w1 w2 d m,
    contact a = Some (d, m) /\
    (fighter1 a' = Some w1 /\ fighter2 a' = Some w2 /\
     centerX a' = centerX a /\ centerY a' = centerY a /\ walls a' = walls a) /\
    (stable f1 w1 /\ stable f2 w2) /\
    (forall h, In h log -> amount h = attackerStrength f1 f2 (target h)) /\
    (ballsInCollision a' = true <->
     (0 < d < m) \/ hasCause Square log \/ hasCause Projectile log) /\
    (hasCause Body log ->
     ballsInCollision a = false /\ 0 < d < m /\
     ~ hasCause Square log /\ ~ hasCause Projectile log) /\
    (ballsInCollision a = true -> ~ hasCause Square log) /\
    (0 <= Fighter.strength f1 -> 0 <= Fighter.strength f2 ->
     hpInRange f1 -> hpInRange f2 -> hpInRange w1 /\ hpInRange w2).
Proof.
  intros E1 E2 Hu.
  destruct (updatePhysics_inv _ _ _ _ _ _ E1 E2 Hu)
    as (g1&g2&h1&h2&sq&bh&logH&k1&k2&b&logD&w1&w2&Hi&Hh&Hc&Hw&->&->).
  exists w1, w2, (Fighter.getDistanceTo g1 g2),
    (Fighter.radius g1 + Fighter.radius g2).
  pose proof (contact_integrate _ _ _ _ _ E1 E2 Hi) as Hcontact.
  pose proof (integrate_stable _ _ _ _ _ _ Hi) as [Sg1 Sg2].
  apply hitPhase_spec in Hh as ((Sh1&Sh2)&HlogH&Hsq&Hbh&Hballs&HrangeH).
  apply contactPhase_spec in Hc as ((Sk1&Sk2)&Hb&HlogD&Hfire&HrangeD).
  apply wallPhase_stable in Hw as ((Sw1&Sw2)&(Ew1&Ew2)).
  assert (Sgh1 : stable f1 h1) by (eapply stable_trans; eassumption).
  assert (Sgh2 : stable f2 h2) by (eapply stable_trans; eassumption).
  assert (Sgk1 : stable f1 k1) by (eapply stable_trans; eassumption).
  assert (Sgk2 : stable f2 k2) by (eapply stable_trans; eassumption).
  assert (NoBodyH : forall c, c <> Body -> hasCause c (logH ++ logD)
                                <-> hasCause c logH).
  { intros c Hne. rewrite hasCause_app. split; [|auto].
    intros [?|[h [Hin Hcause]]]; trivial.
    apply HlogD in Hin as [Hin _]. congruence. }
  assert (BodyD : hasCause Body (logH ++ logD) -> logD <> []).
  { rewrite hasCause_app. intros [[h [Hin Hcause]]|[h [Hin _]]].
    - apply HlogH in Hin as [Hin _]. contradiction.
    - intros ->. contradiction. }
  split; [exact Hcontact|].
  split; [simpl; auto|].
  split; [split; eapply stable_trans; eassumption|].
  split.
  { intros h Hin. apply in_app_or in Hin as [Hin|Hin].
    - apply HlogH in Hin as [_ ->].
      destruct (target h); simpl; [apply Sg2|apply Sg1].
    - apply HlogD in Hin as [_ ->].
      destruct (target h); simpl; [apply Sgh2|apply Sgh1]. }
  split.
  { simpl. rewrite Hb, Hsq, Hbh, !NoBodyH by discriminate. reflexivity. }
  split.
  { intros Hbody. apply BodyD, Hfire in Hbody as (Hb0&Hs0&Hb1&Hd).
    rewrite !NoBodyH by discriminate.
    split; [assumption|]. split; [assumption|].
    split; intros Hx; [apply Hsq in Hx|apply Hbh in Hx]; congruence. }
  split.
  { intros Ht. rewrite NoBodyH by discriminate. intros Hx.
    apply Hsq in Hx. apply Hballs in Ht. congruence. }
  intros P1 P2 R1 R2.
  destruct (integrate_range _ _ _ _ _ _ Hi R1 R2) as [Rg1 Rg2].
  assert (Pg1 : 0 <= Fighter.strength g1) by (destruct Sg1 as (->&_); trivial).
  assert (Pg2 : 0 <= Fighter.strength g2) by (destruct Sg2 as (->&_); trivial).
  destruct (HrangeH Pg1 Pg2 Rg1 Rg2) as [Rh1 Rh2].
  assert (Ph1 : 0 <= Fighter.strength h1) by (destruct Sgh1 as (->&_); trivial).
  assert (Ph2 : 0 <= Fighter.strength h2) by (destruct Sgh2 as (->&_); trivial).
  destruct (HrangeD Ph1 Ph2 Rh1 Rh2) as [Rk1 Rk2].
  unfold hpInRange in *.
  destruct Sw1 as (_&->&_), Sw2 as (_&->&_). rewrite Ew1, Ew2. auto.
Qed.

(** ** The invariant of a started game *)

Lemma updatePhysics_ok (a a' : Arena) (rnd : Rnd) (log : list Hit) :
  arenaOk a -> updatePhysics a rnd = Some (a', log) -> arenaOk a'.
Proof.
  intros (f1&f2&E1&E2&[R1 P1]&[R2 P2]) Hu.
  destruct (updatePhysics_spec _ _ _ _ _ _ E1 E2 Hu)
    as (w1&w2&d&m&_&(F1&F2&_)&(S1&S2)&_&_&_&_&Hr).
  destruct (Hr P1 P2 R1 R2) as [Q1 Q2].
  exists w1, w2. unfold fighterOk.
  destruct S1 as (->&_), S2 as (->&_). auto.
Qed.

Lemma strengthGainRate_pos (f : Fighter.t) : 0 < Fighter.strengthGainRate f.
Proof. unfold Fighter.strengthGainRate. destruct (Fighter.variant f); lra. Qed.

Lemma checkAndIncreaseStrength_ok (a : Arena) :
  arenaOk a -> arenaOk (checkAndIncreaseStrength a).
Proof.
  intros (f1&f2&E1&E2&[R1 P1]&[R2 P2]).
  unfold checkAndIncreaseStrength. rewrite E1, E2.
  do 2 eexists. split; [reflexivity|]. split; [reflexivity|].
  unfold gainIfInCenter, fighterOk, hpInRange.
  pose proof (strengthGainRate_pos f1). pose proof (strengthGainRate_pos f2).
  destruct (Fighter.isInCenterZone f1 _ _), (Fighter.isInCenterZone f2 _ _);
    simpl; unfold hpInRange in *; repeat split; lra.
Qed.

(** Whatever the frames, the random draws and the timer do to a started
    game, both fighters keep their hp within [0, maxHp]. *)
Lemma play_ok (es : list Event) (a : Arena) :
  arenaOk a -> exists a', play a es = Some a' /\ arenaOk a'.
Proof.
  revert a. induction es as [|e es IH]; intros a Ha; simpl; [eauto|].
  destruct e as [rnd|]; simpl.
  - destruct (updatePhysics_total a rnd) as (a'&log&Hu). rewrite Hu. simpl.
    apply IH. eapply updatePhysics_ok; eassumption.
  - apply IH. now apply checkAndIncreaseStrength_ok.
Qed.

(** [startGame] never fails, whatever the state it is called on, and the
    game it starts satisfies the invariant. *)
Lemma startGame_ok (a : Arena) (t1 t2 : FighterType) (rnd : Rnd) :
  exists a0 log, startGame a t1 t2 rnd = Some (a0, log) /\ arenaOk a0.
Proof.
  unfold startGame.
  assert (H1 : exists o,
            find (fun f => FighterType_eqb (opt_type f) t1) fighterOptions
            = Some o) by (destruct t1; simpl; eauto).
  assert (H2 : exists o,
            find (fun f => FighterType_eqb (opt_type f) t2) fighterOptions
            = Some o) by (destruct t2; simpl; eauto).
  destruct H1 as [o1 ->], H2 as [o2 ->]. cbn [bind].
  match goal with
  | |- exists a0 log, updatePhysics ?b rnd = _ /\ _ =>
      destruct (updatePhysics_total b rnd) as (a0&log&Hu);
      exists a0, log; split; [exact Hu|];
      apply (updatePhysics_ok b a0 rnd log); [|exact Hu]
  end.
  unfold arenaOk. simpl. do 2 eexists.
  split; [reflexivity|]. split; [reflexivity|].
  unfold fighterOk, hpInRange.
  destruct t1, t2; simpl; repeat split; lra.
Qed.

Lemma game_hp_in_range (a : Arena) (t1 t2 : FighterType) (rnd : Rnd)
  (es : list Event) :
  exists a0 log a' f1 f2,
    startGame a t1 t2 rnd = Some (a0, log) /\
    play a0 es = Some a' /\
    fighter1 a' = Some f1 /\ fighter2 a' = Some f2 /\
    hpInRange f1 /\ hpInRange f2.
Proof.
  destruct (startGame_ok a t1 t2 rnd) as (a0&log&Hs&H0).
  destruct (play_ok es a0 H0) as (a'&Hp&f1&f2&E1&E2&[R1 _]&[R2 _]).
  exists a0, log, a', f1, f2. repeat (split; [assumption|]). assumption.
Qed.

(** ** Projectiles *)

(** C2 (amended).  Every projectile hit of a tick applies the archer's
    strength at the moment of impact ([getBulletDamage]), whatever damage the
    bullets carry. *)
Theorem projectile_damage_is_current_strength
  (a a' : Arena) (rnd : Rnd) (log : list Hit) (f1 f2 : Fighter.t) :
  fighter1 a = Some f1 -> fighter2 a = Some f2 ->
  updatePhysics a rnd = Some (a', log) ->
  forall h, In h log -> cause h = Projectile ->
    amount h = attackerStrength f1 f2 (target h).
Proof.
  intros E1 E2 Hu h Hin _.
  destruct (updatePhysics_spec _ _ _ _ _ _ E1 E2 Hu)
    as (w1&w2&d&m&_&_&_&Hlog&_).
  now apply Hlog.
Qed.

(** ** Body damage is edge-triggered *)

Lemma contact_present (a : Arena) (d m : R) :
  contact a = Some (d, m) ->
  exists f1 f2, fighter1 a = Some f1 /\ fighter2 a = Some f2.
Proof.
  unfold contact. destruct (fighter1 a) as [f1|]; [|discriminate].
  destruct (fighter2 a) as [f2|]; [|discriminate]. eauto.
Qed.

Lemma run_cons (a : Arena) (r : Rnd) (rs : list Rnd) (tr : list Step) :
  run a (r :: rs) = Some tr ->
  exists a' log rest,
    updatePhysics a r = Some (a', log) /\ run a' rs = Some rest /\
    tr = mkStep a log a' :: rest.
Proof.
  simpl. destruct (updatePhysics a r) as [[a' log]|]; [|discriminate].
  simpl. destruct (run a' rs) as [rest|] eqn:Hrest; [|discriminate].
  simpl. intros [= <-]. exists a', log, rest. auto.
Qed.

(** The flag after a tick that saw the circles overlap, centres apart. *)
Lemma overlap_sets_flag (a a' : Arena) (rnd : Rnd) (log : list Hit) :
  positiveOverlap a -> updatePhysics a rnd = Some (a', log) ->
  ballsInCollision a' = true.
Proof.
  intros (d&m&Hc&Hd) Hu.
  destruct (contact_present _ _ _ Hc) as (f1&f2&E1&E2).
  destruct (updatePhysics_spec _ _ _ _ _ _ E1 E2 Hu)
    as (w1&w2&d'&m'&Hc'&_&_&_&Hflag&_).
  rewrite Hc in Hc'. injection Hc' as <- <-.
  apply Hflag. now left.
Qed.

(** While the flag is set, a tick applies no body damage. *)
Lemma flag_suppresses (a a' : Arena) (rnd : Rnd) (log : list Hit) :
  ballsInCollision a = true -> updatePhysics a rnd = Some (a', log) ->
  ~ hasCause Body log.
Proof.
  intros Hb Hu Hbody.
  destruct (fighter1 a) as [f1|] eqn:E1;
    [destruct (fighter2 a) as [f2|] eqn:E2|].
  - destruct (updatePhysics_spec _ _ _ _ _ _ E1 E2 Hu)
      as (w1&w2&d&m&_&_&_&_&_&Hfire&_).
    apply Hfire in Hbody as [Hf _]. congruence.
  - unfold updatePhysics in Hu. rewrite E1, E2 in Hu.
    injection Hu as <- <-. now apply hasCause_nil in Hbody.
  - unfold updatePhysics in Hu. rewrite E1 in Hu.
    injection Hu as <- <-. now apply hasCause_nil in Hbody.
Qed.

Lemma run_suppressed (rs : list Rnd) (a : Arena) (tr : list Step) :
  run a rs = Some tr ->
  ballsInCollision a = true ->
  Forall (fun p => positiveOverlap (before p)) tr ->
  forall p, In p tr -> ~ hasCause Body (applied p).
Proof.
  revert a tr. induction rs as [|r rs IH]; intros a tr Hrun Hb Hov p Hin.
  - injection Hrun as <-. contradiction.
  - apply run_cons in Hrun as (a'&log&rest&Hu&Hrest&->).
    inversion Hov as [|? ? Hhead Htail]; subst.
    destruct Hin as [<-|Hin]; simpl.
    + eapply flag_suppresses; eassumption.
    + eapply (IH a' rest); try eassumption.
      eapply overlap_sets_flag; eassumption.
Qed.

Lemma run_steps (rs : list Rnd) (a : Arena) (tr : list Step) :
  run a rs = Some tr ->
  forall p, In p tr ->
    exists rnd, updatePhysics (before p) rnd = Some (after p, applied p).
Proof.
  revert a tr. induction rs as [|r rs IH]; intros a tr Hrun p Hin.
  - injection Hrun as <-. contradiction.
  - apply run_cons in Hrun as (a'&log&rest&Hu&Hrest&->).
    destruct Hin as [<-|Hin]; simpl; eauto.
Qed.

(** While the flag is set the square applies no damage and does not set
    [squareHit], whether it overlaps the opponent or not. *)
Lemma squareStrike_flag_set (attacker defender : Fighter.t) (tgt : Side) :
  squareStrike attacker defender true tgt = (defender, false, []).
Proof.
  unfold squareStrike. destruct (Fighter.variant attacker); trivial.
  now rewrite andb_false_r.
Qed.

(** What the flag does achieve.  In every run of consecutive ticks during
    which the circles overlap with their centres apart
    ([0 < dist < minDist]), body damage is applied on no tick but the first;
    in any tick, a set flag suppresses body damage; and after a tick whose
    distance is positive the flag is reset exactly when the distance is at
    least the sum of the radii and no damage was applied by the square or by
    a projectile.  (The square applies no damage while the flag is set, see
    [squareStrike_flag_set]: a square that overlaps the opponent then does
    not keep the flag from being reset.) *)
Theorem body_damage_edge_triggered (a : Arena) (rs : list Rnd)
  (tr : list Step) :
  run a rs = Some tr ->
  (Forall (fun p => positiveOverlap (before p)) tr ->
   forall p, In p (tl tr) -> ~ hasCause Body (applied p)) /\
  (forall p, In p tr -> ballsInCollision (before p) = true ->
     ~ hasCause Body (applied p)) /\
  (forall p d m, In p tr -> contact (before p) = Some (d, m) -> 0 < d ->
     (ballsInCollision (after p) = false <->
      m <= d /\ ~ hasCause Square (applied p)
      /\ ~ hasCause Projectile (applied p))).
Proof.
  intros Hrun. split; [|split].
  - intros Hov p Hin.
    destruct rs as [|r rs]; [injection Hrun as <-; contradiction|].
    apply run_cons in Hrun as (a'&log&rest&Hu&Hrest&->).
    inversion Hov as [|? ? Hhead Htail]; subst. simpl in Hin.
    eapply run_suppressed; try eassumption.
    eapply overlap_sets_flag; eassumption.
  - intros p Hin Hb.
    destruct (run_steps _ _ _ Hrun p Hin) as [rnd Hu].
    eapply flag_suppresses; eassumption.
  - intros p d m Hin Hc Hd.
    destruct (run_steps _ _ _ Hrun p Hin) as [rnd Hu].
    destruct (contact_present _ _ _ Hc) as (f1&f2&E1&E2).
    destruct (updatePhysics_spec _ _ _ _ _ _ E1 E2 Hu)
      as (w1&w2&d'&m'&Hc'&_&_&_&Hflag&_).
    rewrite Hc in Hc'. injection Hc' as <- <-.
    destruct (ballsInCollision (after p)).
    + split; [discriminate|]. intros (Hm&Hs&Hp).
      destruct (proj1 Hflag eq_refl) as [?|[?|?]]; [lra|contradiction..].
    + split; [|reflexivity]. intros _.
      repeat split.
      * destruct (Rle_dec m d); trivial.
        assert (false = true) by (apply Hflag; left; lra). discriminate.
      * intros Hs. assert (false = true) by (apply Hflag; auto). discriminate.
      * intros Hs. assert (false = true) by (apply Hflag; auto). discriminate.
Qed.

(** ** The archer's cooldown *)

Lemma Archer_passive_variant (f : Fighter.t) (a : ArcherState) (cx cy : R) :
  Fighter.variant f = ArcherV a ->
  passiveAbility f cx cy = ArcherFighter.passiveAbility f a cx cy.
Proof. unfold passiveAbility. now intros ->. Qed.

(** C3 (amended).  A passive tick of an archer whose cooldown is not
    positive emits one bullet along the advanced aim angle and resets the
    cooldown to [shootCooldownMax - strength * 1.5], with no floor: the new
    cooldown is negative exactly when the strength exceeds 20. *)
Theorem archer_cooldown_after_emission (f : Fighter.t) (a : ArcherState)
  (cx cy : R) :
  Fighter.variant f = ArcherV a ->
  shootCooldown a <= 0 ->
  exists a',
    Fighter.variant (passiveAbility f cx cy) = ArcherV a' /\
    shootCooldown a'
    = ArcherFighter.shootCooldownMax - Fighter.strength f * 1.5 /\
    bullets a'
    = filter Bullet.active
        (map (ArcherFighter.moveBullet f)
           (bullets a ++
            [ArcherFighter.newBullet f
               (shootAngle a + ArcherFighter.shootRotationSpeed)])) /\
    (shootCooldown a' < 0 <-> 20 < Fighter.strength f).
Proof.
  intros Hv Hc. rewrite (Archer_passive_variant _ _ _ _ Hv).
  unfold ArcherFighter.passiveAbility. simpl.
  replace (gtb (shootCooldown a) 0) with false
    by (symmetry; apply gtb_false; exact Hc).
  eexists. split; [reflexivity|]. simpl.
  split; [reflexivity|]. split; [reflexivity|].
  unfold ArcherFighter.shootCooldownMax. lra.
Qed.

(** C3, as stated, fails: at strength 22 the cooldown after an emission is
    [-3], which no positive floor allows. *)
Lemma archer_cooldown_negative :
  exists a',
    Fighter.variant (passiveAbility archer22 0 0) = ArcherV a' /\
    shootCooldown a' = -3 /\
    forall cooldownFloor, 0 < cooldownFloor ->
      shootCooldown a'
      <> Rmax cooldownFloor
           (ArcherFighter.shootCooldownMax - Fighter.strength archer22 * 1.5).
Proof.
  unfold passiveAbility, archer22, ArcherFighter.passiveAbility. simpl.
  replace (gtb 0 0) with false by (symmetry; apply gtb_false; lra).
  eexists. split; [reflexivity|]. simpl.
  unfold ArcherFighter.shootCooldownMax.
  split; [lra|].
  intros fl Hfl. unfold Rmax. destruct (Rle_dec _ _); lra.
Qed.

(** ** The heavy fighter's shield *)

(** C4 (amended).  One passive tick in the centre zone at charge 179 arms
    the shield and resets the charge; the next [takeDamage(10)] brings hp to
    [max(0, hp - 5)], which is a loss of exactly 5 when hp was at least 5,
    disarms the shield and leaves the charge at 0. *)
Theorem heavy_shield_scenario (f : Fighter.t) (h : HeavyState) (cx cy : R) :
  Fighter.variant f = HeavyV h ->
  shieldCharge h = 179%nat ->
  hasShield h = false ->
  Fighter.isInCenterZone f cx cy = true ->
  let armed := passiveAbility f cx cy in
  let hurt := takeDamage armed 10 in
  Fighter.variant armed
  = HeavyV (mkHeavy (squareRotation h + HeavyFighter.squareRotationSpeed)
              0 true) /\
  Fighter.hp armed = Fighter.hp f /\
  Fighter.hp hurt = Rmax 0 (Fighter.hp f - 5) /\
  (5 <= Fighter.hp f -> Fighter.hp hurt = Fighter.hp f - 5) /\
  Fighter.variant hurt
  = HeavyV (mkHeavy (squareRotation h + HeavyFighter.squareRotationSpeed)
              0 false).
Proof.
  intros Hv Hc Hs Hz.
  assert (Hfl : Math_floor (10 * 0.5) = 5)
    by (apply (Math_floor_int 5); lra).
  unfold passiveAbility, takeDamage. rewrite Hv.
  unfold HeavyFighter.passiveAbility. rewrite Hz, Hc, Hs. simpl.
  unfold HeavyFighter.takeDamage. simpl. rewrite Hfl.
  repeat split.
  intros H5. unfold Rmax. destruct (Rle_dec _ _); lra.
Qed.

Lemma center_zone_at_center (f : Fighter.t) :
  0 < Fighter.radius f ->
  Fighter.isInCenterZone f (Fighter.x f) (Fighter.y f) = true.
Proof.
  intros Hr. unfold Fighter.isInCenterZone. apply ltb_true.
  replace ((Fighter.x f - Fighter.x f) * (Fighter.x f - Fighter.x f)
           + (Fighter.y f - Fighter.y f) * (Fighter.y f - Fighter.y f))
    with 0 by ring.
  now rewrite sqrt_0.
Qed.

(** C4, as stated, fails: with 3 hp left the shielded hit of 10 takes 3 hp,
    not 5. *)
Lemma heavy_shield_low_hp :
  let armed := passiveAbility (heavy179 3) 0 0 in
  let hurt := takeDamage armed 10 in
  Fighter.isInCenterZone (heavy179 3) 0 0 = true /\
  Fighter.variant armed = HeavyV (mkHeavy (0 + 0.05) 0 true) /\
  Fighter.hp hurt = 0 /\
  Fighter.hp (heavy179 3) - Fighter.hp hurt <> 5.
Proof.
  assert (Hz : Fighter.isInCenterZone (heavy179 3) 0 0 = true)
    by (apply (center_zone_at_center (heavy179 3)); simpl; lra).
  assert (Hfl : Math_floor (10 * 0.5) = 5)
    by (apply (Math_floor_int 5); lra).
  unfold passiveAbility, takeDamage. simpl.
  unfold HeavyFighter.passiveAbility. rewrite Hz. simpl.
  unfold HeavyFighter.takeDamage. simpl. rewrite Hfl.
  assert (Hm : Rmax 0 (3 - 5) = 0)
    by (unfold Rmax; destruct (Rle_dec _ _); lra).
  rewrite Hm. repeat split. lra.
Qed.

(** C10.  [takeDamage] on a fighter whose hp is 0 leaves hp at 0 for every
    damage that is not negative; on a heavy fighter whose shield is armed it
    still consumes the shield: the flag is cleared and the charge reset. *)
Theorem takeDamage_at_zero_hp (f : Fighter.t) (d : R) :
  0 <= d ->
  Fighter.hp f = 0 ->
  Fighter.hp (takeDamage f d) = 0 /\
  (forall h, Fighter.variant f = HeavyV h -> hasShield h = true ->
     Fighter.variant (takeDamage f d)
     = HeavyV (mkHeavy (squareRotation h) 0 false)).
Proof.
  intros Hd H0.
  assert (Hm : forall v, 0 <= v -> Rmax 0 (0 - v) = 0)
    by (intros v Hv; unfold Rmax; destruct (Rle_dec _ _); lra).
  unfold takeDamage. destruct (Fighter.variant f) as [tm|h|a] eqn:Hv.
  - simpl. rewrite H0. split; [now apply Hm|discriminate].
  - unfold HeavyFighter.takeDamage. destruct (hasShield h) eqn:Hs; simpl.
    + rewrite H0. split.
      * apply Hm, Math_floor_nonneg. lra.
      * intros h' [= <-] _. reflexivity.
    + rewrite H0. split; [now apply Hm|].
      intros h' [= <-] Hs'. congruence.
  - simpl. rewrite H0. split; [now apply Hm|discriminate].
Qed.

(** ** The base fighter's regeneration *)

(** C5.  For a base fighter (maxHp 100), [passiveAbility] leaves hp alone
    while hp is at least half of maxHp or hp is 0, and while the advanced
    timer is below 120; once hp is below half of maxHp and not 0, a tick on
    which the advanced timer has reached 120 restores exactly 1 hp and
    resets the timer to 0; the hp after a tick never exceeds maxHp if it did
    not before. *)
Theorem base_regeneration (f : Fighter.t) (tm : nat) (cx cy : R) :
  Fighter.variant f = BaseV tm ->
  Fighter.maxHp f = 100 ->
  let f' := passiveAbility f cx cy in
  (Fighter.maxHp f * 0.5 <= Fighter.hp f \/ Fighter.hp f = 0 ->
   Fighter.hp f' = Fighter.hp f /\ Fighter.variant f' = BaseV (S tm)) /\
  (Fighter.hp f < Fighter.maxHp f * 0.5 -> Fighter.hp f <> 0 ->
   (120 <= S tm)%nat ->
   Fighter.hp f' = Fighter.hp f + 1 /\ Fighter.variant f' = BaseV 0) /\
  ((S tm < 120)%nat ->
   Fighter.hp f' = Fighter.hp f /\ Fighter.variant f' = BaseV (S tm)) /\
  (Fighter.hp f <= Fighter.maxHp f -> Fighter.hp f' <= Fighter.maxHp f') /\
  Fighter.maxHp f' = Fighter.maxHp f.
Proof.
  intros Hv Hm. unfold passiveAbility. rewrite Hv.
  unfold BaseFighter.passiveAbility. rewrite Hm.
  destruct (ltb (Fighter.hp f) (100 * 0.5)) eqn:Hlt;
    [apply ltb_true in Hlt|apply ltb_false in Hlt];
    (destruct (120 <=? S tm)%nat eqn:Ht;
     [apply Nat.leb_le in Ht|apply Nat.leb_gt in Ht]);
    (destruct (eqb (Fighter.hp f) 0) eqn:He;
     [apply eqb_true in He|apply eqb_false in He]);
    simpl; rewrite ?Hm;
    try (replace (Rmin 100 (Fighter.hp f + 1)) with (Fighter.hp f + 1)
          by (unfold Rmin; destruct (Rle_dec _ _); lra));
    repeat split; intros; try lra; try lia; try tauto.
Qed.

(** ** Wall collision *)

(** C7 (amended).  When a fighter's circle overlaps a wall's circle and the
    centres are apart ([0 < dist < minDist]), the resolution moves the
    fighter along the wall-to-fighter normal [(nx, ny)] by exactly the
    overlap [minDist - dist].  When the fighter moves into the wall
    ([dot < 0]) its velocity loses [WALL_COLLISION_DAMPING] times its normal
    component: the normal component becomes
    [dot * (1 - WALL_COLLISION_DAMPING)], still directed into the wall, and
    the tangential component is kept.  Otherwise the velocity is
    unchanged. *)
Theorem wall_collision_resolution (f : Fighter.t) (w : Wall.t) :
  let dx := Fighter.x f - Wall.x w in
  let dy := Fighter.y f - Wall.y w in
  let dist := sqrt (dx * dx + dy * dy) in
  let minDist := Fighter.radius f + Wall.radius w in
  let nx := dx / dist in
  let ny := dy / dist in
  let dot := Fighter.vx f * nx + Fighter.vy f * ny in
  0 < dist < minDist ->
  exists f',
    checkCollisionWithWall f w = Some f' /\
    Fighter.x f' = Fighter.x f + nx * (minDist - dist) /\
    Fighter.y f' = Fighter.y f + ny * (minDist - dist) /\
    sqrt ((Fighter.x f' - Fighter.x f) * (Fighter.x f' - Fighter.x f)
          + (Fighter.y f' - Fighter.y f) * (Fighter.y f' - Fighter.y f))
    = minDist - dist /\
    (dot < 0 ->
     Fighter.vx f' = Fighter.vx f - nx * dot * WALL_COLLISION_DAMPING /\
     Fighter.vy f' = Fighter.vy f - ny * dot * WALL_COLLISION_DAMPING /\
     Fighter.vx f' * nx + Fighter.vy f' * ny
     = dot * (1 - WALL_COLLISION_DAMPING) /\
     Fighter.vy f' * nx - Fighter.vx f' * ny
     = Fighter.vy f * nx - Fighter.vx f * ny) /\
    (0 <= dot ->
     Fighter.vx f' = Fighter.vx f /\ Fighter.vy f' = Fighter.vy f).
Proof.
  intros dx dy dist minDist nx ny dot [Hpos Hlt].
  assert (Hunit : nx * nx + ny * ny = 1).
  { unfold nx, ny. pose proof (norm_sq dx dy) as Hsq. fold dist in Hsq.
    replace (dx / dist * (dx / dist) + dy / dist * (dy / dist))
      with ((dx * dx + dy * dy) / (dist * dist)) by (field; lra).
    rewrite <- Hsq. field. lra. }
  assert (Hmove :
    sqrt ((Fighter.x f + nx * (minDist - dist) - Fighter.x f)
          * (Fighter.x f + nx * (minDist - dist) - Fighter.x f)
          + (Fighter.y f + ny * (minDist - dist) - Fighter.y f)
            * (Fighter.y f + ny * (minDist - dist) - Fighter.y f))
    = minDist - dist).
  { replace (Fighter.x f + nx * (minDist - dist) - Fighter.x f)
      with ((minDist - dist) * nx) by ring.
    replace (Fighter.y f + ny * (minDist - dist) - Fighter.y f)
      with ((minDist - dist) * ny) by ring.
    rewrite norm_scale by lra. rewrite Hunit, sqrt_1. ring. }
  unfold checkCollisionWithWall. fold dx dy dist minDist.
  replace (ltb dist minDist) with true by (symmetry; now apply ltb_true).
  replace (gtb dist 0) with true by (symmetry; now apply gtb_true).
  rewrite !div_ok by lra. simpl. fold nx ny dot.
  destruct (ltb dot 0) eqn:Hd;
    [apply ltb_true in Hd|apply ltb_false in Hd];
    eexists; (split; [reflexivity|]); simpl;
    (split; [reflexivity|]); (split; [reflexivity|]);
    (split; [exact Hmove|]); split; intros; try lra; auto.
  split; [reflexivity|]. split; [reflexivity|]. split.
  - transitivity (dot - dot * WALL_COLLISION_DAMPING * (nx * nx + ny * ny));
      [unfold dot; ring|rewrite Hunit; ring].
  - ring.
Qed.

(** A fighter whose centre is on the wall's centre overlaps the wall, and
    the resolution leaves it where it is. *)
Lemma wall_collision_skipped_on_center :
  checkCollisionWithWall baseOnWall topWall = Some baseOnWall /\
  sqrt ((Fighter.x baseOnWall - Wall.x topWall)
        * (Fighter.x baseOnWall - Wall.x topWall)
        + (Fighter.y baseOnWall - Wall.y topWall)
          * (Fighter.y baseOnWall - Wall.y topWall))
  < Fighter.radius baseOnWall + Wall.radius topWall.
Proof.
  assert (Hz : sqrt ((Fighter.x baseOnWall - Wall.x topWall)
                     * (Fighter.x baseOnWall - Wall.x topWall)
                     + (Fighter.y baseOnWall - Wall.y topWall)
                       * (Fighter.y baseOnWall - Wall.y topWall)) = 0).
  { simpl. replace ((0 - 0) * (0 - 0) + (-400 - -400) * (-400 - -400))
      with 0 by ring. apply sqrt_0. }
  split.
  - now apply checkCollisionWithWall_skip.
  - rewrite Hz. simpl. unfold WALL_RADIUS. lra.
Qed.

(** ** Bullet velocity *)

(** C8, at a fresh archer (strength 3, at rest) shooting at 45 degrees: the
    bullet's horizontal speed is scaled by [1 + 3 * 0.24] and its vertical
    speed by [1 + 3 * 0.25]; no single multiplier gives both components. *)
Theorem bullet_velocity_two_multipliers :
  let b := ArcherFighter.newBullet archer3 (PI / 4) in
  Bullet.vx b = cos (PI / 4) * ArcherFighter.bulletSpeed * 1.72 /\
  Bullet.vy b = sin (PI / 4) * ArcherFighter.bulletSpeed * 1.75 /\
  ~ exists m,
      Bullet.vx b
      = cos (PI / 4) * ArcherFighter.bulletSpeed * m + Fighter.vx archer3 /\
      Bullet.vy b
      = sin (PI / 4) * ArcherFighter.bulletSpeed * m + Fighter.vy archer3.
Proof.
  assert (Hc : 0 < cos (PI / 4)).
  { rewrite cos_PI4. apply Rdiv_lt_0_compat; [lra|].
    apply sqrt_lt_R0. lra. }
  simpl. rewrite sin_cos_PI4. unfold ArcherFighter.bulletSpeed.
  split; [lra|]. split; [lra|].
  intros [m [H1 H2]]. nra.
Qed.

(** * Concrete ticks *)

(** ** Tools to evaluate the model at given numbers *)

Lemma sqrt_lt_bound (e c : R) : 0 <= e -> 0 < c -> e < c * c -> sqrt e < c.
Proof.
  intros He Hc Hlt. rewrite <- (sqrt_square c) by lra.
  apply sqrt_lt_1_alt. lra.
Qed.

Lemma sqrt_le_bound (e c : R) : 0 <= c -> e <= c * c -> sqrt e <= c.
Proof.
  intros Hc Hle. rewrite <- (sqrt_square c) by lra.
  now apply sqrt_le_1_alt.
Qed.

Lemma sqrt_ge_bound (e c : R) : 0 <= c -> c * c <= e -> c <= sqrt e.
Proof.
  intros Hc He. rewrite <- (sqrt_square c Hc). now apply sqrt_le_1_alt.
Qed.

Lemma sqrt_gt_bound (e c : R) : 0 <= c -> c * c < e -> c < sqrt e.
Proof.
  intros Hc He. rewrite <- (sqrt_square c Hc). apply sqrt_lt_1_alt. nra.
Qed.

Lemma checkCollisionWithWall_far (f : Fighter.t) (w : Wall.t) :
  farFrom f w -> checkCollisionWithWall f w = Some f.
Proof.
  intros [H0 H]. unfold checkCollisionWithWall.
  replace (ltb _ (Fighter.radius f + Wall.radius w)) with false.
  - reflexivity.
  - symmetry. apply ltb_false. now apply sqrt_ge_bound.
Qed.

Lemma wallPhase_far (ws : list Wall.t) (f1 f2 : Fighter.t) :
  Forall (fun w => farFrom f1 w /\ farFrom f2 w) ws ->
  wallPhase ws f1 f2 = Some (f1, f2).
Proof.
  induction 1 as [|w ws [F1 F2] _ IH]; simpl; trivial.
  rewrite !checkCollisionWithWall_far by assumption. simpl. exact IH.
Qed.

(** A tick assembled from its four phases. *)
Lemma updatePhysics_phases (a : Arena) (rnd : Rnd)
  (f1 f2 g1 g2 h1 h2 k1 k2 w1 w2 : Fighter.t) (sq bh b : bool)
  (logH logD : list Hit) :
  fighter1 a = Some f1 -> fighter2 a = Some f2 ->
  integrate f1 f2 (centerX a) (centerY a) = Some (g1, g2) ->
  hitPhase g1 g2 (ballsInCollision a) = (h1, h2, sq, bh, logH) ->
  contactPhase h1 h2 (Fighter.getDistanceTo g1 g2)
    (Fighter.radius g1 + Fighter.radius g2)
    (ballsInCollision a) sq bh rnd = Some (k1, k2, b, logD) ->
  wallPhase (walls a) k1 k2 = Some (w1, w2) ->
  updatePhysics a rnd
  = Some (mkArena (Some w1) (Some w2) b (centerX a) (centerY a) (walls a),
          logH ++ logD).
Proof.
  intros E1 E2 Hi Hh Hc Hw. unfold updatePhysics.
  rewrite E1, E2, Hi. simpl. rewrite Hh, Hc. simpl. now rewrite Hw.
Qed.

(** Unfold records, setters and constants, and nothing of the reals. *)
Ltac fcbv :=
  cbv beta iota zeta delta
    [Fighter.with_variant Fighter.with_pos Fighter.with_vel Fighter.with_hp
     Fighter.with_strength Fighter.updatePosition Fighter.applyDamping
     Fighter.takeDamage Fighter.getDistanceTo Fighter.applyGravity
     Fighter.x Fighter.y Fighter.vx Fighter.vy Fighter.hp Fighter.maxHp
     Fighter.strength Fighter.radius Fighter.color Fighter.name
     Fighter.dealsBodyDamage Fighter.variant Fighter.speedMultiplier
     Wall.x Wall.y Wall.radius
     Bullet.x Bullet.y Bullet.vx Bullet.vy Bullet.damage Bullet.active
     squareRotation shieldCharge hasShield bullets shootAngle shootCooldown
     r1 r2 r3 r4 fighter1 fighter2 ballsInCollision centerX centerY walls
     updateWalls farFrom
     passiveAbility takeDamage integrate strike bodyDamage separate
     hitPhase squareStrike bulletStrike contactPhase
     BaseFighter.passiveAbility ArcherFighter.passiveAbility
     ArcherFighter.shootBullet ArcherFighter.moveBullet
     ArcherFighter.updateBullets ArcherFighter.checkBulletCollision
     ArcherFighter.bulletHits ArcherFighter.deactivate
     ArcherFighter.getBulletDamage ArcherFighter.shootRotationSpeed
     ArcherFighter.shootCooldownMax ArcherFighter.bulletRadius
     GRAVITY_STRENGTH DAMPING BALL_COLLISION_DAMPING WALL_COLLISION_DAMPING
     WALL_DISTANCE WALL_RADIUS
     andb orb negb map filter existsb app Nat.leb bind].

(** Settle a comparison between given numbers, square roots included. *)
Ltac settle :=
  first
    [ lra
    | apply sqrt_lt_bound; lra
    | apply sqrt_le_bound; lra
    | apply sqrt_ge_bound; lra
    | apply sqrt_gt_bound; lra ].

Ltac eval_cmp :=
  repeat match goal with
  | |- context [ltb ?a ?b] =>
      first
        [ replace (ltb a b) with true by (symmetry; apply ltb_true; settle)
        | replace (ltb a b) with false by (symmetry; apply ltb_false; settle) ]
  | |- context [gtb ?a ?b] =>
      first
        [ replace (gtb a b) with true by (symmetry; apply gtb_true; settle)
        | replace (gtb a b) with false by (symmetry; apply gtb_false; settle) ]
  | |- context [eqb ?a ?b] =>
      first
        [ replace (eqb a b) with true by (symmetry; apply eqb_true; lra)
        | replace (eqb a b) with false by (symmetry; apply eqb_false; lra) ]
  end.

(** The value of a square root whose argument is the square of [v]. *)
Ltac sqrt_is v :=
  match goal with
  | |- context [sqrt ?e] =>
      replace (sqrt e) with v by (symmetry; apply sqrt_lem_1; lra)
  end.

Ltac eval_div :=
  repeat match goal with
  | |- context [div ?a ?b] => rewrite (div_ok a b) by lra
  end.

Ltac eval_max :=
  repeat match goal with
  | |- context [Rmax ?a ?b] =>
      first [ replace (Rmax a b) with b by (symmetry; apply Rmax_right; lra)
            | replace (Rmax a b) with a by (symmetry; apply Rmax_left; lra) ]
  end.

(** ** Two fighters on the same spot *)

Lemma twin_integrate : integrate twin1 twin2 0 0 = Some (twin1', twin2').
Proof.
  unfold twin1, twin2, twin1', twin2'. fcbv.
  repeat sqrt_is 0. eval_cmp. fcbv. eval_cmp. fcbv.
  repeat f_equal; lra.
Qed.

Lemma twin_tick (rnd : Rnd) :
  updatePhysics twinArena rnd = Some (twinArena', []).
Proof.
  apply (updatePhysics_phases twinArena rnd twin1 twin2 twin1' twin2'
           twin1' twin2' twin1' twin2' twin1' twin2' false false false [] []);
    try reflexivity.
  - exact twin_integrate.
  - unfold twin1', twin2', twinArena. fcbv. sqrt_is 0. eval_cmp. reflexivity.
  - apply wallPhase_far. unfold twinArena, twin1', twin2'. fcbv.
    repeat constructor; lra.
Qed.

(** ** The bullet that was shot at strength 3 *)

Lemma shot_integrate :
  integrate shooter victim 0 0 = Some (shooterMoved, victimMoved).
Proof.
  unfold shooter, victim, shooterMoved, victimMoved, flyingBullet. fcbv.
  repeat sqrt_is 200. eval_cmp. eval_div. fcbv. eval_cmp. fcbv.
  repeat f_equal; lra.
Qed.

Lemma shot_hitPhase :
  hitPhase shooterMoved victimMoved false
  = (shooter', victim', false, true, [mkHit Projectile Second 4]).
Proof.
  unfold shooterMoved, victimMoved, shooter', victim'. fcbv.
  eval_cmp. fcbv. eval_max.
  repeat f_equal; lra.
Qed.

Lemma shot_tick (rnd : Rnd) :
  updatePhysics shotArena rnd
  = Some (shotArena', [mkHit Projectile Second 4]).
Proof.
  apply (updatePhysics_phases shotArena rnd shooter victim
           shooterMoved victimMoved shooter' victim' shooter' victim'
           shooter' victim' false true true [mkHit Projectile Second 4] []);
    try reflexivity.
  - exact shot_integrate.
  - exact shot_hitPhase.
  - unfold shooterMoved, victimMoved, shooter', victim', shotArena. fcbv.
    eval_cmp. reflexivity.
  - apply wallPhase_far. unfold shotArena, shooter', victim'. fcbv.
    repeat constructor; lra.
Qed.

(** ** Two ticks in contact *)

Lemma pair_integrate0 :
  integrate left0 right0 0 0 = Some (left0m, right0m).
Proof.
  unfold left0, right0, left0m, right0m. fcbv.
  repeat sqrt_is 10. eval_cmp. eval_div. fcbv. eval_cmp. fcbv.
  repeat f_equal; lra.
Qed.

Lemma pair_contact0 :
  contactPhase left0m right0m (Fighter.getDistanceTo left0m right0m)
    (Fighter.radius left0m + Fighter.radius right0m) false false false rnd0
  = Some (left1, right1, true,
          [mkHit Body Second 1; mkHit Body First 1]).
Proof.
  unfold left0m, right0m, left1, right1, rnd0. fcbv.
  repeat sqrt_is 19.02. eval_cmp. fcbv. eval_div. fcbv. eval_max.
  repeat f_equal; lra.
Qed.

Lemma pair_tick0 :
  updatePhysics pairArena0 rnd0
  = Some (pairArena1, [mkHit Body Second 1; mkHit Body First 1]).
Proof.
  apply (updatePhysics_phases pairArena0 rnd0 left0 right0 left0m right0m
           left0m right0m left1 right1 left1 right1 false false true []
           [mkHit Body Second 1; mkHit Body First 1]);
    try reflexivity.
  - exact pair_integrate0.
  - exact pair_contact0.
  - apply wallPhase_far. unfold pairArena0, left1, right1. fcbv.
    repeat constructor; lra.
Qed.

Lemma pair_integrate1 :
  integrate left1 right1 0 0 = Some (left1m, right1m).
Proof.
  unfold left1, right1, left1m, right1m. fcbv.
  repeat sqrt_is 30. eval_cmp. eval_div. fcbv. eval_cmp. fcbv.
  repeat f_equal; lra.
Qed.

Lemma pair_contact1 :
  contactPhase left1m right1m (Fighter.getDistanceTo left1m right1m)
    (Fighter.radius left1m + Fighter.radius right1m) true false false rnd0
  = Some (left2, right2, true, []).
Proof.
  unfold left1m, right1m, left2, right2, rnd0. fcbv.
  repeat sqrt_is 58.0596. eval_cmp. fcbv. eval_div. fcbv.
  repeat f_equal; lra.
Qed.

Lemma pair_tick1 :
  updatePhysics pairArena1 rnd0 = Some (pairArena2, []).
Proof.
  apply (updatePhysics_phases pairArena1 rnd0 left1 right1 left1m right1m
           left1m right1m left2 right2 left2 right2 false false true [] []);
    try reflexivity.
  - exact pair_integrate1.
  - exact pair_contact1.
  - apply wallPhase_far. unfold pairArena1, left2, right2. fcbv.
    repeat constructor; lra.
Qed.

Lemma pair_run :
  run pairArena0 [rnd0; rnd0]
  = Some [mkStep pairArena0 [mkHit Body Second 1; mkHit Body First 1]
            pairArena1;
          mkStep pairArena1 [] pairArena2].
Proof. simpl. rewrite pair_tick0. simpl. rewrite pair_tick1. reflexivity. Qed.

Lemma pair_overlap0 : positiveOverlap pairArena0.
Proof.
  unfold positiveOverlap.
  exists (Fighter.getDistanceTo left0m right0m),
    (Fighter.radius left0m + Fighter.radius right0m).
  split.
  - apply (contact_integrate pairArena0 left0 right0); try reflexivity.
    exact pair_integrate0.
  - unfold left0m, right0m. fcbv. sqrt_is 19.02. lra.
Qed.

Lemma pair_overlap1 : positiveOverlap pairArena1.
Proof.
  unfold positiveOverlap.
  exists (Fighter.getDistanceTo left1m right1m),
    (Fighter.radius left1m + Fighter.radius right1m).
  split.
  - apply (contact_integrate pairArena1 left1 right1); try reflexivity.
    exact pair_integrate1.
  - unfold left1m, right1m. fcbv. sqrt_is 58.0596. lra.
Qed.

(** ** A base fighter and an archer on the same spot *)



(** The same in binary64: after gravity, damping and the position update of
    the first frame the distance between the two centres is exactly 0, and
    the test [dist > 0] fails. *)
Lemma duel_distance0_in_binary64 :
  let move f speedMultiplier :=
    Binary64.updatePosition
      (Binary64.applyDamping
         (Binary64.applyGravity f 0 0 0.5 speedMultiplier) 0.98) in
  let d :=
    Binary64.distance (move Binary64.duelBase 1.0%float)
      (move Binary64.duelArcher 1.2%float) in
  d = 0%float /\ PrimFloat.ltb 0 d = false.
Proof. vm_compute. split; reflexivity. Qed.


Lemma duel_integrate1 :
  integrate duelBase1 duelArcher1 0 0 = Some (duelBase1m, duelArcher1m).
Proof.
  unfold duelBase1, duelArcher1, duelBase1m, duelArcher1m. fcbv.
  repeat sqrt_is 10. eval_cmp. eval_div. fcbv. eval_cmp. fcbv.
  repeat f_equal; lra.
Qed.

Lemma duel_distance1 :
  Fighter.getDistanceTo duelBase1m duelArcher1m = 0.098.
Proof.
  unfold duelBase1m, duelArcher1m. fcbv. sqrt_is 0.098. reflexivity.
Qed.

Lemma duel_contact1 :
  contactPhase duelBase1m duelArcher1m
    (Fighter.getDistanceTo duelBase1m duelArcher1m)
    (Fighter.radius duelBase1m + Fighter.radius duelArcher1m)
    false false false rnd0
  = Some (duelBase2, duelArcher2, true, [mkHit Body Second 1]).
Proof.
  rewrite duel_distance1.
  unfold duelBase1m, duelArcher1m, duelBase2, duelArcher2, rnd0. fcbv.
  eval_cmp. fcbv. eval_div. fcbv. eval_max.
  repeat f_equal; lra.
Qed.

Lemma duel_tick1 :
  updatePhysics duelArena1 rnd0
  = Some (duelArena2, [mkHit Body Second 1]).
Proof.
  apply (updatePhysics_phases duelArena1 rnd0 duelBase1 duelArcher1
           duelBase1m duelArcher1m duelBase1m duelArcher1m
           duelBase2 duelArcher2 duelBase2 duelArcher2 false false true
           [] [mkHit Body Second 1]);
    try reflexivity.
  - exact duel_integrate1.
  - exact duel_contact1.
  - apply wallPhase_far. unfold duelArena1, duelBase2, duelArcher2. fcbv.
    repeat constructor; lra.
Qed.


(** * The claims at concrete inputs *)

(** C1 at a fresh heavy fighter and [sampleOps]. *)
Lemma hp_always_in_range_witness :
  hpInRange freshHeavy /\ Forall damageOk sampleOps /\
  exists f', runOps sampleOps freshHeavy = Some f' /\ hpInRange f'.
Proof.
  assert (H1 : hpInRange freshHeavy) by (unfold hpInRange; simpl; lra).
  assert (H2 : Forall damageOk sampleOps)
    by (unfold sampleOps; repeat constructor; simpl; lra).
  split; [exact H1|]. split; [exact H2|].
  exact (hp_always_in_range freshHeavy sampleOps H1 H2).
Defined.

(** C2, as stated, fails: the bullet carries damage 3, the archer's strength
    is 4 when it strikes, and the base fighter loses 4 hp. *)
Lemma bullet_damage_not_carried :
  fighter1 shotArena = Some shooter /\
  Fighter.variant shooter = ArcherV (mkArcher [flyingBullet] 0 10) /\
  Bullet.damage flyingBullet = 3 /\
  updatePhysics shotArena rnd0
  = Some (shotArena', [mkHit Projectile Second 4]) /\
  fighter2 shotArena = Some victim /\
  fighter2 shotArena' = Some victim' /\
  Fighter.hp victim - Fighter.hp victim' = 4 /\
  Fighter.hp victim - Fighter.hp victim' <> Bullet.damage flyingBullet.
Proof.
  repeat split; try reflexivity; try apply shot_tick; simpl; lra.
Qed.

(** C2 (amended) at the tick of [shotArena]. *)
Lemma projectile_damage_witness :
  fighter1 shotArena = Some shooter /\
  fighter2 shotArena = Some victim /\
  updatePhysics shotArena rnd0
  = Some (shotArena', [mkHit Projectile Second 4]) /\
  amount (mkHit Projectile Second 4)
  = attackerStrength shooter victim (target (mkHit Projectile Second 4)).
Proof.
  split; [reflexivity|]. split; [reflexivity|]. split; [apply shot_tick|].
  apply (projectile_damage_is_current_strength shotArena shotArena' rnd0
           [mkHit Projectile Second 4] shooter victim);
    [reflexivity|reflexivity|apply shot_tick|left; reflexivity|reflexivity].
Defined.

(** C3 (amended) at [archer22]. *)
Lemma archer_cooldown_witness :
  Fighter.variant archer22 = ArcherV (mkArcher [] 0 0) /\
  shootCooldown (mkArcher [] 0 0) <= 0 /\
  exists a',
    Fighter.variant (passiveAbility archer22 0 0) = ArcherV a' /\
    shootCooldown a'
    = ArcherFighter.shootCooldownMax - Fighter.strength archer22 * 1.5 /\
    bullets a'
    = filter Bullet.active
        (map (ArcherFighter.moveBullet archer22)
           (bullets (mkArcher [] 0 0) ++
            [ArcherFighter.newBullet archer22
               (shootAngle (mkArcher [] 0 0)
                + ArcherFighter.shootRotationSpeed)])) /\
    (shootCooldown a' < 0 <-> 20 < Fighter.strength archer22).
Proof.
  split; [reflexivity|]. split; [simpl; lra|].
  apply (archer_cooldown_after_emission archer22 (mkArcher [] 0 0) 0 0);
    [reflexivity|simpl; lra].
Defined.

(** C4 (amended) at a heavy fighter with 100 hp on the centre. *)
Lemma heavy_shield_witness :
  Fighter.variant (heavy179 100) = HeavyV (mkHeavy 0 179 false) /\
  Fighter.isInCenterZone (heavy179 100) 0 0 = true /\
  Fighter.hp (takeDamage (passiveAbility (heavy179 100) 0 0) 10) = 100 - 5.
Proof.
  assert (Hz : Fighter.isInCenterZone (heavy179 100) 0 0 = true)
    by (apply (center_zone_at_center (heavy179 100)); simpl; lra).
  split; [reflexivity|]. split; [exact Hz|].
  apply (heavy_shield_scenario (heavy179 100) (mkHeavy 0 179 false) 0 0
           eq_refl eq_refl eq_refl Hz).
  simpl. lra.
Defined.

(** C10 at [heavyKO] and damage 10. *)
Lemma takeDamage_at_zero_hp_witness :
  0 <= 10 /\ Fighter.hp heavyKO = 0 /\
  Fighter.hp (takeDamage heavyKO 10) = 0 /\
  Fighter.variant (takeDamage heavyKO 10) = HeavyV (mkHeavy 0 0 false).
Proof.
  assert (H10 : 0 <= 10) by lra.
  split; [exact H10|]. split; [reflexivity|].
  destruct (takeDamage_at_zero_hp heavyKO 10 H10 eq_refl) as [Hhp Hshield].
  split; [exact Hhp|].
  exact (Hshield (mkHeavy 0 42 true) eq_refl eq_refl).
Defined.

(** C5 at a base fighter with 40 hp whose timer is at 119. *)
Lemma base_regeneration_witness :
  Fighter.variant (baseAt 40 119) = BaseV 119 /\
  Fighter.maxHp (baseAt 40 119) = 100 /\
  Fighter.hp (passiveAbility (baseAt 40 119) 0 0) = 40 + 1 /\
  Fighter.variant (passiveAbility (baseAt 40 119) 0 0) = BaseV 0.
Proof.
  split; [reflexivity|]. split; [reflexivity|].
  apply (base_regeneration (baseAt 40 119) 119 0 0 eq_refl eq_refl).
  - simpl. lra.
  - simpl. lra.
  - lia.
Defined.

Lemma baseNearWall_distance :
  sqrt ((Fighter.x baseNearWall - Wall.x topWall)
        * (Fighter.x baseNearWall - Wall.x topWall)
        + (Fighter.y baseNearWall - Wall.y topWall)
          * (Fighter.y baseNearWall - Wall.y topWall)) = 50.
Proof. unfold baseNearWall, topWall. fcbv. sqrt_is 50. reflexivity. Qed.

Lemma baseNearWall_pushed :
  checkCollisionWithWall baseNearWall topWall = Some basePushed.
Proof.
  unfold checkCollisionWithWall, baseNearWall, topWall, basePushed. fcbv.
  repeat sqrt_is 50. eval_cmp. fcbv. eval_div. fcbv. eval_cmp. fcbv.
  repeat f_equal; lra.
Qed.

(** C7 (amended) at [baseNearWall], 50 away from the top wall and moving
    towards it at speed 2: it is moved by the overlap 20. *)
Lemma wall_collision_witness :
  0 < sqrt ((Fighter.x baseNearWall - Wall.x topWall)
            * (Fighter.x baseNearWall - Wall.x topWall)
            + (Fighter.y baseNearWall - Wall.y topWall)
              * (Fighter.y baseNearWall - Wall.y topWall))
    < Fighter.radius baseNearWall + Wall.radius topWall /\
  exists f',
    checkCollisionWithWall baseNearWall topWall = Some f' /\
    sqrt ((Fighter.x f' - Fighter.x baseNearWall)
          * (Fighter.x f' - Fighter.x baseNearWall)
          + (Fighter.y f' - Fighter.y baseNearWall)
            * (Fighter.y f' - Fighter.y baseNearWall))
    = 30 + 40 - 50.
Proof.
  assert (Hd : 0 < sqrt ((Fighter.x baseNearWall - Wall.x topWall)
                         * (Fighter.x baseNearWall - Wall.x topWall)
                         + (Fighter.y baseNearWall - Wall.y topWall)
                           * (Fighter.y baseNearWall - Wall.y topWall))
               < Fighter.radius baseNearWall + Wall.radius topWall).
  { rewrite baseNearWall_distance. simpl. unfold WALL_RADIUS. lra. }
  split; [exact Hd|].
  destruct (wall_collision_resolution baseNearWall topWall Hd)
    as (f'&Hf&_&_&Hmove&_).
  exists f'. split; [exact Hf|].
  rewrite Hmove, baseNearWall_distance. reflexivity.
Defined.

(** C7, as stated, fails, in three ways.
    - A fighter whose centre is on the wall's centre overlaps the wall, and
      the resolution leaves it where it is.
    - A fighter that moves into the wall is not reflected: [baseNearWall]
      approaches the top wall at speed 2 (normal [(0, 1)], [dot = -2]) and
      leaves the resolution at speed 0.8, still towards the wall; reflected
      and scaled by 0.6 it would move away at speed 1.2.
    - In binary64 the push does not always reach the sum of the radii: for
      the fighter of radius 30 at [(7, -376)] and the wall of radius 40 at
      [(0, -400)], 25 apart, the push moves the fighter away from the wall,
      but the distance computed afterwards is still below 70 and the
      circles still test as overlapping. *)
Lemma wall_collision_not_as_claimed :
  (checkCollisionWithWall baseOnWall topWall = Some baseOnWall /\
   sqrt ((Fighter.x baseOnWall - Wall.x topWall)
         * (Fighter.x baseOnWall - Wall.x topWall)
         + (Fighter.y baseOnWall - Wall.y topWall)
           * (Fighter.y baseOnWall - Wall.y topWall))
   < Fighter.radius baseOnWall + Wall.radius topWall) /\
  (checkCollisionWithWall baseNearWall topWall = Some basePushed /\
   Fighter.vx baseNearWall = 0 /\ Fighter.vy baseNearWall = -2 /\
   Fighter.y baseNearWall - Wall.y topWall = 50 /\
   Fighter.vx basePushed = 0 /\ Fighter.vy basePushed = -0.8) /\
  (let pushed :=
     Binary64.checkCollisionWithWall Binary64.nearTopWall Binary64.topWall in
   Binary64.distance Binary64.nearTopWall Binary64.topWall = 25%float /\
   PrimFloat.ltb (Binary64.distance Binary64.nearTopWall Binary64.topWall)
     (Binary64.distance pushed Binary64.topWall) = true /\
   PrimFloat.ltb (Binary64.distance pushed Binary64.topWall) 70%float = true /\
   Binary64.overlaps pushed Binary64.topWall = true).
Proof.
  split; [exact wall_collision_skipped_on_center|]. split.
  - split; [exact baseNearWall_pushed|].
    unfold baseNearWall, basePushed, topWall. fcbv. repeat split; lra.
  - vm_compute. repeat split; reflexivity.
Qed.

(** Two fighters on the same spot: the circles coincide (distance 0, below
    the sum of the radii 60), nothing hits, and the tick takes the last
    [else] and resets the flag. *)
Lemma flag_reset_while_overlapping :
  ballsInCollision twinArena = true /\
  contact twinArena
  = Some (Fighter.getDistanceTo twin1' twin2',
          Fighter.radius twin1' + Fighter.radius twin2') /\
  Fighter.getDistanceTo twin1' twin2'
  < Fighter.radius twin1' + Fighter.radius twin2' /\
  updatePhysics twinArena rnd0 = Some (twinArena', []) /\
  ballsInCollision twinArena' = false.
Proof.
  split; [reflexivity|]. split; [|split; [|split]].
  - apply (contact_integrate twinArena twin1 twin2); try reflexivity.
    exact twin_integrate.
  - unfold twin1', twin2'. fcbv. sqrt_is 0. lra.
  - apply twin_tick.
  - reflexivity.
Qed.


(** The two ticks of [pairArena0]: body damage on the first tick, none on
    the second. *)
Lemma body_damage_edge_triggered_witness :
  run pairArena0 [rnd0; rnd0]
  = Some [mkStep pairArena0 [mkHit Body Second 1; mkHit Body First 1]
            pairArena1;
          mkStep pairArena1 [] pairArena2] /\
  positiveOverlap pairArena0 /\ positiveOverlap pairArena1 /\
  ~ hasCause Body (applied (mkStep pairArena1 [] pairArena2)).
Proof.
  split; [exact pair_run|]. split; [exact pair_overlap0|].
  split; [exact pair_overlap1|].
  apply (proj1 (body_damage_edge_triggered pairArena0 [rnd0; rnd0] _ pair_run)).
  - repeat constructor; simpl; [exact pair_overlap0|exact pair_overlap1].
  - simpl. left. reflexivity.
Defined.

(** * Further properties of the code *)

(** ** The factory and the guards on a missing fighter *)

(** X1.  Every created fighter stands at the given position, at rest, at
    full health, with a positive radius and a strength of at least 1; only
    the base fighter deals body damage. *)
Theorem createFighter_contract (type : FighterType) (x y : R)
  (name color : string) :
  let f := createFighter type x y name color in
  Fighter.x f = x /\ Fighter.y f = y /\
  Fighter.vx f = 0 /\ Fighter.vy f = 0 /\
  Fighter.hp f = Fighter.maxHp f /\ 0 < Fighter.hp f /\
  0 < Fighter.radius f /\ 1 <= Fighter.strength f /\
  Fighter.name f = name /\ Fighter.color f = color /\
  (Fighter.dealsBodyDamage f = true <-> type = base) /\
  Fighter.isAlive f = true.
Proof.
  destruct type; simpl; repeat split; try lra; try discriminate;
    try (apply gtb_true; simpl; lra); try reflexivity.
Qed.

Lemma play_without_fighters (es : list Event) (a : Arena) :
  fighter1 a = None \/ fighter2 a = None -> play a es = Some a.
Proof.
  intros Hn. induction es as [|e es IH]; simpl; trivial.
  assert (Hs : step a e = Some a).
  { destruct e as [rnd|]; simpl.
    - unfold updatePhysics.
      destruct Hn as [-> | Hn]; [reflexivity|].
      rewrite Hn. now destruct (fighter1 a).
    - unfold checkAndIncreaseStrength.
      destruct Hn as [-> | Hn]; [reflexivity|].
      rewrite Hn. now destruct (fighter1 a). }
  rewrite Hs. simpl. exact IH.
Qed.

(** X2.  While a fighter is missing, frames and strength timers change
    nothing, however many of them run; [resetGame] puts the component in
    that state, with the contact flag cleared and the walls kept. *)
Theorem nothing_runs_without_fighters (a : Arena) (es : list Event) :
  (fighter1 a = None \/ fighter2 a = None -> play a es = Some a) /\
  play (resetGame a) es = Some (resetGame a) /\
  ballsInCollision (resetGame a) = false /\
  walls (resetGame a) = walls a.
Proof.
  split; [apply play_without_fighters|].
  split; [apply play_without_fighters; now left|].
  split; reflexivity.
Qed.

(** ** Knock-out is final *)

Lemma takeDamage_keeps_zero (f : Fighter.t) (d : R) :
  0 <= d -> Fighter.hp f = 0 -> Fighter.hp (takeDamage f d) = 0.
Proof.
  intros Hd H0.
  assert (Hm : forall v, 0 <= v -> Rmax 0 (0 - v) = 0)
    by (intros v Hv; unfold Rmax; destruct (Rle_dec _ _); lra).
  unfold takeDamage. destruct (Fighter.variant f) as [tm|h|a].
  - simpl. rewrite H0. now apply Hm.
  - unfold HeavyFighter.takeDamage. destruct (hasShield h); simpl; rewrite H0.
    + apply Hm, Math_floor_nonneg. lra.
    + now apply Hm.
  - simpl. rewrite H0. now apply Hm.
Qed.

Lemma passiveAbility_keeps_zero (f : Fighter.t) (cx cy : R) :
  Fighter.hp f = 0 -> Fighter.hp (passiveAbility f cx cy) = 0.
Proof.
  intros H0. unfold passiveAbility.
  destruct (Fighter.variant f) as [tm|h|a].
  - unfold BaseFighter.passiveAbility.
    replace (eqb (Fighter.hp f) 0) with true
      by (symmetry; now apply eqb_true).
    rewrite andb_false_r. exact H0.
  - unfold HeavyFighter.passiveAbility.
    destruct (Fighter.isInCenterZone f cx cy); [destruct (_ && _)|];
      exact H0.
  - exact H0.
Qed.

Lemma applyOp_keeps_zero (f f' : Fighter.t) (o : Op) :
  damageOk o -> Fighter.hp f = 0 -> applyOp f o = Some f' ->
  Fighter.hp f' = 0.
Proof.
  intros Ho H0.
  destruct o as [cx cy g|d| |cx cy|cx cy|d| |wall]; simpl in *.
  - intros H. apply applyGravity_hp in H as [-> _]. exact H0.
  - intros [= <-]. exact H0.
  - intros [= <-]. exact H0.
  - intros [= <-]. now apply passiveAbility_keeps_zero.
  - intros H. apply useSpecialAbility_hp in H as [-> _]. exact H0.
  - intros [= <-]. now apply takeDamage_keeps_zero.
  - intros [= <-]. exact H0.
  - intros H. apply checkCollisionWithWall_hp in H as [-> _]. exact H0.
Qed.

(** X3.  A knocked-out fighter stays knocked out: from hp 0, no sequence of
    operations with damage that is not negative brings hp back above 0 (the
    base fighter's regeneration does not start from 0). *)
Theorem knocked_out_is_final (ops : list Op) (f f' : Fighter.t) :
  Forall damageOk ops ->
  Fighter.hp f = 0 ->
  runOps ops f = Some f' ->
  Fighter.hp f' = 0 /\ Fighter.isAlive f' = false.
Proof.
  intros Hops. revert f.
  induction Hops as [|o ops Ho _ IH]; intros f H0; simpl.
  - intros [= <-]. split; [exact H0|].
    unfold Fighter.isAlive. apply gtb_false. lra.
  - destruct (applyOp f o) as [f1|] eqn:H1; [|discriminate]. simpl.
    apply IH. eapply applyOp_keeps_zero; eassumption.
Qed.

(** ** The shield *)

(** X4.  A hit on an armed heavy fighter costs at most half of the damage,
    never more than the same hit would cost without the shield, and it
    always consumes the shield. *)
Theorem shield_halves_damage (f : Fighter.t) (h : HeavyState) (d : R) :
  Fighter.variant f = HeavyV h ->
  hasShield h = true ->
  0 <= d ->
  0 <= Fighter.hp f ->
  let f' := takeDamage f d in
  Fighter.hp f - Fighter.hp f' <= d * 0.5 /\
  Fighter.hp (Fighter.takeDamage f d) <= Fighter.hp f' <= Fighter.hp f /\
  heavyState f' = Some (mkHeavy (squareRotation h) 0 false).
Proof.
  intros Hv Hs Hd Hhp. unfold takeDamage. rewrite Hv.
  unfold HeavyFighter.takeDamage. rewrite Hs. simpl.
  pose proof (Math_floor_nonneg (d * 0.5)) as H1.
  assert (H2 : Math_floor (d * 0.5) <= d * 0.5)
    by (unfold Math_floor; apply Zfloor_bound).
  unfold heavyState. simpl.
  unfold Rmax. repeat destruct (Rle_dec _ _); repeat split; lra.
Qed.

Lemma Heavy_passive_step (f : Fighter.t) (h : HeavyState) (cx cy : R) :
  Fighter.variant f = HeavyV h ->
  exists h',
    Fighter.variant (passiveAbility f cx cy) = HeavyV h' /\
    squareRotation h' = squareRotation h + HeavyFighter.squareRotationSpeed /\
    (hasShield h = true -> hasShield h' = true) /\
    (Fighter.isInCenterZone f cx cy = false ->
     shieldCharge h' = shieldCharge h /\ hasShield h' = hasShield h) /\
    (Fighter.isInCenterZone f cx cy = true -> hasShield h = false ->
     (S (shieldCharge h) < 180)%nat ->
     shieldCharge h' = S (shieldCharge h) /\ hasShield h' = false) /\
    (Fighter.isInCenterZone f cx cy = true -> hasShield h = false ->
     (180 <= S (shieldCharge h))%nat ->
     shieldCharge h' = 0%nat /\ hasShield h' = true) /\
    (shieldCharge h' <= S (shieldCharge h))%nat /\
    (hasShield h = false -> (S (shieldCharge h) < 180)%nat ->
     hasShield h' = false).
Proof.
  intros Hv. unfold passiveAbility. rewrite Hv.
  unfold HeavyFighter.passiveAbility.
  destruct (Fighter.isInCenterZone f cx cy) eqn:Hz.
  - destruct (180 <=? S (shieldCharge h))%nat eqn:Hc;
      [apply Nat.leb_le in Hc|apply Nat.leb_gt in Hc];
      destruct (hasShield h) eqn:Hs; simpl;
      eexists; (split; [reflexivity|]); simpl;
      repeat split; intros; try discriminate; try lia; auto.
  - eexists. split; [reflexivity|]. simpl.
    repeat split; intros; try discriminate; try lia; auto.
Qed.

Lemma passiveAbility_position (f : Fighter.t) (cx cy : R) :
  Fighter.x (passiveAbility f cx cy) = Fighter.x f /\
  Fighter.y (passiveAbility f cx cy) = Fighter.y f /\
  Fighter.vx (passiveAbility f cx cy) = Fighter.vx f /\
  Fighter.vy (passiveAbility f cx cy) = Fighter.vy f /\
  Fighter.radius (passiveAbility f cx cy) = Fighter.radius f.
Proof.
  unfold passiveAbility. destruct (Fighter.variant f) as [tm|h|a].
  - unfold BaseFighter.passiveAbility. destruct (_ && _ && _); simpl; auto.
  - unfold HeavyFighter.passiveAbility.
    destruct (Fighter.isInCenterZone f cx cy); [destruct (_ && _)|];
      simpl; auto.
  - simpl. auto.
Qed.

(** X5.  The shield cannot be armed early: from an unarmed heavy fighter
    with charge [c], fewer than [180 - c] passive ticks leave the shield
    unarmed, wherever the arena centre is on each tick. *)
Theorem shield_not_armed_early (cs : list (R * R)) (f : Fighter.t)
  (h : HeavyState) :
  Fighter.variant f = HeavyV h ->
  hasShield h = false ->
  (shieldCharge h + List.length cs < 180)%nat ->
  exists h',
    Fighter.variant (passiveAlong cs f) = HeavyV h' /\
    hasShield h' = false /\
    (shieldCharge h' <= shieldCharge h + List.length cs)%nat.
Proof.
  revert f h. induction cs as [|[cx cy] cs IH]; intros f h Hv Hs Hn; simpl.
  - exists h. repeat split; trivial. lia.
  - simpl in Hn.
    destruct (Heavy_passive_step f h cx cy Hv)
      as (h1&Hv1&_&_&_&_&_&Hle&Hun).
    destruct (IH _ h1 Hv1) as (h'&Hv'&Hs'&Hc').
    + apply Hun; [assumption|lia].
    + lia.
    + exists h'. repeat split; trivial. lia.
Qed.

(** X6.  An unarmed heavy fighter with charge [c] that stays in the centre
    zone has its shield armed, with the charge back at 0, after exactly
    [180 - c] passive ticks; an armed shield is never disarmed by a passive
    tick. *)
Theorem shield_armed_on_time (n : nat) (f : Fighter.t) (h : HeavyState)
  (cx cy : R) :
  Fighter.variant f = HeavyV h ->
  Fighter.isInCenterZone f cx cy = true ->
  (hasShield h = false -> (shieldCharge h + n = 180)%nat ->
   (0 < n)%nat ->
   exists h',
     Fighter.variant (passiveAlong (repeat (cx, cy) n) f) = HeavyV h' /\
     hasShield h' = true /\ shieldCharge h' = 0%nat) /\
  (hasShield h = true ->
   exists h',
     Fighter.variant (passiveAlong (repeat (cx, cy) n) f) = HeavyV h' /\
     hasShield h' = true).
Proof.
  revert f h. induction n as [|n IH]; intros f h Hv Hz.
  - split; [intros _ _ Hn; lia|]. intros Hs. exists h. auto.
  - destruct (Heavy_passive_step f h cx cy Hv)
      as (h1&Hv1&_&Hkeep&_&Hgrow&Harm&_&_).
    assert (Hz1 : Fighter.isInCenterZone (passiveAbility f cx cy) cx cy = true).
    { unfold Fighter.isInCenterZone in *.
      destruct (passiveAbility_position f cx cy) as (->&->&_&_&->).
      exact Hz. }
    destruct (IH _ h1 Hv1 Hz1) as [IHarm IHkeep].
    split; simpl.
    + intros Hs Hn _.
      destruct (Nat.eq_dec n 0) as [->|Hn0].
      * simpl. exists h1. split; [exact Hv1|].
        destruct (Harm Hz Hs) as [-> ->]; [lia|auto].
      * destruct (Hgrow Hz Hs) as [Hc1 Hs1]; [lia|].
        apply IHarm; [exact Hs1|lia|lia].
    + intros Hs. apply IHkeep. now apply Hkeep.
Qed.

(** ** Forces *)

Lemma norm_scale_r (k a b : R) :
  0 <= k ->
  sqrt ((a * k) * (a * k) + (b * k) * (b * k)) = k * sqrt (a * a + b * b).
Proof.
  intros Hk. rewrite <- norm_scale by exact Hk. f_equal. ring.
Qed.

Lemma norm_triangle (a b c d : R) :
  sqrt ((a + c) * (a + c) + (b + d) * (b + d))
  <= sqrt (a * a + b * b) + sqrt (c * c + d * d).
Proof.
  pose proof (triangle (a + c) (b + d) 0 0 c d) as H.
  unfold dist_euc, Rsqr in H.
  replace (a + c - 0) with (a + c) in H by ring.
  replace (b + d - 0) with (b + d) in H by ring.
  replace (a + c - c) with a in H by ring.
  replace (b + d - d) with b in H by ring.
  replace (c - 0) with c in H by ring.
  replace (d - 0) with d in H by ring.
  exact H.
Qed.

Lemma speedMultiplier_pos (f : Fighter.t) : 0 < Fighter.speedMultiplier f.
Proof. unfold Fighter.speedMultiplier. destruct (Fighter.variant f); lra. Qed.

(** The velocity gravity adds, when the fighter is not on the centre. *)
Lemma applyGravity_pull (f f' : Fighter.t) (cx cy g : R) :
  let dx := cx - Fighter.x f in
  let dy := cy - Fighter.y f in
  let dist := sqrt (dx * dx + dy * dy) in
  dist <> 0 ->
  Fighter.applyGravity f cx cy g = Some f' ->
  Fighter.vx f' - Fighter.vx f
  = g * Fighter.speedMultiplier f / dist * dx /\
  Fighter.vy f' - Fighter.vy f
  = g * Fighter.speedMultiplier f / dist * dy /\
  Fighter.x f' = Fighter.x f /\ Fighter.y f' = Fighter.y f /\
  Fighter.speedMultiplier f' = Fighter.speedMultiplier f.
Proof.
  intros dx dy dist Hd. unfold Fighter.applyGravity. fold dx dy dist.
  assert (Hpos : 0 < dist)
    by (pose proof (sqrt_pos (dx * dx + dy * dy)); fold dist in H; lra).
  replace (gtb dist 0) with true by (symmetry; now apply gtb_true).
  rewrite !div_ok by lra. simpl. intros [= <-]. simpl.
  repeat split; try reflexivity; field; lra.
Qed.

(** X7.  Gravity adds to the velocity of a fighter that is not on the centre
    a vector of length exactly [gravityStrength * speedMultiplier] pointing
    at the centre, and moves nothing else. *)
Theorem gravity_pull_has_fixed_size (f f' : Fighter.t) (cx cy g : R) :
  0 <= g ->
  (Fighter.x f <> cx \/ Fighter.y f <> cy) ->
  Fighter.applyGravity f cx cy g = Some f' ->
  let ax := Fighter.vx f' - Fighter.vx f in
  let ay := Fighter.vy f' - Fighter.vy f in
  sqrt (ax * ax + ay * ay) = g * Fighter.speedMultiplier f /\
  ax * (cy - Fighter.y f) = ay * (cx - Fighter.x f) /\
  0 <= ax * (cx - Fighter.x f) + ay * (cy - Fighter.y f) /\
  Fighter.x f' = Fighter.x f /\ Fighter.y f' = Fighter.y f /\
  Fighter.hp f' = Fighter.hp f.
Proof.
  intros Hg Hne Hf.
  set (dx := cx - Fighter.x f). set (dy := cy - Fighter.y f).
  set (dist := sqrt (dx * dx + dy * dy)).
  assert (Hd : dist <> 0).
  { intros Hz. unfold dist in Hz.
    apply sqrt_eq_0 in Hz; [|apply sumsq_nonneg].
    assert (dx = 0 /\ dy = 0) as [Hx Hy] by (split; nra).
    unfold dx, dy in *. destruct Hne; lra. }
  assert (Hpos : 0 < dist)
    by (pose proof (sqrt_pos (dx * dx + dy * dy)); fold dist in H; lra).
  pose proof (speedMultiplier_pos f) as Hm.
  destruct (applyGravity_pull f f' cx cy g Hd Hf) as (Hx&Hy&Px&Py&_).
  fold dx dy dist in Hx, Hy.
  apply applyGravity_hp in Hf as [Hhp _].
  simpl. rewrite Hx, Hy.
  set (k := g * Fighter.speedMultiplier f / dist).
  assert (Hk : 0 <= k).
  { unfold k. apply Rmult_le_pos; [nra|]. apply Rlt_le, Rinv_0_lt_compat, Hpos. }
  split.
  - rewrite norm_scale by exact Hk. fold dist. unfold k. field. lra.
  - split; [ring|]. split; [|auto].
    replace (k * dx * dx + k * dy * dy) with (k * (dx * dx + dy * dy)) by ring.
    apply Rmult_le_pos; [exact Hk|apply sumsq_nonneg].
Qed.

(** X8.  Integration keeps the speed of a fighter under the terminal speed
    [49 * GRAVITY_STRENGTH * speedMultiplier] (24.5 for the base fighter):
    a fighter at or below it before gravity and damping is at or below it
    after them, and the passive ability does not touch the velocity. *)
Theorem terminal_speed (f1 f2 g1 g2 : Fighter.t) (cx cy : R) :
  integrate f1 f2 cx cy = Some (g1, g2) ->
  (speed f1 <= 49 * GRAVITY_STRENGTH * Fighter.speedMultiplier f1 ->
   speed g1 <= 49 * GRAVITY_STRENGTH * Fighter.speedMultiplier f1) /\
  (speed f2 <= 49 * GRAVITY_STRENGTH * Fighter.speedMultiplier f2 ->
   speed g2 <= 49 * GRAVITY_STRENGTH * Fighter.speedMultiplier f2).
Proof.
  assert (Hone : forall f e,
    Fighter.applyGravity f cx cy GRAVITY_STRENGTH = Some e ->
    speed f <= 49 * GRAVITY_STRENGTH * Fighter.speedMultiplier f ->
    speed (passiveAbility
             (Fighter.updatePosition (Fighter.applyDamping e DAMPING)) cx cy)
    <= 49 * GRAVITY_STRENGTH * Fighter.speedMultiplier f).
  { intros f e He Hs. unfold speed in *.
    destruct (passiveAbility_position
                (Fighter.updatePosition (Fighter.applyDamping e DAMPING))
                cx cy) as (_&_&->&->&_).
    simpl. pose proof (speedMultiplier_pos f) as Hm.
    unfold GRAVITY_STRENGTH, DAMPING in *.
    rewrite norm_scale_r by lra.
    assert (Hb : sqrt (Fighter.vx e * Fighter.vx e + Fighter.vy e * Fighter.vy e)
                 <= sqrt (Fighter.vx f * Fighter.vx f
                          + Fighter.vy f * Fighter.vy f)
                    + 0.5 * Fighter.speedMultiplier f).
    { set (dx := cx - Fighter.x f). set (dy := cy - Fighter.y f).
      destruct (Req_dec_T (sqrt (dx * dx + dy * dy)) 0) as [Hz|Hnz].
      - rewrite (applyGravity_skip f cx cy 0.5 Hz) in He.
        injection He as <-. lra.
      - destruct (applyGravity_pull f e cx cy 0.5 Hnz He) as (Hx&Hy&_).
        fold dx dy in Hx, Hy.
        set (k := 0.5 * Fighter.speedMultiplier f / sqrt (dx * dx + dy * dy))
          in *.
        replace (Fighter.vx e) with (Fighter.vx f + k * dx) by lra.
        replace (Fighter.vy e) with (Fighter.vy f + k * dy) by lra.
        eapply Rle_trans; [apply norm_triangle|].
        apply Rplus_le_compat_l.
        pose proof (sqrt_pos (dx * dx + dy * dy)) as Hp.
        assert (Hk : 0 <= k).
        { unfold k. apply Rmult_le_pos; [lra|].
          apply Rlt_le, Rinv_0_lt_compat. lra. }
        rewrite norm_scale by exact Hk. unfold k.
        apply Req_le. field. exact Hnz. }
    lra. }
  unfold integrate.
  destruct (Fighter.applyGravity f1 _ _ _) as [e1|] eqn:H1; [|discriminate].
  destruct (Fighter.applyGravity f2 _ _ _) as [e2|] eqn:H2; [|discriminate].
  simpl. intros [= <- <-]. split; now apply Hone.
Qed.

(** ** Separation of two overlapping fighters *)

(** X9.  Separation is symmetric: two overlapping fighters whose centres
    are apart are each moved by exactly half the overlap, in opposite
    directions along the line of the centres (the first away from the
    second), so that the midpoint of the two centres does not move; health
    is untouched. *)
Theorem separation_halves_overlap (f1 f2 g1 g2 : Fighter.t) (rnd : Rnd) :
  let dist := Fighter.getDistanceTo f1 f2 in
  let minDist := Fighter.radius f1 + Fighter.radius f2 in
  let nx := (Fighter.x f2 - Fighter.x f1) / dist in
  let ny := (Fighter.y f2 - Fighter.y f1) / dist in
  0 < dist < minDist ->
  separate f1 f2 dist minDist rnd = Some (g1, g2) ->
  (Fighter.x g1 = Fighter.x f1 - nx * (minDist - dist) * 0.5 /\
   Fighter.y g1 = Fighter.y f1 - ny * (minDist - dist) * 0.5 /\
   Fighter.x g2 = Fighter.x f2 + nx * (minDist - dist) * 0.5 /\
   Fighter.y g2 = Fighter.y f2 + ny * (minDist - dist) * 0.5) /\
  (sqrt ((Fighter.x g1 - Fighter.x f1) * (Fighter.x g1 - Fighter.x f1)
         + (Fighter.y g1 - Fighter.y f1) * (Fighter.y g1 - Fighter.y f1))
   = (minDist - dist) * 0.5 /\
   sqrt ((Fighter.x g2 - Fighter.x f2) * (Fighter.x g2 - Fighter.x f2)
         + (Fighter.y g2 - Fighter.y f2) * (Fighter.y g2 - Fighter.y f2))
   = (minDist - dist) * 0.5) /\
  (Fighter.x g1 + Fighter.x g2 = Fighter.x f1 + Fighter.x f2 /\
   Fighter.y g1 + Fighter.y g2 = Fighter.y f1 + Fighter.y f2) /\
  Fighter.hp g1 = Fighter.hp f1 /\ Fighter.hp g2 = Fighter.hp f2.
Proof.
  intros dist minDist nx ny [Hpos Hlt]. unfold separate.
  rewrite !div_ok by lra. fold nx ny. simpl. intros [= <- <-]. simpl.
  assert (Hunit : nx * nx + ny * ny = 1).
  { set (dx := Fighter.x f2 - Fighter.x f1).
    set (dy := Fighter.y f2 - Fighter.y f1).
    assert (Hdist : dist = sqrt (dx * dx + dy * dy)).
    { unfold dist, Fighter.getDistanceTo, dx, dy. f_equal. ring. }
    pose proof (norm_sq dx dy) as Hsq. rewrite <- Hdist in Hsq.
    unfold nx, ny. fold dx dy.
    replace (dx / dist * (dx / dist) + dy / dist * (dy / dist))
      with ((dx * dx + dy * dy) / (dist * dist)) by (field; lra).
    rewrite <- Hsq. field. lra. }
  split; [repeat split; reflexivity|].
  split; [|split; [split; ring|split; reflexivity]].
  split.
  - replace (Fighter.x f1 - nx * (minDist - dist) * 0.5 - Fighter.x f1)
      with ((minDist - dist) * 0.5 * (- nx)) by ring.
    replace (Fighter.y f1 - ny * (minDist - dist) * 0.5 - Fighter.y f1)
      with ((minDist - dist) * 0.5 * (- ny)) by ring.
    rewrite norm_scale by lra.
    replace (- nx * - nx + - ny * - ny) with (nx * nx + ny * ny) by ring.
    rewrite Hunit, sqrt_1. ring.
  - replace (Fighter.x f2 + nx * (minDist - dist) * 0.5 - Fighter.x f2)
      with ((minDist - dist) * 0.5 * nx) by ring.
    replace (Fighter.y f2 + ny * (minDist - dist) * 0.5 - Fighter.y f2)
      with ((minDist - dist) * 0.5 * ny) by ring.
    rewrite norm_scale by lra. rewrite Hunit, sqrt_1. ring.
Qed.

(** In binary64 the two halves do not always add up to the overlap: the
    fighters of radius 30 at [(0, 0)] and [(7, 24)], 25 apart, are moved
    apart, and the distance computed afterwards is still below 60. *)
Lemma separation_in_binary64 :
  let d := Binary64.distance Binary64.onCenter Binary64.nearCenter in
  let p := Binary64.separate Binary64.onCenter Binary64.nearCenter d 60 0 0 0 0 in
  d = 25%float /\
  PrimFloat.ltb d (Binary64.distance (fst p) (snd p)) = true /\
  PrimFloat.ltb (Binary64.distance (fst p) (snd p)) 60 = true /\
  Binary64.overlaps (fst p) (snd p) = true.
Proof. vm_compute. repeat split; reflexivity. Qed.

(** ** Special abilities *)

(** X10.  The ground slam of the heavy fighter acts only within 100 of the
    centre and off it: there it adds a velocity of length exactly 5 pointing
    away from the centre; elsewhere, and on the centre itself, it changes
    nothing. *)
Theorem ground_slam (f f' : Fighter.t) (cx cy : R) :
  let dx := Fighter.x f - cx in
  let dy := Fighter.y f - cy in
  let dist := sqrt (dx * dx + dy * dy) in
  HeavyFighter.useSpecialAbility f cx cy = Some f' ->
  (100 <= dist \/ dist = 0 -> f' = f) /\
  (0 < dist < 100 ->
   let ax := Fighter.vx f' - Fighter.vx f in
   let ay := Fighter.vy f' - Fighter.vy f in
   sqrt (ax * ax + ay * ay) = 5 /\
   ax * dx + ay * dy = 5 * dist /\
   Fighter.x f' = Fighter.x f /\ Fighter.y f' = Fighter.y f).
Proof.
  intros dx dy dist. unfold HeavyFighter.useSpecialAbility.
  fold dx dy dist. pose proof (norm_sq dx dy) as Hsq. fold dist in Hsq.
  destruct (ltb dist 100) eqn:H1;
    [apply ltb_true in H1|apply ltb_false in H1];
    (destruct (gtb dist 0) eqn:H2;
     [apply gtb_true in H2|apply gtb_false in H2]); simpl.
  - rewrite !div_ok by lra. simpl. intros [= <-]. simpl.
    split; [intros [?|?]; lra|]. intros _.
    replace (Fighter.vx f + dx / dist * 5 - Fighter.vx f)
      with (5 / dist * dx) by (field; lra).
    replace (Fighter.vy f + dy / dist * 5 - Fighter.vy f)
      with (5 / dist * dy) by (field; lra).
    split; [|split; [|auto]].
    + rewrite norm_scale by (apply Rlt_le, Rdiv_lt_0_compat; lra).
      fold dist. field. lra.
    + replace (5 / dist * dx * dx + 5 / dist * dy * dy)
        with (5 / dist * (dx * dx + dy * dy)) by ring.
      rewrite <- Hsq. field. lra.
  - intros [= <-]. split; [reflexivity|]. intros [? ?]. lra.
  - intros [= <-]. split; [reflexivity|]. intros [? ?]. lra.
  - intros [= <-]. split; [reflexivity|]. intros [? ?]. lra.
Qed.

(** X11.  The dash of the base fighter acts only farther than 200 from the
    centre: there it adds a velocity of length exactly 2 pointing at the
    centre; at 200 or nearer it changes nothing. *)
Theorem dash_to_center (f f' : Fighter.t) (cx cy : R) :
  let dx := cx - Fighter.x f in
  let dy := cy - Fighter.y f in
  let dist := sqrt (dx * dx + dy * dy) in
  BaseFighter.useSpecialAbility f cx cy = Some f' ->
  (dist <= 200 -> f' = f) /\
  (200 < dist ->
   let ax := Fighter.vx f' - Fighter.vx f in
   let ay := Fighter.vy f' - Fighter.vy f in
   sqrt (ax * ax + ay * ay) = 2 /\
   ax * dx + ay * dy = 2 * dist /\
   Fighter.x f' = Fighter.x f /\ Fighter.y f' = Fighter.y f).
Proof.
  intros dx dy dist. unfold BaseFighter.useSpecialAbility.
  fold dx dy dist. pose proof (norm_sq dx dy) as Hsq. fold dist in Hsq.
  destruct (gtb dist 200) eqn:H2;
    [apply gtb_true in H2|apply gtb_false in H2]; simpl.
  - rewrite !div_ok by lra. simpl. intros [= <-]. simpl.
    split; [intros; lra|]. intros _.
    replace (Fighter.vx f + dx / dist * 2 - Fighter.vx f)
      with (2 / dist * dx) by (field; lra).
    replace (Fighter.vy f + dy / dist * 2 - Fighter.vy f)
      with (2 / dist * dy) by (field; lra).
    split; [|split; [|auto]].
    + rewrite norm_scale by (apply Rlt_le, Rdiv_lt_0_compat; lra).
      fold dist. field. lra.
    + replace (2 / dist * dx * dx + 2 / dist * dy * dy)
        with (2 / dist * (dx * dx + dy * dy)) by ring.
      rewrite <- Hsq. field. lra.
  - intros [= <-]. split; [reflexivity|]. intros ?. lra.
Qed.

(** ** Bullets *)

Lemma shootBullet_fold (f : Fighter.t) (ang : nat -> R) (l : list nat)
  (a : ArcherState) :
  fold_left (fun acc i => ArcherFighter.shootBullet f acc (ang i)) l a
  = mkArcher (bullets a ++ map (fun i => ArcherFighter.newBullet f (ang i)) l)
      (shootAngle a) (shootCooldown a).
Proof.
  revert a. induction l as [|i l IH]; intros a; simpl.
  - rewrite app_nil_r. now destruct a.
  - rewrite IH. unfold ArcherFighter.shootBullet. simpl.
    now rewrite <- app_assoc.
Qed.

Lemma newBullet_on_circle (f : Fighter.t) (angle : R) :
  0 <= Fighter.radius f ->
  let b := ArcherFighter.newBullet f angle in
  sqrt ((Bullet.x b - Fighter.x f) * (Bullet.x b - Fighter.x f)
        + (Bullet.y b - Fighter.y f) * (Bullet.y b - Fighter.y f))
  = Fighter.radius f.
Proof.
  intros Hr. simpl.
  replace (Fighter.x f + cos angle * Fighter.radius f - Fighter.x f)
    with (Fighter.radius f * cos angle) by ring.
  replace (Fighter.y f + sin angle * Fighter.radius f - Fighter.y f)
    with (Fighter.radius f * sin angle) by ring.
  rewrite norm_scale by exact Hr.
  replace (cos angle * cos angle + sin angle * sin angle) with 1.
  - rewrite sqrt_1. ring.
  - pose proof (sin2_cos2 angle) as H. unfold Rsqr in H. lra.
Qed.

(** X12.  The archer's burst appends exactly eight bullets, 45 degrees
    apart starting at angle 0, whatever the cooldown; each starts on the
    archer's circle, is active and carries the archer's strength; the aim
    angle, the cooldown and the earlier bullets are untouched. *)
Theorem archer_burst (f : Fighter.t) (a : ArcherState) (cx cy : R) :
  0 <= Fighter.radius f ->
  let burst :=
    map (fun i => ArcherFighter.newBullet f (INR i * (PI / 4))) (seq 0 8) in
  archerState (ArcherFighter.useSpecialAbility f a cx cy)
  = Some (mkArcher (bullets a ++ burst) (shootAngle a) (shootCooldown a)) /\
  List.length burst = 8%nat /\
  Forall (fun b =>
            Bullet.active b = true /\
            Bullet.damage b = Fighter.strength f /\
            sqrt ((Bullet.x b - Fighter.x f) * (Bullet.x b - Fighter.x f)
                  + (Bullet.y b - Fighter.y f) * (Bullet.y b - Fighter.y f))
            = Fighter.radius f) burst /\
  Fighter.hp (ArcherFighter.useSpecialAbility f a cx cy) = Fighter.hp f.
Proof.
  intros Hr burst. unfold ArcherFighter.useSpecialAbility.
  rewrite (shootBullet_fold f (fun i => PI * 2 * INR i / 8)).
  unfold archerState. cbn [Fighter.variant Fighter.with_variant].
  split.
  - do 2 f_equal. f_equal. unfold burst. apply map_ext.
    intros i. f_equal. field.
  - split; [reflexivity|]. split; [|reflexivity].
    unfold burst. apply Forall_forall. intros b Hb.
    apply in_map_iff in Hb as (i&<-&_).
    split; [reflexivity|]. split; [reflexivity|].
    now apply newBullet_on_circle.
Qed.

(** A bullet the archer [f] keeps: active and within 500 of [f]. *)
Lemma updateBullets_kept (f : Fighter.t) (a : ArcherState) :
  Forall (fun b =>
            Bullet.active b = true /\
            sqrt ((Bullet.x b - Fighter.x f) * (Bullet.x b - Fighter.x f)
                  + (Bullet.y b - Fighter.y f) * (Bullet.y b - Fighter.y f))
            <= 500 /\
            exists b0,
              In b0 (bullets a) /\ Bullet.active b0 = true /\
              Bullet.x b = Bullet.x b0 + Bullet.vx b0 /\
              Bullet.y b = Bullet.y b0 + Bullet.vy b0 /\
              Bullet.vx b = Bullet.vx b0 /\ Bullet.vy b = Bullet.vy b0 /\
              Bullet.damage b = Bullet.damage b0)
         (bullets (ArcherFighter.updateBullets f a)) /\
  (List.length (bullets (ArcherFighter.updateBullets f a))
   <= List.length (bullets a))%nat.
Proof.
  simpl. split.
  - apply Forall_forall. intros b Hb.
    apply filter_In in Hb as [Hin Hact].
    apply in_map_iff in Hin as (b0&Hb0&Hin0).
    unfold ArcherFighter.moveBullet in Hb0.
    destruct (Bullet.active b0) eqn:Ha0.
    + subst b. simpl in *.
      destruct (gtb _ 500) eqn:Hd; [discriminate|].
      apply gtb_false in Hd.
      split; [reflexivity|]. split; [exact Hd|].
      exists b0. auto 10.
    + subst b. congruence.
  - rewrite <- (length_map (ArcherFighter.moveBullet f) (bullets a)).
    apply filter_length_le.
Qed.

(** X13.  After [updateBullets] every bullet the archer keeps is active and
    within 500 of the archer, and is one of the earlier active bullets moved
    by its own velocity; no bullet is added. *)
Theorem updateBullets_prunes (f : Fighter.t) (a : ArcherState) :
  let a' := ArcherFighter.updateBullets f a in
  Forall (fun b =>
            Bullet.active b = true /\
            sqrt ((Bullet.x b - Fighter.x f) * (Bullet.x b - Fighter.x f)
                  + (Bullet.y b - Fighter.y f) * (Bullet.y b - Fighter.y f))
            <= 500 /\
            exists b0,
              In b0 (bullets a) /\ Bullet.active b0 = true /\
              Bullet.x b = Bullet.x b0 + Bullet.vx b0 /\
              Bullet.y b = Bullet.y b0 + Bullet.vy b0 /\
              Bullet.vx b = Bullet.vx b0 /\ Bullet.vy b = Bullet.vy b0 /\
              Bullet.damage b = Bullet.damage b0)
         (bullets a') /\
  (List.length (bullets a') <= List.length (bullets a))%nat /\
  shootAngle a' = shootAngle a /\ shootCooldown a' = shootCooldown a.
Proof.
  intros a'. destruct (updateBullets_kept f a) as [H1 H2].
  split; [exact H1|]. split; [exact H2|]. split; reflexivity.
Qed.

Lemma bulletHits_deactivate (o : Fighter.t) (b : Bullet.t) :
  ArcherFighter.bulletHits o (ArcherFighter.deactivate b) = false.
Proof. reflexivity. Qed.

(** X14.  [checkBulletCollision] reports a hit exactly when some active
    bullet touches the target, keeps every bullet in the list (the ones that
    hit are only deactivated, position and damage kept), and leaves no bullet
    that could hit the same target again: a second check reports nothing. *)
Theorem bullet_hits_once (a : ArcherState) (o : Fighter.t) :
  let r := ArcherFighter.checkBulletCollision a o in
  (snd r = true <->
   Exists (fun b => ArcherFighter.bulletHits o b = true) (bullets a)) /\
  List.length (bullets (fst r)) = List.length (bullets a) /\
  Forall (fun b => ArcherFighter.bulletHits o b = false) (bullets (fst r)) /\
  snd (ArcherFighter.checkBulletCollision (fst r) o) = false /\
  bullets (fst (ArcherFighter.checkBulletCollision (fst r) o))
  = bullets (fst r).
Proof.
  simpl.
  assert (Hnone :
    Forall (fun b => ArcherFighter.bulletHits o b = false)
      (map (fun b => if ArcherFighter.bulletHits o b
                     then ArcherFighter.deactivate b else b) (bullets a))).
  { apply Forall_forall. intros b Hb.
    apply in_map_iff in Hb as (b0&<-&_).
    destruct (ArcherFighter.bulletHits o b0) eqn:Hh;
      [apply bulletHits_deactivate|exact Hh]. }
  split; [|split; [|split; [|split]]].
  - rewrite existsb_exists, Exists_exists. reflexivity.
  - apply length_map.
  - exact Hnone.
  - apply not_true_is_false. intros Hex.
    apply existsb_exists in Hex as (b&Hb&Hh).
    rewrite Forall_forall in Hnone. rewrite (Hnone b Hb) in Hh. discriminate.
  - rewrite Forall_forall in Hnone.
    rewrite <- (map_id (map _ (bullets a))) at 2.
    apply map_ext_in. intros b Hb. now rewrite (Hnone b Hb).
Qed.

(** ** What damage a frame applies *)

Lemma bodyDamage_log (f1 f2 : Fighter.t) (gate : bool) :
  snd (bodyDamage f1 f2 gate)
  = (if gate && Fighter.dealsBodyDamage f1
     then [mkHit Body Second (Fighter.strength f1)] else [])
    ++ (if gate && Fighter.dealsBodyDamage f2
        then [mkHit Body First (Fighter.strength f2)] else []).
Proof.
  unfold bodyDamage. destruct gate; [|reflexivity].
  assert (Es : Fighter.strength (takeDamage f2 (Fighter.strength f1))
               = Fighter.strength f2) by apply takeDamage_stable.
  assert (Ed : Fighter.dealsBodyDamage (takeDamage f2 (Fighter.strength f1))
               = Fighter.dealsBodyDamage f2) by apply takeDamage_stable.
  destruct (Fighter.dealsBodyDamage f1); simpl; rewrite ?Ed;
    destruct (Fighter.dealsBodyDamage f2); simpl; rewrite ?Es; reflexivity.
Qed.

Lemma contactPhase_log (h1 h2 k1 k2 : Fighter.t) (dist minDist : R)
  (balls sq bh b : bool) (rnd : Rnd) (logD : list Hit) :
  contactPhase h1 h2 dist minDist balls sq bh rnd = Some (k1, k2, b, logD) ->
  exists gate,
    logD
    = (if gate && Fighter.dealsBodyDamage h1
       then [mkHit Body Second (Fighter.strength h1)] else [])
      ++ (if gate && Fighter.dealsBodyDamage h2
          then [mkHit Body First (Fighter.strength h2)] else []).
Proof.
  unfold contactPhase.
  destruct (ltb dist minDist && gtb dist 0).
  - pose proof (bodyDamage_log h1 h2
                  (negb balls && negb sq && negb bh)) as Hl.
    destruct (bodyDamage h1 h2 _) as [[g1 g2] logB]. simpl in Hl.
    destruct (separate g1 g2 dist minDist rnd) as [[s1 s2]|]; [|discriminate].
    simpl. intros [= <- <- <- <-]. eexists. exact Hl.
  - destruct (sq || bh); intros [= <- <- <- <-]; exists false; reflexivity.
Qed.

Lemma hitPhase_log (f1 f2 h1 h2 : Fighter.t) (balls sq bh : bool)
  (log : list Hit) :
  hitPhase f1 f2 balls = (h1, h2, sq, bh, log) ->
  exists s1 s2 p1 p2 : bool,
    log
    = (if s1 then [mkHit Square Second (Fighter.strength f1)] else [])
      ++ (if s2 then [mkHit Square First (Fighter.strength f2)] else [])
      ++ (if p1 then [mkHit Projectile Second (Fighter.strength f1)] else [])
      ++ (if p2 then [mkHit Projectile First (Fighter.strength f2)] else []).
Proof.
  unfold hitPhase.
  destruct (squareStrike f1 f2 balls Second) as [[d2 hit12] logS1] eqn:E1.
  destruct (squareStrike d2 f1 balls First) as [[d1 hit21] logS2] eqn:E2.
  destruct (bulletStrike d1 d2 Second) as [[[b1 b2] bhit12] logB1] eqn:E3.
  destruct (bulletStrike b2 b1 First) as [[[c2 c1] bhit21] logB2] eqn:E4.
  intros [= <- <- <- <- <-].
  apply squareStrike_spec in E1, E2.
  apply bulletStrike_spec in E3 as [[Sb1 Hb1] E3], E4 as [[Sc2 Hc2] E4].
  assert (S2 : Fighter.strength d2 = Fighter.strength f2).
  { destruct E1 as [(_&->&_)|(_&_&->&_)];
      [reflexivity|apply takeDamage_stable]. }
  assert (S1 : Fighter.strength d1 = Fighter.strength f1).
  { destruct E2 as [(_&->&_)|(_&_&->&_)];
      [reflexivity|apply takeDamage_stable]. }
  assert (T2 : Fighter.strength b2 = Fighter.strength f2).
  { rewrite <- S2. destruct E3 as [(_&->&_)|(_&->&_)];
      [reflexivity|apply takeDamage_stable]. }
  exists hit12, hit21, bhit12, bhit21.
  destruct E1 as [(->&_&->)|(->&_&_&->)], E2 as [(->&_&->)|(->&_&_&->)],
    E3 as [(->&_&->)|(->&_&->)], E4 as [(->&_&->)|(->&_&->)];
    rewrite ?S1, ?S2, ?T2; reflexivity.
Qed.

(** The log of a frame, entry by entry. *)
Lemma updatePhysics_log (a a' : Arena) (rnd : Rnd) (log : list Hit)
  (f1 f2 : Fighter.t) :
  fighter1 a = Some f1 -> fighter2 a = Some f2 ->
  updatePhysics a rnd = Some (a', log) ->
  exists s1 s2 p1 p2 gate : bool,
    log
    = (if s1 then [mkHit Square Second (Fighter.strength f1)] else [])
      ++ (if s2 then [mkHit Square First (Fighter.strength f2)] else [])
      ++ (if p1 then [mkHit Projectile Second (Fighter.strength f1)] else [])
      ++ (if p2 then [mkHit Projectile First (Fighter.strength f2)] else [])
      ++ (if gate && Fighter.dealsBodyDamage f1
          then [mkHit Body Second (Fighter.strength f1)] else [])
      ++ (if gate && Fighter.dealsBodyDamage f2
          then [mkHit Body First (Fighter.strength f2)] else []).
Proof.
  intros E1 E2 Hu.
  destruct (updatePhysics_inv _ _ _ _ _ _ E1 E2 Hu)
    as (g1&g2&h1&h2&sq&bh&logH&k1&k2&b&logD&w1&w2&Hi&Hh&Hc&Hw&->&->).
  pose proof (integrate_stable _ _ _ _ _ _ Hi) as [Sg1 Sg2].
  pose proof (hitPhase_log _ _ _ _ _ _ _ _ Hh) as (s1&s2&p1&p2&->).
  apply hitPhase_spec in Hh as ((Sh1&Sh2)&_).
  apply contactPhase_log in Hc as (gate&->).
  pose proof (stable_trans _ _ _ Sg1 Sh1) as (A1&_&_&B1).
  pose proof (stable_trans _ _ _ Sg2 Sh2) as (A2&_&_&B2).
  destruct Sg1 as (C1&_), Sg2 as (C2&_).
  exists s1, s2, p1, p2, gate.
  rewrite A1, A2, B1, B2, C1, C2. now rewrite <- !app_assoc.
Qed.

(** X15.  In one frame a fighter takes at most one hit of each kind (square,
    projectile, body), however many bullets touch it; every hit carries the
    strength the attacker had when the frame began. *)
Theorem one_hit_per_kind (a a' : Arena) (rnd : Rnd) (log : list Hit)
  (f1 f2 : Fighter.t) :
  fighter1 a = Some f1 -> fighter2 a = Some f2 ->
  updatePhysics a rnd = Some (a', log) ->
  (forall c tgt, (List.length (filter (isHit c tgt) log) <= 1)%nat) /\
  (List.length log <= 4)%nat /\
  Forall (fun h => amount h = attackerStrength f1 f2 (target h)) log.
Proof.
  intros E1 E2 Hu.
  destruct (updatePhysics_log _ _ _ _ _ _ E1 E2 Hu)
    as (s1&s2&p1&p2&gate&Hlog).
  pose proof (updatePhysics_spec _ _ _ _ _ _ E1 E2 Hu)
    as (w1&w2&d&m&_&_&_&_&_&Hbody&_).
  subst log. split; [|split].
  - intros c tgt.
    destruct s1, s2, p1, p2, (gate && Fighter.dealsBodyDamage f1),
      (gate && Fighter.dealsBodyDamage f2), c, tgt; simpl; lia.
  - destruct s1, s2, p1, p2, (gate && Fighter.dealsBodyDamage f1),
      (gate && Fighter.dealsBodyDamage f2); simpl in *; try lia;
      exfalso;
      match type of Hbody with
      | ?P -> _ =>
          assert (Hb : P)
            by (repeat rewrite hasCause_cons; simpl; intuition)
      end;
      destruct (Hbody Hb) as (_&_&HnS&HnP);
      first [ apply HnS; repeat rewrite hasCause_cons; simpl;
              solve [intuition]
            | apply HnP; repeat rewrite hasCause_cons; simpl;
              solve [intuition] ].
  - destruct s1, s2, p1, p2, (gate && Fighter.dealsBodyDamage f1),
      (gate && Fighter.dealsBodyDamage f2); simpl;
      repeat constructor.
Qed.

(** X16.  Body damage comes only from a fighter whose [dealsBodyDamage]
    flag is set: a frame applies no body damage to the opponent of a fighter
    without the flag (the heavy fighter and the archer), and none at all when
    neither fighter has it. *)
Theorem body_damage_needs_flag (a a' : Arena) (rnd : Rnd) (log : list Hit)
  (f1 f2 : Fighter.t) :
  fighter1 a = Some f1 -> fighter2 a = Some f2 ->
  updatePhysics a rnd = Some (a', log) ->
  (Fighter.dealsBodyDamage f1 = false ->
   filter (isHit Body Second) log = []) /\
  (Fighter.dealsBodyDamage f2 = false ->
   filter (isHit Body First) log = []) /\
  (Fighter.dealsBodyDamage f1 = false ->
   Fighter.dealsBodyDamage f2 = false -> ~ hasCause Body log).
Proof.
  intros E1 E2 Hu.
  destruct (updatePhysics_log _ _ _ _ _ _ E1 E2 Hu)
    as (s1&s2&p1&p2&gate&->).
  split; [|split].
  - intros ->. rewrite andb_false_r.
    destruct s1, s2, p1, p2, (gate && Fighter.dealsBodyDamage f2);
      reflexivity.
  - intros ->. rewrite andb_false_r.
    destruct s1, s2, p1, p2, (gate && Fighter.dealsBodyDamage f1);
      reflexivity.
  - intros -> ->. rewrite andb_false_r.
    destruct s1, s2, p1, p2; simpl; repeat rewrite hasCause_cons; simpl;
      pose proof (hasCause_nil Body); intuition discriminate.
Qed.

(** ** What a whole game keeps *)

(** The strength timer on one fighter: strength grows by the gain rate in
    the centre zone and nothing else changes. *)
Lemma gainIfInCenter_grows (f : Fighter.t) (cx cy : R) :
  Fighter.maxHp (gainIfInCenter f cx cy) = Fighter.maxHp f /\
  Fighter.radius (gainIfInCenter f cx cy) = Fighter.radius f /\
  Fighter.dealsBodyDamage (gainIfInCenter f cx cy)
  = Fighter.dealsBodyDamage f /\
  Fighter.hp (gainIfInCenter f cx cy) = Fighter.hp f /\
  Fighter.strength f <= Fighter.strength (gainIfInCenter f cx cy) /\
  (Fighter.isInCenterZone f cx cy = true ->
   Fighter.strength (gainIfInCenter f cx cy)
   = Fighter.strength f + Fighter.strengthGainRate f) /\
  (Fighter.isInCenterZone f cx cy = false ->
   Fighter.strength (gainIfInCenter f cx cy) = Fighter.strength f).
Proof.
  unfold gainIfInCenter. pose proof (strengthGainRate_pos f).
  destruct (Fighter.isInCenterZone f cx cy); simpl;
    repeat split; intros; try discriminate; try lra.
Qed.

(** X17.  Over a whole game, whatever the frames, the random draws and the
    strength timer do, each fighter keeps its maxHp, its radius and its
    body-damage flag, and its strength never decreases. *)
Theorem game_keeps_statistics (es : list Event) (a a' : Arena)
  (f1 f2 : Fighter.t) :
  fighter1 a = Some f1 -> fighter2 a = Some f2 ->
  play a es = Some a' ->
  exists g1 g2,
    fighter1 a' = Some g1 /\ fighter2 a' = Some g2 /\
    (Fighter.maxHp g1 = Fighter.maxHp f1 /\
     Fighter.radius g1 = Fighter.radius f1 /\
     Fighter.dealsBodyDamage g1 = Fighter.dealsBodyDamage f1 /\
     Fighter.strength f1 <= Fighter.strength g1) /\
    (Fighter.maxHp g2 = Fighter.maxHp f2 /\
     Fighter.radius g2 = Fighter.radius f2 /\
     Fighter.dealsBodyDamage g2 = Fighter.dealsBodyDamage f2 /\
     Fighter.strength f2 <= Fighter.strength g2).
Proof.
  revert a f1 f2. induction es as [|e es IH]; intros a f1 f2 E1 E2; simpl.
  - intros [= <-]. exists f1, f2. repeat split; trivial; lra.
  - destruct (step a e) as [a1|] eqn:Hs; [|discriminate]. simpl. intros Hp.
    assert (exists h1 h2,
      fighter1 a1 = Some h1 /\ fighter2 a1 = Some h2 /\
      (Fighter.maxHp h1 = Fighter.maxHp f1 /\
       Fighter.radius h1 = Fighter.radius f1 /\
       Fighter.dealsBodyDamage h1 = Fighter.dealsBodyDamage f1 /\
       Fighter.strength f1 <= Fighter.strength h1) /\
      (Fighter.maxHp h2 = Fighter.maxHp f2 /\
       Fighter.radius h2 = Fighter.radius f2 /\
       Fighter.dealsBodyDamage h2 = Fighter.dealsBodyDamage f2 /\
       Fighter.strength f2 <= Fighter.strength h2))
      as (h1&h2&F1&F2&(A1&B1&C1&D1)&(A2&B2&C2&D2)).
    { destruct e as [rnd|]; simpl in Hs.
      - destruct (updatePhysics a rnd) as [[a2 log]|] eqn:Hu; [|discriminate].
        simpl in Hs. injection Hs as ->.
        destruct (updatePhysics_spec _ _ _ _ _ _ E1 E2 Hu)
          as (w1&w2&d&m&_&(F1&F2&_)&((P1&Q1&R1&S1)&(P2&Q2&R2&S2))&_).
        exists w1, w2. repeat split; trivial; lra.
      - injection Hs as <-. unfold checkAndIncreaseStrength.
        rewrite E1, E2. simpl. do 2 eexists.
        split; [reflexivity|]. split; [reflexivity|].
        destruct (gainIfInCenter_grows f1 (centerX a) (centerY a))
          as (?&?&?&_&?&_).
        destruct (gainIfInCenter_grows f2 (centerX a) (centerY a))
          as (?&?&?&_&?&_).
        auto 10. }
    destruct (IH a1 h1 h2 F1 F2 Hp) as (g1&g2&G1&G2&(K1&L1&M1&N1)&(K2&L2&M2&N2)).
    exists g1, g2. repeat split; trivial; try congruence; lra.
Qed.

(** ** The walls of a frame *)

Lemma wallPhase_split (ws : list Wall.t) (f1 f2 g1 g2 : Fighter.t) :
  wallPhase ws f1 f2 = Some (g1, g2) ->
  againstWalls ws f1 = Some g1 /\ againstWalls ws f2 = Some g2.
Proof.
  revert f1 f2. induction ws as [|w ws IH]; intros f1 f2; simpl.
  - intros [= <- <-]. auto.
  - destruct (checkCollisionWithWall f1 w) as [e1|]; [|discriminate].
    destruct (checkCollisionWithWall f2 w) as [e2|]; [|discriminate].
    simpl. apply IH.
Qed.

(** One wall: the fighter is left alone (it was clear of the wall, or sat
    on its centre) or it overlapped the wall and is moved; computed in the
    reals the move ends at the sum of the radii from the wall. *)
Lemma checkCollisionWithWall_cases (f f' : Fighter.t) (w : Wall.t) :
  checkCollisionWithWall f w = Some f' ->
  Fighter.radius f' = Fighter.radius f /\
  ((f' = f /\ (clearOf f w \/ distToWall f w = 0)) \/
   (0 < distToWall f w < Fighter.radius f + Wall.radius w /\
    distToWall f' w = Fighter.radius f + Wall.radius w)).
Proof.
  unfold checkCollisionWithWall, clearOf, distToWall.
  set (dx := Fighter.x f - Wall.x w). set (dy := Fighter.y f - Wall.y w).
  set (dist := sqrt (dx * dx + dy * dy)).
  set (minDist := Fighter.radius f + Wall.radius w).
  pose proof (sqrt_pos (dx * dx + dy * dy)) as Hnn. fold dist in Hnn.
  destruct (ltb dist minDist) eqn:H1;
    [apply ltb_true in H1|apply ltb_false in H1];
    (destruct (gtb dist 0) eqn:H2;
     [apply gtb_true in H2|apply gtb_false in H2]); simpl;
    try (intros [= <-]; split; [reflexivity|left; split; [reflexivity|]];
         first [left; lra | right; lra]).
  rewrite !div_ok by lra. simpl.
  assert (Hnew :
    sqrt ((Fighter.x f + dx / dist * (minDist - dist) - Wall.x w)
          * (Fighter.x f + dx / dist * (minDist - dist) - Wall.x w)
          + (Fighter.y f + dy / dist * (minDist - dist) - Wall.y w)
            * (Fighter.y f + dy / dist * (minDist - dist) - Wall.y w))
    = minDist).
  { replace (Fighter.x f + dx / dist * (minDist - dist) - Wall.x w)
      with (minDist / dist * dx) by (unfold dx; field; lra).
    replace (Fighter.y f + dy / dist * (minDist - dist) - Wall.y w)
      with (minDist / dist * dy) by (unfold dy; field; lra).
    rewrite norm_scale by (apply Rlt_le, Rdiv_lt_0_compat; lra).
    fold dist. field. lra. }
  destruct (ltb _ 0); intros [= <-]; simpl;
    (split; [reflexivity|right; split; [lra|exact Hnew]]).
Qed.

Lemma againstWalls_clear (ws : list Wall.t) (f : Fighter.t) :
  Forall (clearOf f) ws -> againstWalls ws f = Some f.
Proof.
  induction 1 as [|w ws Hw _ IH]; simpl; trivial.
  assert (Hc : checkCollisionWithWall f w = Some f).
  { unfold checkCollisionWithWall. unfold clearOf, distToWall in Hw.
    replace (ltb _ (Fighter.radius f + Wall.radius w)) with false;
      [reflexivity|symmetry; now apply ltb_false]. }
  rewrite Hc. simpl. exact IH.
Qed.

Lemma wall_triangle (f : Fighter.t) (w w' : Wall.t) :
  wallDist w w' <= distToWall f w + distToWall f w'.
Proof.
  pose proof (triangle (Wall.x w) (Wall.y w) (Wall.x w') (Wall.y w')
                (Fighter.x f) (Fighter.y f)) as H.
  unfold dist_euc, Rsqr in H. unfold wallDist, distToWall.
  replace ((Fighter.x f - Wall.x w) * (Fighter.x f - Wall.x w)
           + (Fighter.y f - Wall.y w) * (Fighter.y f - Wall.y w))
    with ((Wall.x w - Fighter.x f) * (Wall.x w - Fighter.x f)
          + (Wall.y w - Fighter.y f) * (Wall.y w - Fighter.y f)) by ring.
  exact H.
Qed.

(** Walls that are far enough from each other: a fighter moved by one of
    them is within reach of no other, and the loop moves it once at most. *)
Lemma againstWalls_once (all : list Wall.t) (r M : R) :
  (forall w, In w all -> r + Wall.radius w <= M) ->
  (forall w w', In w all -> In w' all -> w = w' \/ 2 * M <= wallDist w w') ->
  forall rest f g,
    incl rest all ->
    Fighter.radius f = r ->
    againstWalls rest f = Some g ->
    resolvedByOneWall rest f g.
Proof.
  intros Hsmall Hapart rest. unfold resolvedByOneWall.
  induction rest as [|w rest IH]; intros f g Hincl Hr; simpl.
  - intros [= <-]. left; auto.
  - destruct (checkCollisionWithWall f w) as [f1|] eqn:Hc; [|discriminate].
    simpl. intros Hrest.
    assert (Hin : In w all) by (apply Hincl; now left).
    assert (Hincl' : incl rest all)
      by (intros v Hv; apply Hincl; now right).
    destruct (checkCollisionWithWall_cases _ _ _ Hc)
      as [Hr1 [[-> Hstay]|[Hover Hmoved]]].
    + destruct (IH f g Hincl' Hr Hrest) as [[-> Hall]|(w'&Hin'&Hov'&Hc')].
      * left. split; [reflexivity|]. now constructor.
      * right. exists w'. auto.
    + assert (Hsub : Forall (clearOf f1) rest).
      { apply Forall_forall. intros w' Hin'. unfold clearOf. rewrite Hr1.
        assert (Hall' : In w' all) by (apply Hincl'; exact Hin').
        destruct (Hapart w w' Hin Hall') as [<-|Hfar]; [lra|].
        pose proof (wall_triangle f1 w w').
        pose proof (Hsmall w Hin). pose proof (Hsmall w' Hall'). lra. }
      rewrite (againstWalls_clear rest f1 Hsub) in Hrest.
      injection Hrest as <-.
      right. exists w. split; [now left|]. split; [lra|exact Hc].
Qed.

Lemma againstWalls_standard (a : Arena) (f g : Fighter.t) :
  Fighter.radius f <= 160 ->
  againstWalls (walls (updateWalls a)) f = Some g ->
  resolvedByOneWall (walls (updateWalls a)) f g.
Proof.
  intros Hr Hg.
  apply (againstWalls_once (walls (updateWalls a)) (Fighter.radius f) 200);
    trivial.
  - intros w Hin. simpl in Hin. unfold WALL_RADIUS in Hin.
    destruct Hin as [<-|[<-|[<-|[<-|[]]]]]; simpl; lra.
  - intros w w' Hin Hin'. simpl in Hin, Hin'.
    unfold WALL_RADIUS, WALL_DISTANCE in *.
    destruct Hin as [<-|[<-|[<-|[<-|[]]]]];
      destruct Hin' as [<-|[<-|[<-|[<-|[]]]]];
      first [ left; reflexivity
            | right; unfold wallDist; simpl;
              apply sqrt_ge_bound; [lra|ring_simplify; lra] ].
  - apply incl_refl.
Qed.

(** X18.  With the four walls that [updateWalls] lays out, the wall loop of
    a frame moves a fighter of radius up to 160 at most once: either it
    leaves the fighter as it was, every wall being clear of it or centred on
    it, or the fighter overlapped one wall and comes out of the loop as the
    resolution against that wall left it.  The walls are too far apart for
    two of them to be overlapped at once, or for the push out of one to
    reach another. *)
Theorem wall_loop_moves_once (a : Arena) (f1 f2 g1 g2 : Fighter.t) :
  Fighter.radius f1 <= 160 ->
  Fighter.radius f2 <= 160 ->
  wallPhase (walls (updateWalls a)) f1 f2 = Some (g1, g2) ->
  resolvedByOneWall (walls (updateWalls a)) f1 g1 /\
  resolvedByOneWall (walls (updateWalls a)) f2 g2.
Proof.
  intros R1 R2 Hw. apply wallPhase_split in Hw as [H1 H2].
  split.
  - exact (againstWalls_standard a f1 g1 R1 H1).
  - exact (againstWalls_standard a f2 g2 R2 H2).
Qed.

(** ** The rotating square *)

Lemma square_center_distance (f : Fighter.t) (h : HeavyState) :
  let c := HeavyFighter.getSquarePosition f h in
  sqrt ((Fighter.x f - fst c) * (Fighter.x f - fst c)
        + (Fighter.y f - snd c) * (Fighter.y f - snd c))
  = HeavyFighter.squareDistance.
Proof.
  simpl. unfold HeavyFighter.squareDistance.
  replace (Fighter.x f - (Fighter.x f + cos (squareRotation h) * 60))
    with (60 * - cos (squareRotation h)) by ring.
  replace (Fighter.y f - (Fighter.y f + sin (squareRotation h) * 60))
    with (60 * - sin (squareRotation h)) by ring.
  rewrite norm_scale by lra.
  replace (- cos (squareRotation h) * - cos (squareRotation h)
           + - sin (squareRotation h) * - sin (squareRotation h)) with 1.
  - rewrite sqrt_1. ring.
  - pose proof (sin2_cos2 (squareRotation h)) as H. unfold Rsqr in H. lra.
Qed.

Lemma sqrt2_ge_1 : 1 <= sqrt 2.
Proof. rewrite <- sqrt_1 at 1. apply sqrt_le_1_alt. lra. Qed.

(** X19.  The reach of the heavy fighter's square: it can only hit a fighter
    whose centre is within [squareDistance + sqrt 2 * squareSize / 2 + radius]
    of the heavy fighter's centre, and it always hits a fighter whose circle
    comes nearer than [squareSize / 2] to the centre of the square. *)
Theorem square_reach (f : Fighter.t) (h : HeavyState) (o : Fighter.t) :
  let c := HeavyFighter.getSquarePosition f h in
  let toSquare :=
    sqrt ((Fighter.x o - fst c) * (Fighter.x o - fst c)
          + (Fighter.y o - snd c) * (Fighter.y o - snd c)) in
  (HeavyFighter.checkSquareCollisionWithFighter f h o = true ->
   Fighter.getDistanceTo f o
   <= HeavyFighter.squareDistance
      + sqrt 2 * (HeavyFighter.squareSize / 2) + Fighter.radius o) /\
  (toSquare < HeavyFighter.squareSize / 2 + Fighter.radius o ->
   HeavyFighter.checkSquareCollisionWithFighter f h o = true).
Proof.
  intros c toSquare.
  pose proof (square_center_distance f h) as Hc. fold c in Hc.
  unfold HeavyFighter.checkSquareCollisionWithFighter.
  fold c. fold toSquare.
  pose proof sqrt2_ge_1 as H2.
  assert (Hs : 0 <= HeavyFighter.squareSize / 2)
    by (unfold HeavyFighter.squareSize; lra).
  split.
  - destruct (gtb toSquare _) eqn:Hg; [discriminate|].
    apply gtb_false in Hg. intros _.
    unfold Fighter.getDistanceTo.
    replace (Fighter.x f - Fighter.x o)
      with ((Fighter.x f - fst c) + (fst c - Fighter.x o)) by ring.
    replace (Fighter.y f - Fighter.y o)
      with ((Fighter.y f - snd c) + (snd c - Fighter.y o)) by ring.
    eapply Rle_trans; [apply norm_triangle|].
    rewrite Hc.
    replace ((fst c - Fighter.x o) * (fst c - Fighter.x o)
             + (snd c - Fighter.y o) * (snd c - Fighter.y o))
      with ((Fighter.x o - fst c) * (Fighter.x o - fst c)
            + (Fighter.y o - snd c) * (Fighter.y o - snd c)) by ring.
    fold toSquare. lra.
  - intros Hnear.
    replace (gtb toSquare _) with false
      by (symmetry; apply gtb_false; nra).
    replace (ltb toSquare _) with true
      by (symmetry; apply ltb_true; exact Hnear).
    apply orb_true_r.
Qed.

Lemma quarter_turn (t : R) :
  cos (t + PI / 2) = - sin t /\ sin (t + PI / 2) = cos t.
Proof.
  rewrite cos_plus, sin_plus, cos_PI2, sin_PI2. split; ring.
Qed.

Lemma unit_circle (t : R) : cos t * cos t + sin t * sin t = 1.
Proof. pose proof (sin2_cos2 t) as H. unfold Rsqr in H. lra. Qed.

(** Two points of a circle of radius [d] a quarter turn apart are
    [sqrt 2 * d] apart. *)
Lemma quarter_chord (x y d t : R) :
  0 <= d ->
  dist2 (x + cos t * d, y + sin t * d)
        (x + cos (t + PI / 2) * d, y + sin (t + PI / 2) * d)
  = sqrt 2 * d.
Proof.
  intros Hd. unfold dist2. simpl.
  destruct (quarter_turn t) as [-> ->].
  replace (x + cos t * d - (x + - sin t * d)) with (d * (cos t + sin t))
    by ring.
  replace (y + sin t * d - (y + cos t * d)) with (d * (sin t - cos t))
    by ring.
  rewrite norm_scale by exact Hd.
  replace ((cos t + sin t) * (cos t + sin t)
           + (sin t - cos t) * (sin t - cos t))
    with (2 * (cos t * cos t + sin t * sin t)) by ring.
  rewrite unit_circle. replace (2 * 1) with 2 by ring. ring.
Qed.

Lemma on_circle (c : R * R) (d t : R) :
  0 <= d -> dist2 (fst c + cos t * d, snd c + sin t * d) c = d.
Proof.
  intros Hd. unfold dist2. simpl.
  replace (fst c + cos t * d - fst c) with (d * cos t) by ring.
  replace (snd c + sin t * d - snd c) with (d * sin t) by ring.
  rewrite norm_scale by exact Hd. rewrite unit_circle, sqrt_1. ring.
Qed.

(** X20.  [getSquareCorners] returns four points that form a square of side
    [squareSize] around the centre of the hazard: each is at
    [sqrt 2 * squareSize / 2] from the centre, and each is [squareSize] from
    the next one, the last from the first. *)
Theorem square_corners (f : Fighter.t) (h : HeavyState) :
  let cs := HeavyFighter.getSquareCorners f h in
  let c := HeavyFighter.getSquarePosition f h in
  List.length cs = 4%nat /\
  Forall (fun p => dist2 p c = sqrt 2 * (HeavyFighter.squareSize / 2)) cs /\
  (forall i, (i < 4)%nat ->
     dist2 (nth i cs (0, 0)) (nth ((i + 1) mod 4) cs (0, 0))
     = HeavyFighter.squareSize).
Proof.
  intros cs c.
  assert (Hd : 0 <= sqrt 2 * (HeavyFighter.squareSize / 2))
    by (pose proof sqrt2_ge_1; unfold HeavyFighter.squareSize; nra).
  assert (Hside : sqrt 2 * (sqrt 2 * (HeavyFighter.squareSize / 2))
                  = HeavyFighter.squareSize).
  { rewrite <- Rmult_assoc, sqrt_sqrt by lra. field. }
  split; [reflexivity|]. split.
  - unfold cs, HeavyFighter.getSquareCorners. fold c.
    apply Forall_forall. intros p Hp.
    apply in_map_iff in Hp as (i&<-&_).
    now apply on_circle.
  - intros i Hi. rewrite <- Hside.
    set (t0 := squareRotation h + PI / 4).
    set (d := sqrt 2 * (HeavyFighter.squareSize / 2)) in *.
    assert (E0 : nth 0 cs (0, 0) = (fst c + cos t0 * d, snd c + sin t0 * d)).
    { unfold cs, HeavyFighter.getSquareCorners. simpl. fold c d.
      replace (squareRotation h + PI / 4 + 0 * PI / 2) with t0
        by (unfold t0; field). reflexivity. }
    assert (E1 : nth 1 cs (0, 0)
                 = (fst c + cos (t0 + PI / 2) * d,
                    snd c + sin (t0 + PI / 2) * d)).
    { unfold cs, HeavyFighter.getSquareCorners. simpl. fold c d.
      replace (squareRotation h + PI / 4 + 1 * PI / 2) with (t0 + PI / 2)
        by (unfold t0; field). reflexivity. }
    assert (E2 : nth 2 cs (0, 0)
                 = (fst c + cos (t0 + PI / 2 + PI / 2) * d,
                    snd c + sin (t0 + PI / 2 + PI / 2) * d)).
    { unfold cs, HeavyFighter.getSquareCorners. simpl. fold c d.
      replace (squareRotation h + PI / 4 + (1 + 1) * PI / 2)
        with (t0 + PI / 2 + PI / 2) by (unfold t0; field). reflexivity. }
    assert (E3 : nth 3 cs (0, 0)
                 = (fst c + cos (t0 + PI / 2 + PI / 2 + PI / 2) * d,
                    snd c + sin (t0 + PI / 2 + PI / 2 + PI / 2) * d)).
    { unfold cs, HeavyFighter.getSquareCorners. simpl. fold c d.
      replace (squareRotation h + PI / 4 + (1 + 1 + 1) * PI / 2)
        with (t0 + PI / 2 + PI / 2 + PI / 2) by (unfold t0; field).
      reflexivity. }
    assert (E4 : (fst c + cos t0 * d, snd c + sin t0 * d)
                 = (fst c + cos (t0 + PI / 2 + PI / 2 + PI / 2 + PI / 2) * d,
                    snd c + sin (t0 + PI / 2 + PI / 2 + PI / 2 + PI / 2) * d)).
    { replace (t0 + PI / 2 + PI / 2 + PI / 2 + PI / 2) with (t0 + 2 * PI)
        by field.
      now rewrite cos_plus, sin_plus, cos_2PI, sin_2PI, !Rmult_0_r,
        !Rmult_1_r, Rminus_0_r, Rplus_0_r. }
    destruct i as [|[|[|[|i]]]]; [| | | |lia];
      cbn [Nat.add Nat.modulo Nat.divmod fst snd Nat.sub];
      rewrite ?E0, ?E1, ?E2, ?E3.
    + now apply quarter_chord.
    + now apply quarter_chord.
    + now apply quarter_chord.
    + rewrite E4. now apply quarter_chord.
Qed.

Lemma Rabs_le_sq (v b : R) : Rabs v <= b -> v * v <= b * b.
Proof.
  intros H. pose proof (Rabs_pos v).
  unfold Rabs in *. destruct (Rcase_abs v); nra.
Qed.

(** A point the square contains is within [sqrt 2 * squareSize / 2] of
    its centre. *)
Lemma isPointInSquare_near (f : Fighter.t) (h : HeavyState) (px py : R) :
  HeavyFighter.isPointInSquare f h px py = true ->
  let c := HeavyFighter.getSquarePosition f h in
  (px - fst c) * (px - fst c) + (py - snd c) * (py - snd c)
  <= 2 * (HeavyFighter.squareSize / 2 * (HeavyFighter.squareSize / 2)).
Proof.
  unfold HeavyFighter.isPointInSquare. intros H.
  set (c := HeavyFighter.getSquarePosition f h) in *.
  apply andb_true_iff in H as [Hx Hy].
  unfold leb in Hx, Hy.
  destruct (Rle_dec _ _) as [Lx|]; [|discriminate].
  destruct (Rle_dec _ _) as [Ly|]; [|discriminate].
  apply Rabs_le_sq in Lx, Ly.
  set (dx := px - fst c) in *. set (dy := py - snd c) in *.
  set (co := cos (- squareRotation h)) in *.
  set (si := sin (- squareRotation h)) in *.
  pose proof (unit_circle (- squareRotation h)) as Hu. fold co si in Hu.
  replace (dx * dx + dy * dy)
    with ((dx * co - dy * si) * (dx * co - dy * si)
          + (dx * si + dy * co) * (dx * si + dy * co)).
  - lra.
  - transitivity ((dx * dx + dy * dy) * (co * co + si * si)); [ring|].
    rewrite Hu. ring.
Qed.

(** X21.  The coarse distance test at the start of
    [checkSquareCollisionWithFighter] only saves work: for a target whose
    radius is not negative, the result is that of the precise test alone
    (the centre is inside the square, or the circle comes nearer than
    [squareSize / 2] to the centre of the square). *)
Theorem square_pretest_is_sound (f : Fighter.t) (h : HeavyState)
  (o : Fighter.t) :
  0 <= Fighter.radius o ->
  let c := HeavyFighter.getSquarePosition f h in
  let toSquare :=
    sqrt ((Fighter.x o - fst c) * (Fighter.x o - fst c)
          + (Fighter.y o - snd c) * (Fighter.y o - snd c)) in
  HeavyFighter.checkSquareCollisionWithFighter f h o
  = HeavyFighter.isPointInSquare f h (Fighter.x o) (Fighter.y o)
    || ltb toSquare (HeavyFighter.squareSize / 2 + Fighter.radius o).
Proof.
  intros Hr c toSquare.
  unfold HeavyFighter.checkSquareCollisionWithFighter.
  fold c. fold toSquare.
  destruct (gtb toSquare _) eqn:Hg; [|reflexivity].
  apply gtb_true in Hg. symmetry. apply orb_false_iff.
  pose proof sqrt2_ge_1 as H2.
  assert (Hs : HeavyFighter.squareSize / 2 = 15)
    by (unfold HeavyFighter.squareSize; lra).
  rewrite Hs in *.
  split.
  - apply not_true_is_false. intros Hin.
    apply isPointInSquare_near in Hin. fold c in Hin. rewrite Hs in Hin.
    pose proof (norm_sq (Fighter.x o - fst c) (Fighter.y o - snd c)) as Hsq.
    fold toSquare in Hsq.
    pose proof (sqrt_sqrt 2) as H22.
    assert (Hlow : sqrt 2 * 15 < toSquare) by lra.
    assert (0 < sqrt 2 * 15) by lra.
    assert (sqrt 2 * 15 * (sqrt 2 * 15) < toSquare * toSquare) by nra.
    assert (sqrt 2 * 15 * (sqrt 2 * 15) = 450).
    { transitivity (sqrt 2 * sqrt 2 * 225); [ring|]. rewrite H22; lra. }
    lra.
  - apply ltb_false. nra.
Qed.

(** ** Rates: shots and regeneration *)

Lemma moveBullet_ext (f f' : Fighter.t) (b : Bullet.t) :
  Fighter.x f' = Fighter.x f -> Fighter.y f' = Fighter.y f ->
  ArcherFighter.moveBullet f' b = ArcherFighter.moveBullet f b.
Proof. intros Hx Hy. unfold ArcherFighter.moveBullet. now rewrite Hx, Hy. Qed.

Lemma agedBullets_ext (f f' : Fighter.t) (n : nat) (bs : list Bullet.t) :
  Fighter.x f' = Fighter.x f -> Fighter.y f' = Fighter.y f ->
  agedBullets f' n bs = agedBullets f n bs.
Proof.
  intros Hx Hy. revert bs. induction n as [|n IH]; intros bs; simpl; trivial.
  rewrite IH. do 2 f_equal. apply map_ext. intros b.
  now apply moveBullet_ext.
Qed.

(** Every bullet left after [n] updates is one of the first list, moved [n]
    times by its own velocity. *)
Lemma agedBullets_origin (f : Fighter.t) (n : nat) (bs : list Bullet.t)
  (b : Bullet.t) :
  In b (agedBullets f n bs) ->
  exists b0,
    In b0 bs /\
    Bullet.damage b = Bullet.damage b0 /\
    Bullet.vx b = Bullet.vx b0 /\ Bullet.vy b = Bullet.vy b0 /\
    Bullet.x b = Bullet.x b0 + INR n * Bullet.vx b0 /\
    Bullet.y b = Bullet.y b0 + INR n * Bullet.vy b0.
Proof.
  revert bs. induction n as [|n IH]; intros bs Hin.
  - exists b. simpl in *. repeat split; trivial; lra.
  - cbn [agedBullets] in Hin.
    destruct (IH _ Hin) as (b1&Hin1&Hd&Hvx&Hvy&Hx&Hy).
    apply filter_In in Hin1 as [Hin1 Hact].
    apply in_map_iff in Hin1 as (b0&Hb0&Hin0).
    exists b0. split; [exact Hin0|].
    unfold ArcherFighter.moveBullet in Hb0.
    destruct (Bullet.active b0) eqn:Ha0; [|subst b1; congruence].
    rewrite S_INR. subst b1. simpl in Hd, Hvx, Hvy, Hx, Hy.
    repeat split; try assumption; lra.
Qed.

Lemma agedBullets_length (f : Fighter.t) (n : nat) (bs : list Bullet.t) :
  (List.length (agedBullets f n bs) <= List.length bs)%nat.
Proof.
  revert bs. induction n as [|n IH]; intros bs; simpl; [lia|].
  etransitivity; [apply IH|].
  rewrite <- (length_map (ArcherFighter.moveBullet f) bs).
  apply filter_length_le.
Qed.

Lemma Archer_countdown_step (f : Fighter.t) (a : ArcherState) (cx cy : R) :
  Fighter.variant f = ArcherV a ->
  0 < shootCooldown a ->
  exists a',
    Fighter.variant (passiveAbility f cx cy) = ArcherV a' /\
    shootCooldown a' = shootCooldown a - 1 /\
    shootAngle a' = shootAngle a + ArcherFighter.shootRotationSpeed /\
    bullets a'
    = filter Bullet.active (map (ArcherFighter.moveBullet f) (bullets a)).
Proof.
  intros Hv Hc. unfold passiveAbility. rewrite Hv.
  unfold ArcherFighter.passiveAbility. simpl.
  replace (gtb (shootCooldown a) 0) with true
    by (symmetry; now apply gtb_true).
  eexists. split; [reflexivity|].
  split; [reflexivity|]. split; reflexivity.
Qed.

(** X22.  While the cooldown runs the archer does not shoot: from a
    cooldown [c], [n] passive ticks with [n < c + 1] lower the cooldown by
    exactly [n], advance the aim by [n * 0.08] and add no bullet: the
    bullets afterwards are the earlier ones, moved and pruned [n] times,
    each an earlier bullet displaced by [n] times its own velocity. *)
Theorem archer_waits_for_cooldown (cs : list (R * R)) (f : Fighter.t)
  (a : ArcherState) :
  Fighter.variant f = ArcherV a ->
  INR (List.length cs) < shootCooldown a + 1 ->
  exists a',
    Fighter.variant (passiveAlong cs f) = ArcherV a' /\
    shootCooldown a' = shootCooldown a - INR (List.length cs) /\
    shootAngle a'
    = shootAngle a + INR (List.length cs) * ArcherFighter.shootRotationSpeed /\
    bullets a' = agedBullets f (List.length cs) (bullets a) /\
    Forall (fun b =>
              exists b0,
                In b0 (bullets a) /\
                Bullet.damage b = Bullet.damage b0 /\
                Bullet.vx b = Bullet.vx b0 /\ Bullet.vy b = Bullet.vy b0 /\
                Bullet.x b
                = Bullet.x b0 + INR (List.length cs) * Bullet.vx b0 /\
                Bullet.y b
                = Bullet.y b0 + INR (List.length cs) * Bullet.vy b0)
           (bullets a') /\
    (List.length (bullets a') <= List.length (bullets a))%nat.
Proof.
  intros Hv Hn.
  assert (Hmain : exists a',
    Fighter.variant (passiveAlong cs f) = ArcherV a' /\
    shootCooldown a' = shootCooldown a - INR (List.length cs) /\
    shootAngle a'
    = shootAngle a + INR (List.length cs) * ArcherFighter.shootRotationSpeed /\
    bullets a' = agedBullets f (List.length cs) (bullets a)).
  { revert f a Hv Hn. induction cs as [|[cx cy] cs IH]; intros f a Hv Hn.
    - exists a. simpl. repeat split; trivial; lra.
    - cbn [List.length passiveAlong agedBullets] in *. rewrite S_INR in *.
      pose proof (pos_INR (List.length cs)) as Hp.
      destruct (Archer_countdown_step f a cx cy Hv) as (a1&Hv1&Hc1&Ha1&Hb1);
        [lra|].
      destruct (IH _ a1 Hv1) as (a'&Hv'&Hc'&Ha'&Hb'); [lra|].
      exists a'. split; [exact Hv'|].
      split; [lra|]. split; [lra|].
      rewrite Hb', Hb1.
      destruct (passiveAbility_position f cx cy) as (Hx&Hy&_).
      now apply agedBullets_ext. }
  destruct Hmain as (a'&Hv'&Hc'&Ha'&Hb').
  exists a'. repeat (split; [assumption|]). split.
  - apply Forall_forall. intros b Hb. rewrite Hb' in Hb.
    now apply agedBullets_origin in Hb.
  - rewrite Hb'. apply agedBullets_length.
Qed.

Lemma Base_passive_step (f : Fighter.t) (tm : nat) (cx cy : R) :
  Fighter.variant f = BaseV tm ->
  0 <= Fighter.maxHp f ->
  exists tm',
    Fighter.variant (passiveAbility f cx cy) = BaseV tm' /\
    Fighter.maxHp (passiveAbility f cx cy) = Fighter.maxHp f /\
    Fighter.hp f <= Fighter.hp (passiveAbility f cx cy) /\
    Fighter.hp (passiveAbility f cx cy)
    <= Rmax (Fighter.hp f) (Fighter.maxHp f * 0.5 + 1) /\
    120 * (Fighter.hp (passiveAbility f cx cy) - Fighter.hp f) + INR tm'
    <= INR tm + 1.
Proof.
  intros Hv Hm. unfold passiveAbility. rewrite Hv.
  unfold BaseFighter.passiveAbility.
  pose proof (pos_INR tm) as Hp.
  assert (Hmax : Fighter.hp f <= Rmax (Fighter.hp f) (Fighter.maxHp f * 0.5 + 1))
    by apply Rmax_l.
  destruct (ltb (Fighter.hp f) (Fighter.maxHp f * 0.5)) eqn:Hlt;
    [apply ltb_true in Hlt|];
    (destruct (120 <=? S tm)%nat eqn:Ht;
     [apply Nat.leb_le in Ht|]);
    (destruct (eqb (Fighter.hp f) 0) eqn:He); simpl;
    eexists; (split; [reflexivity|]); (split; [reflexivity|]);
    rewrite ?S_INR; try (repeat split; lra).
  apply le_INR in Ht. rewrite (INR_IZR_INZ 120), S_INR in Ht.
  simpl Z.of_nat in Ht. change (INR 0) with 0.
  assert (Hr : Fighter.maxHp f * 0.5 + 1
               <= Rmax (Fighter.hp f) (Fighter.maxHp f * 0.5 + 1))
    by apply Rmax_r.
  unfold Rmin. destruct (Rle_dec _ _); repeat split; lra.
Qed.

(** X23.  The base fighter regenerates slowly and only up to half health:
    over any number [n] of passive ticks its hp never goes down, gains at
    most one point per 120 ticks counted from the timer
    ([120 * gain + timer' <= timer + n]) and never rises above
    [maxHp * 0.5 + 1] unless it was already higher. *)
Theorem regeneration_rate (cs : list (R * R)) (f : Fighter.t) (tm : nat) :
  Fighter.variant f = BaseV tm ->
  0 <= Fighter.maxHp f ->
  let f' := passiveAlong cs f in
  exists tm',
    Fighter.variant f' = BaseV tm' /\
    Fighter.hp f <= Fighter.hp f' /\
    Fighter.hp f' <= Rmax (Fighter.hp f) (Fighter.maxHp f * 0.5 + 1) /\
    120 * (Fighter.hp f' - Fighter.hp f) + INR tm'
    <= INR tm + INR (List.length cs).
Proof.
  revert f tm. induction cs as [|[cx cy] cs IH]; intros f tm Hv Hm.
  - exists tm. simpl. repeat split; trivial; try lra. apply Rmax_l.
  - cbn [List.length passiveAlong]. rewrite S_INR.
    destruct (Base_passive_step f tm cx cy Hv Hm)
      as (t1&Hv1&Hm1&Hlo1&Hhi1&Hrate1).
    destruct (IH (passiveAbility f cx cy) t1 Hv1) as (t'&Hv'&Hlo'&Hhi'&Hrate');
      [lra|].
    exists t'. split; [exact Hv'|]. split; [lra|]. split; [|lra].
    rewrite Hm1 in Hhi'.
    eapply Rle_trans; [exact Hhi'|].
    apply Rmax_lub; [exact Hhi1|apply Rmax_r].
Qed.

(** * The further properties at concrete inputs *)

(** X3 at a knocked-out base fighter about to regenerate, hit and given
    strength. *)
Lemma knocked_out_is_final_witness :
  Forall damageOk [OpPassiveAbility 0 0; OpTakeDamage 10; OpGainStrength] /\
  Fighter.hp (baseAt 0 119) = 0 /\
  Fighter.hp
    (Fighter.gainStrength
       (takeDamage (passiveAbility (baseAt 0 119) 0 0) 10)) = 0.
Proof.
  assert (H1 : Forall damageOk
                 [OpPassiveAbility 0 0; OpTakeDamage 10; OpGainStrength])
    by (repeat constructor; simpl; lra).
  split; [exact H1|]. split; [reflexivity|].
  apply (knocked_out_is_final
           [OpPassiveAbility 0 0; OpTakeDamage 10; OpGainStrength]
           (baseAt 0 119) _ H1 eq_refl eq_refl).
Defined.

(** X4 at [heavyKO] raised to 100 hp, hit by 25. *)
Lemma shield_halves_damage_witness :
  let f := Fighter.with_hp heavyKO 100 in
  Fighter.variant f = HeavyV (mkHeavy 0 42 true) /\
  0 <= 25 /\ 0 <= Fighter.hp f /\
  Fighter.hp f - Fighter.hp (takeDamage f 25) <= 25 * 0.5.
Proof.
  assert (H25 : 0 <= 25) by lra.
  assert (Hhp : 0 <= Fighter.hp (Fighter.with_hp heavyKO 100))
    by (simpl; lra).
  split; [reflexivity|]. split; [exact H25|]. split; [exact Hhp|].
  apply (shield_halves_damage (Fighter.with_hp heavyKO 100)
           (mkHeavy 0 42 true) 25 eq_refl eq_refl H25 Hhp).
Defined.

(** X5 at a fresh heavy fighter and two frames. *)
Lemma shield_not_armed_early_witness :
  Fighter.variant freshHeavy = HeavyV (mkHeavy 0 0 false) /\
  exists h',
    Fighter.variant (passiveAlong [(0, 0); (5, 5)] freshHeavy) = HeavyV h' /\
    hasShield h' = false /\ (shieldCharge h' <= 0 + 2)%nat.
Proof.
  split; [reflexivity|].
  apply (shield_not_armed_early [(0, 0); (5, 5)] freshHeavy
           (mkHeavy 0 0 false) eq_refl eq_refl).
  simpl. lia.
Defined.

(** X6 at [heavy179 100] on the centre, one tick. *)
Lemma shield_armed_on_time_witness :
  Fighter.variant (heavy179 100) = HeavyV (mkHeavy 0 179 false) /\
  Fighter.isInCenterZone (heavy179 100) 0 0 = true /\
  exists h',
    Fighter.variant (passiveAlong (repeat (0, 0) 1) (heavy179 100))
    = HeavyV h' /\
    hasShield h' = true /\ shieldCharge h' = 0%nat.
Proof.
  assert (Hz : Fighter.isInCenterZone (heavy179 100) 0 0 = true)
    by (apply (center_zone_at_center (heavy179 100)); simpl; lra).
  split; [reflexivity|]. split; [exact Hz|].
  apply (proj1 (shield_armed_on_time 1 (heavy179 100)
                  (mkHeavy 0 179 false) 0 0 eq_refl Hz));
    [reflexivity|reflexivity|lia].
Defined.

Lemma left0_gravity :
  Fighter.applyGravity left0 0 0 0.5 = Some left0pulled.
Proof.
  unfold left0, left0pulled. fcbv. repeat sqrt_is 10. eval_cmp. eval_div.
  fcbv. repeat f_equal; lra.
Qed.

(** X7 at [left0], 10 to the left of the centre. *)
Lemma gravity_pull_witness :
  0 <= 0.5 /\ (Fighter.x left0 <> 0 \/ Fighter.y left0 <> 0) /\
  Fighter.applyGravity left0 0 0 0.5 = Some left0pulled /\
  sqrt ((Fighter.vx left0pulled - Fighter.vx left0)
        * (Fighter.vx left0pulled - Fighter.vx left0)
        + (Fighter.vy left0pulled - Fighter.vy left0)
          * (Fighter.vy left0pulled - Fighter.vy left0))
  = 0.5 * Fighter.speedMultiplier left0.
Proof.
  assert (H1 : 0 <= 0.5) by lra.
  assert (H2 : Fighter.x left0 <> 0 \/ Fighter.y left0 <> 0)
    by (left; simpl; lra).
  split; [exact H1|]. split; [exact H2|]. split; [exact left0_gravity|].
  apply (gravity_pull_has_fixed_size left0 left0pulled 0 0 0.5 H1 H2
           left0_gravity).
Defined.

Lemma speed_at_rest (f : Fighter.t) :
  Fighter.vx f = 0 -> Fighter.vy f = 0 -> speed f = 0.
Proof.
  intros Hx Hy. unfold speed. rewrite Hx, Hy.
  replace (0 * 0 + 0 * 0) with 0 by ring. apply sqrt_0.
Qed.

(** X8 at the first frame of [pairArena0]. *)
Lemma terminal_speed_witness :
  integrate left0 right0 0 0 = Some (left0m, right0m) /\
  speed left0 <= 49 * GRAVITY_STRENGTH * Fighter.speedMultiplier left0 /\
  speed left0m <= 49 * GRAVITY_STRENGTH * Fighter.speedMultiplier left0.
Proof.
  assert (Hs : speed left0
               <= 49 * GRAVITY_STRENGTH * Fighter.speedMultiplier left0).
  { rewrite (speed_at_rest left0) by reflexivity.
    unfold left0. fcbv. lra. }
  split; [exact pair_integrate0|]. split; [exact Hs|].
  exact (proj1 (terminal_speed left0 right0 left0m right0m 0 0
                  pair_integrate0) Hs).
Defined.

Lemma pair_distance0 : Fighter.getDistanceTo left0m right0m = 19.02.
Proof. unfold left0m, right0m. fcbv. sqrt_is 19.02. reflexivity. Qed.

Lemma pair_separate0 :
  separate left0m right0m (Fighter.getDistanceTo left0m right0m)
    (Fighter.radius left0m + Fighter.radius right0m) rnd0
  = Some (left0apart, right0apart).
Proof.
  rewrite pair_distance0.
  unfold left0m, right0m, left0apart, right0apart, rnd0. fcbv.
  eval_div. fcbv. repeat f_equal; lra.
Qed.

(** X9 at the two base fighters of [pairArena0] after integration: 19.02
    apart, each is moved by 20.49. *)
Lemma separation_witness :
  0 < Fighter.getDistanceTo left0m right0m
    < Fighter.radius left0m + Fighter.radius right0m /\
  separate left0m right0m (Fighter.getDistanceTo left0m right0m)
    (Fighter.radius left0m + Fighter.radius right0m) rnd0
  = Some (left0apart, right0apart) /\
  sqrt ((Fighter.x left0apart - Fighter.x left0m)
        * (Fighter.x left0apart - Fighter.x left0m)
        + (Fighter.y left0apart - Fighter.y left0m)
          * (Fighter.y left0apart - Fighter.y left0m))
  = (30 + 30 - 19.02) * 0.5 /\
  Fighter.x left0apart + Fighter.x right0apart
  = Fighter.x left0m + Fighter.x right0m.
Proof.
  assert (Hd : 0 < Fighter.getDistanceTo left0m right0m
               < Fighter.radius left0m + Fighter.radius right0m)
    by (rewrite pair_distance0; simpl; lra).
  split; [exact Hd|]. split; [exact pair_separate0|].
  destruct (separation_halves_overlap left0m right0m left0apart right0apart
              rnd0 Hd pair_separate0) as (_&(Hmove&_)&(Hmid&_)&_).
  split; [|exact Hmid].
  rewrite Hmove, pair_distance0. reflexivity.
Defined.

Lemma heavyNear_slam :
  HeavyFighter.useSpecialAbility heavyNear 0 0 = Some heavySlammed.
Proof.
  unfold HeavyFighter.useSpecialAbility, heavyNear, heavySlammed. fcbv.
  repeat sqrt_is 5. eval_cmp. fcbv. eval_div. fcbv. repeat f_equal; lra.
Qed.

(** X10 at [heavyNear], 5 away from the centre. *)
Lemma ground_slam_witness :
  HeavyFighter.useSpecialAbility heavyNear 0 0 = Some heavySlammed /\
  Fighter.x heavySlammed = Fighter.x heavyNear /\
  Fighter.vx heavySlammed - Fighter.vx heavyNear = 3.
Proof.
  split; [exact heavyNear_slam|].
  destruct (ground_slam heavyNear heavySlammed 0 0 heavyNear_slam)
    as [_ Hin].
  split; [|simpl; lra].
  apply Hin. simpl. sqrt_is 5. lra.
Defined.

Lemma baseFar_dash :
  BaseFighter.useSpecialAbility baseFar 0 0 = Some baseDashed.
Proof.
  unfold BaseFighter.useSpecialAbility, baseFar, baseDashed. fcbv.
  repeat sqrt_is 500. eval_cmp. eval_div. fcbv. repeat f_equal; lra.
Qed.

(** X11 at [baseFar], 500 away from the centre. *)
Lemma dash_witness :
  BaseFighter.useSpecialAbility baseFar 0 0 = Some baseDashed /\
  Fighter.x baseDashed = Fighter.x baseFar.
Proof.
  split; [exact baseFar_dash|].
  destruct (dash_to_center baseFar baseDashed 0 0 baseFar_dash) as [_ Hfar].
  apply Hfar. simpl. sqrt_is 500. lra.
Defined.

(** X12 at a fresh archer. *)
Lemma archer_burst_witness :
  0 <= Fighter.radius archer3 /\
  List.length
    (map (fun i => ArcherFighter.newBullet archer3 (INR i * (PI / 4)))
       (seq 0 8)) = 8%nat.
Proof.
  assert (Hr : 0 <= Fighter.radius archer3) by (simpl; lra).
  split; [exact Hr|].
  apply (archer_burst archer3 (mkArcher [] 0 0) 0 0 Hr).
Defined.

(** X15 at the frame of [shotArena]. *)
Lemma one_hit_per_kind_witness :
  updatePhysics shotArena rnd0
  = Some (shotArena', [mkHit Projectile Second 4]) /\
  (List.length [mkHit Projectile Second 4] <= 4)%nat.
Proof.
  split; [apply shot_tick|].
  apply (one_hit_per_kind shotArena shotArena' rnd0
           [mkHit Projectile Second 4] shooter victim eq_refl eq_refl
           (shot_tick rnd0)).
Defined.

(** X16 at the second frame of the duel: the bodies of the base fighter
    and of the archer are in contact (0.098 apart, sum of the radii 58)
    and the flag is clear, so that body damage is due; the base fighter
    hits the archer, the archer, without [dealsBodyDamage], does not hit
    back. *)
Lemma body_damage_needs_flag_witness :
  updatePhysics duelArena1 rnd0
  = Some (duelArena2, [mkHit Body Second 1]) /\
  contact duelArena1 = Some (0.098, 30 + 28) /\
  ballsInCollision duelArena1 = false /\
  Fighter.dealsBodyDamage duelBase1 = true /\
  Fighter.dealsBodyDamage duelArcher1 = false /\
  filter (isHit Body Second) [mkHit Body Second 1] = [mkHit Body Second 1] /\
  filter (isHit Body First) [mkHit Body Second 1] = [].
Proof.
  split; [exact duel_tick1|]. split.
  { rewrite (contact_integrate duelArena1 duelBase1 duelArcher1
               duelBase1m duelArcher1m eq_refl eq_refl duel_integrate1).
    rewrite duel_distance1. reflexivity. }
  split; [reflexivity|]. split; [reflexivity|]. split; [reflexivity|].
  split; [reflexivity|].
  apply (proj1 (proj2 (body_damage_needs_flag duelArena1 duelArena2 rnd0
                         [mkHit Body Second 1] duelBase1 duelArcher1
                         eq_refl eq_refl duel_tick1))).
  reflexivity.
Defined.

Lemma shot_play :
  play shotArena [Frame rnd0] = Some shotArena'.
Proof. simpl. now rewrite shot_tick. Qed.

(** X17 at the game made of the frame of [shotArena]. *)
Lemma game_keeps_statistics_witness :
  play shotArena [Frame rnd0] = Some shotArena' /\
  exists g1 g2,
    fighter1 shotArena' = Some g1 /\ fighter2 shotArena' = Some g2 /\
    Fighter.maxHp g1 = Fighter.maxHp shooter /\
    Fighter.strength victim <= Fighter.strength g2.
Proof.
  split; [exact shot_play|].
  destruct (game_keeps_statistics [Frame rnd0] shotArena shotArena'
              shooter victim eq_refl eq_refl shot_play)
    as (g1&g2&E1&E2&(H1&_)&(_&_&_&H2)).
  exists g1, g2. auto.
Defined.

Lemma nearWall_wallPhase :
  wallPhase (walls (updateWalls twinArena)) baseNearWall twin2
  = Some (basePushed, twin2).
Proof.
  assert (E : checkCollisionWithWall baseNearWall
                (Wall.mk 0 (0 - WALL_DISTANCE) WALL_RADIUS)
              = Some basePushed).
  { unfold checkCollisionWithWall, baseNearWall, basePushed. fcbv.
    repeat sqrt_is 50. eval_cmp. fcbv. eval_div. fcbv. eval_cmp. fcbv.
    repeat f_equal; lra. }
  unfold twinArena. cbn [walls updateWalls centerX centerY wallPhase].
  rewrite E. cbn [bind].
  repeat (rewrite checkCollisionWithWall_far
            by (unfold basePushed, twin2; fcbv; split; lra);
          cbn [bind wallPhase]).
  reflexivity.
Qed.

(** X18 at [baseNearWall], which overlaps the top wall by 20 and is pushed
    out of it, and [twin2] on the arena centre, which no wall reaches. *)
Lemma wall_loop_witness :
  Fighter.radius baseNearWall <= 160 /\ Fighter.radius twin2 <= 160 /\
  wallPhase (walls (updateWalls twinArena)) baseNearWall twin2
  = Some (basePushed, twin2) /\
  Fighter.y basePushed - Fighter.y baseNearWall = 20 /\
  resolvedByOneWall (walls (updateWalls twinArena)) baseNearWall basePushed /\
  resolvedByOneWall (walls (updateWalls twinArena)) twin2 twin2.
Proof.
  assert (R1 : Fighter.radius baseNearWall <= 160) by (simpl; lra).
  assert (R2 : Fighter.radius twin2 <= 160) by (simpl; lra).
  split; [exact R1|]. split; [exact R2|].
  split; [exact nearWall_wallPhase|].
  split; [simpl; lra|].
  exact (wall_loop_moves_once twinArena baseNearWall twin2 basePushed twin2
           R1 R2 nearWall_wallPhase).
Defined.

(** X21 at a fresh heavy fighter and the base fighter [twin1]. *)
Lemma square_pretest_witness :
  0 <= Fighter.radius twin1 /\
  HeavyFighter.checkSquareCollisionWithFighter freshHeavy
    (mkHeavy 0 0 false) twin1
  = HeavyFighter.isPointInSquare freshHeavy (mkHeavy 0 0 false)
      (Fighter.x twin1) (Fighter.y twin1)
    || ltb (sqrt ((Fighter.x twin1
                   - fst (HeavyFighter.getSquarePosition freshHeavy
                            (mkHeavy 0 0 false)))
                  * (Fighter.x twin1
                     - fst (HeavyFighter.getSquarePosition freshHeavy
                              (mkHeavy 0 0 false)))
                  + (Fighter.y twin1
                     - snd (HeavyFighter.getSquarePosition freshHeavy
                              (mkHeavy 0 0 false)))
                    * (Fighter.y twin1
                       - snd (HeavyFighter.getSquarePosition freshHeavy
                                (mkHeavy 0 0 false)))))
         (HeavyFighter.squareSize / 2 + Fighter.radius twin1).
Proof.
  assert (Hr : 0 <= Fighter.radius twin1) by (simpl; lra).
  split; [exact Hr|].
  exact (square_pretest_is_sound freshHeavy (mkHeavy 0 0 false) twin1 Hr).
Defined.

(** X22 at an archer with cooldown 10, one bullet in flight and three
    frames: the only bullet afterwards is that one, three steps further. *)
Lemma archer_waits_witness :
  Fighter.variant shooter = ArcherV (mkArcher [flyingBullet] 0 10) /\
  INR 3 < 10 + 1 /\
  exists a',
    Fighter.variant (passiveAlong [(0, 0); (0, 0); (0, 0)] shooter)
    = ArcherV a' /\
    shootCooldown a' = 10 - INR 3 /\
    bullets a' = agedBullets shooter 3 [flyingBullet] /\
    (List.length (bullets a') <= 1)%nat.
Proof.
  assert (H3 : INR 3 < 10 + 1) by (simpl; lra).
  split; [reflexivity|]. split; [exact H3|].
  destruct (archer_waits_for_cooldown [(0, 0); (0, 0); (0, 0)] shooter
              (mkArcher [flyingBullet] 0 10) eq_refl H3)
    as (a'&Hv&Hc&_&Hb&_&Hl).
  exists a'. auto.
Defined.

(** X23 at a base fighter with 40 hp, timer at 119, two frames. *)
Lemma regeneration_rate_witness :
  Fighter.variant (baseAt 40 119) = BaseV 119 /\
  0 <= Fighter.maxHp (baseAt 40 119) /\
  exists tm',
    Fighter.variant (passiveAlong [(0, 0); (0, 0)] (baseAt 40 119))
    = BaseV tm' /\
    Fighter.hp (baseAt 40 119)
    <= Fighter.hp (passiveAlong [(0, 0); (0, 0)] (baseAt 40 119)).
Proof.
  assert (Hm : 0 <= Fighter.maxHp (baseAt 40 119)) by (simpl; lra).
  split; [reflexivity|]. split; [exact Hm|].
  destruct (regeneration_rate [(0, 0); (0, 0)] (baseAt 40 119) 119
              eq_refl Hm) as (tm'&Hv&Hlo&_).
  exists tm'. auto.
Defined.

(** ** The start of a game *)

Lemma integrate_advance (f1 f2 : Fighter.t) (cx cy : R) :
  integrate f1 f2 cx cy
  = (g1 <- advance f1 cx cy ;; g2 <- advance f2 cx cy ;; Some (g1, g2)).
Proof.
  unfold integrate, advance.
  destruct (Fighter.applyGravity f1 _ _ _); [|reflexivity].
  destruct (Fighter.applyGravity f2 _ _ _); reflexivity.
Qed.

Lemma unit_component (a b : R) :
  sqrt (a * a + b * b) <> 0 ->
  -1 <= a / sqrt (a * a + b * b) <= 1.
Proof.
  intros Hne. set (s := sqrt (a * a + b * b)) in *.
  assert (Hpos : 0 < s) by (pose proof (sqrt_pos (a * a + b * b)); fold s in H; lra).
  assert (Hsq : s * s = a * a + b * b) by (unfold s; apply norm_sq).
  assert (Ha : - s <= a <= s) by (split; nra).
  split.
  - apply Rmult_le_reg_r with s; [exact Hpos|]. unfold Rdiv.
    rewrite Rmult_assoc, Rinv_l by lra. lra.
  - apply Rmult_le_reg_r with s; [exact Hpos|]. unfold Rdiv.
    rewrite Rmult_assoc, Rinv_l by lra. lra.
Qed.

Lemma advance_created (type : FighterType) (px py cx cy d : R)
  (name color : string) :
  d = 200 \/ d = -200 ->
  cx - px = d -> cy - py = d ->
  exists g,
    advance (createFighter type px py name color) cx cy = Some g /\
    settled px py g.
Proof.
  intros Hd Hx Hy.
  set (s := sqrt (d * d + d * d)).
  assert (Hs : 200 <= s).
  { unfold s. apply sqrt_ge_bound; [lra|]. destruct Hd as [-> | ->]; lra. }
  assert (Hu : -1 <= d / s <= 1) by (apply unit_component; fold s; lra).
  pose proof (COS_bound (0 + 0.08)) as [Hc1 Hc2].
  pose proof (SIN_bound (0 + 0.08)) as [Hs1 Hs2].
  unfold advance, createFighter.
  destruct type;
    unfold BaseFighter.create, HeavyFighter.create, ArcherFighter.create,
      Fighter.create;
    cbv beta iota zeta delta [cfg_x cfg_y cfg_color cfg_name];
    fcbv; rewrite Hx, Hy; fold s;
    (replace (gtb s 0) with true by (symmetry; apply gtb_true; lra));
    rewrite !div_ok by lra; fcbv;
    set (u := d / s) in *; clearbody u.
  - (* base *)
    eval_cmp. fcbv.
    eexists. split; [reflexivity|].
    unfold settled. fcbv. repeat split; try lra.
  - (* heavy: it is not in the centre zone *)
    unfold HeavyFighter.passiveAbility, Fighter.isInCenterZone. fcbv.
    match goal with
    | |- context [ltb (sqrt (?X * ?X + ?Y * ?Y)) 50] =>
        replace (ltb (sqrt (X * X + Y * Y)) 50) with false
    end.
    + eexists. split; [reflexivity|].
      unfold settled. fcbv. repeat split; try lra.
    + symmetry. apply ltb_false, sqrt_ge_bound; [lra|].
      match goal with
      | |- _ <= ?X * ?X + ?Y * ?Y =>
          assert (199 <= X \/ X <= -199) as [HX|HX]
            by (destruct Hd; [right|left]; lra);
          pose proof (Rle_0_sqr Y) as HY; unfold Rsqr in HY; nra
      end.
  - (* archer: it shoots, and the bullet stays *)
    unfold ArcherFighter.newBullet. fcbv. eval_cmp. fcbv.
    unfold ArcherFighter.bulletSpeed.
    match goal with
    | |- context [gtb (sqrt (?X * ?X + ?Y * ?Y)) 500] =>
        replace (gtb (sqrt (X * X + Y * Y)) 500) with false
    end.
    + eexists. split; [reflexivity|].
      unfold settled. fcbv. repeat split; try lra.
      constructor; [lra|constructor].
    + symmetry. apply gtb_false, sqrt_le_bound; [lra|].
      match goal with
      | |- ?X * ?X + ?Y * ?Y <= _ =>
          assert (-43 <= X <= 43) by lra;
          assert (-43 <= Y <= 43) by lra; nra
      end.
Qed.

(** The square of a heavy fighter reaches at most 60 + 15 * sqrt 2 from
    the fighter: a circle of radius up to 50 whose centre is 200 away along
    [x] is out of its reach. *)
Lemma square_out_of_reach (att : Fighter.t) (h : HeavyState)
  (def : Fighter.t) :
  0 <= Fighter.radius def <= 50 ->
  Fighter.x att + 200 <= Fighter.x def \/
  Fighter.x def + 200 <= Fighter.x att ->
  HeavyFighter.checkSquareCollisionWithFighter att h def = false.
Proof.
  intros Hr Hfar. unfold HeavyFighter.checkSquareCollisionWithFighter.
  cbv zeta. unfold HeavyFighter.getSquarePosition,
    HeavyFighter.squareDistance, HeavyFighter.squareSize. cbn [fst snd].
  pose proof (COS_bound (squareRotation h)) as [Hc1 Hc2].
  assert (H2 : sqrt 2 <= 2) by (apply sqrt_le_bound; lra).
  match goal with
  | |- (if gtb ?D ?M then _ else _) = _ =>
      replace (gtb D M) with true; [reflexivity|]
  end.
  symmetry. apply gtb_true.
  apply Rle_lt_trans with 80; [lra|].
  apply sqrt_gt_bound; [lra|].
  match goal with
  | |- _ < ?X * ?X + ?Y * ?Y =>
      assert (140 <= X \/ X <= -140) as [HX|HX]
        by (destruct Hfar; [left|right]; lra);
      pose proof (Rle_0_sqr Y) as HY; unfold Rsqr in HY; nra
  end.
Qed.

Lemma squareStrike_far (att def : Fighter.t) (balls : bool) (tgt : Side) :
  0 <= Fighter.radius def <= 50 ->
  Fighter.x att + 200 <= Fighter.x def \/
  Fighter.x def + 200 <= Fighter.x att ->
  squareStrike att def balls tgt = (def, false, []).
Proof.
  intros Hr Hfar. unfold squareStrike.
  destruct (Fighter.variant att) as [tm|h|a]; trivial.
  now rewrite square_out_of_reach.
Qed.

Lemma bulletStrike_far (att def : Fighter.t) (tgt : Side) :
  0 <= Fighter.radius def <= 50 ->
  Fighter.x att + 200 <= Fighter.x def \/
  Fighter.x def + 200 <= Fighter.x att ->
  match Fighter.variant att with
  | ArcherV a =>
      Forall (fun b =>
                Fighter.x att - 50 <= Bullet.x b <= Fighter.x att + 50)
        (bullets a)
  | _ => True
  end ->
  bulletStrike att def tgt = (att, def, false, []).
Proof.
  intros Hr Hfar Hb. unfold bulletStrike.
  destruct (Fighter.variant att) as [tm|h|a] eqn:Hv; trivial.
  assert (Hmiss : forall b, In b (bullets a) ->
                            ArcherFighter.bulletHits def b = false).
  { intros b Hin. rewrite Forall_forall in Hb. specialize (Hb b Hin).
    unfold ArcherFighter.bulletHits, ArcherFighter.bulletRadius. cbv zeta.
    match goal with
    | |- _ && ltb ?D ?M = false => replace (ltb D M) with false
    end; [apply andb_false_r|].
    symmetry. apply ltb_false, sqrt_ge_bound; [lra|].
    match goal with
    | |- _ <= ?X * ?X + ?Y * ?Y =>
        assert (150 <= X \/ X <= -150) as [HX|HX]
          by (destruct Hfar; [right|left]; lra);
        pose proof (Rle_0_sqr Y) as HY; unfold Rsqr in HY; nra
    end. }
  unfold ArcherFighter.checkBulletCollision.
  assert (Hex : existsb (ArcherFighter.bulletHits def) (bullets a) = false).
  { apply not_true_is_false. intros Hex.
    apply existsb_exists in Hex as (b&Hin&Hh).
    rewrite (Hmiss b Hin) in Hh. discriminate. }
  assert (Hmap : map (fun b => if ArcherFighter.bulletHits def b
                               then ArcherFighter.deactivate b else b)
                   (bullets a) = bullets a).
  { rewrite <- (map_id (bullets a)) at 2. apply map_ext_in.
    intros b Hin. now rewrite (Hmiss b Hin). }
  rewrite Hex, Hmap.
  destruct att, a. simpl in *. subst. reflexivity.
Qed.

(** A frame in which the fighters are far apart along [x], with their
    bullets near them, and clear of the walls: nothing is hit, nobody is
    moved after the integration, and the contact flag is clear
    afterwards. *)
Lemma quiet_frame (a : Arena) (rnd : Rnd) (f1 f2 g1 g2 : Fighter.t) :
  fighter1 a = Some f1 -> fighter2 a = Some f2 ->
  integrate f1 f2 (centerX a) (centerY a) = Some (g1, g2) ->
  0 <= Fighter.radius g1 <= 50 -> 0 <= Fighter.radius g2 <= 50 ->
  Fighter.x g1 + 200 <= Fighter.x g2 ->
  match Fighter.variant g1 with
  | ArcherV s =>
      Forall (fun b => Fighter.x g1 - 50 <= Bullet.x b <= Fighter.x g1 + 50)
        (bullets s)
  | _ => True
  end ->
  match Fighter.variant g2 with
  | ArcherV s =>
      Forall (fun b => Fighter.x g2 - 50 <= Bullet.x b <= Fighter.x g2 + 50)
        (bullets s)
  | _ => True
  end ->
  Forall (fun w => farFrom g1 w /\ farFrom g2 w) (walls a) ->
  updatePhysics a rnd
  = Some (mkArena (Some g1) (Some g2) false (centerX a) (centerY a)
            (walls a), []).
Proof.
  intros E1 E2 Hi R1 R2 Hx B1 B2 Hw.
  apply (updatePhysics_phases a rnd f1 f2 g1 g2 g1 g2 g1 g2 g1 g2
           false false false [] []); trivial.
  - unfold hitPhase.
    rewrite (squareStrike_far g1 g2) by (trivial; left; exact Hx).
    rewrite (squareStrike_far g2 g1) by (trivial; right; exact Hx).
    rewrite (bulletStrike_far g1 g2) by (trivial; left; exact Hx).
    rewrite (bulletStrike_far g2 g1) by (trivial; right; exact Hx).
    reflexivity.
  - unfold contactPhase.
    replace (ltb (Fighter.getDistanceTo g1 g2)
               (Fighter.radius g1 + Fighter.radius g2)) with false;
      [reflexivity|].
    symmetry. apply ltb_false. unfold Fighter.getDistanceTo.
    apply Rle_trans with 200; [lra|].
    apply sqrt_ge_bound; [lra|].
    match goal with
    | |- _ <= ?X * ?X + ?Y * ?Y =>
        assert (X <= -200) by lra;
        pose proof (Rle_0_sqr Y) as HY; unfold Rsqr in HY; nra
    end.
  - now apply wallPhase_far.
Qed.

Lemma settled_clear (cx cy px py : R) (g : Fighter.t) (a : Arena) :
  centerX a = cx -> centerY a = cy ->
  (px = cx - 200 \/ px = cx + 200) ->
  settled px py g ->
  Forall (farFrom g) (walls (updateWalls a)).
Proof.
  intros Hcx Hcy Hp ((Hx1&Hx2)&_&(Hr1&Hr2)&_).
  assert (Hsq : (Fighter.radius g + 40) * (Fighter.radius g + 40) <= 90 * 90)
    by nra.
  unfold updateWalls. cbn [walls]. rewrite Hcx, Hcy.
  unfold WALL_DISTANCE, WALL_RADIUS, farFrom. cbn [Wall.x Wall.y Wall.radius].
  repeat (apply Forall_cons;
          [cbn beta; cbn [Wall.x Wall.y Wall.radius]; split; [lra|]|]);
    try apply Forall_nil;
    match goal with
    | |- _ <= ?X * ?X + ?Y * ?Y =>
        assert (199 <= X \/ X <= -199) as [HX|HX]
          by (destruct Hp; subst px; first [left; lra | right; lra]);
        pose proof (Rle_0_sqr Y) as HY; unfold Rsqr in HY; nra
    end.
Qed.

(** X24.  [startGame] runs the first frame itself, and that frame is quiet,
    whatever the two fighter types, the arena centre, the state of the
    component before the call and the random draws: the call succeeds, the
    frame applies no damage and leaves the contact flag clear, both
    fighters have their full health, their circles are apart, and the walls
    are the four that [updateWalls] lays out. *)
Theorem game_starts_quietly (a : Arena) (t1 t2 : FighterType) (rnd : Rnd) :
  exists a' f1 f2,
    startGame a t1 t2 rnd = Some (a', []) /\
    fighter1 a' = Some f1 /\ fighter2 a' = Some f2 /\
    ballsInCollision a' = false /\
    walls a' = walls (updateWalls a) /\
    Fighter.hp f1 = Fighter.maxHp f1 /\ Fighter.hp f2 = Fighter.maxHp f2 /\
    Fighter.radius f1 + Fighter.radius f2 < Fighter.getDistanceTo f1 f2.
Proof.
  unfold startGame.
  assert (H1 : exists o,
            find (fun f => FighterType_eqb (opt_type f) t1) fighterOptions
            = Some o) by (destruct t1; simpl; eauto).
  assert (H2 : exists o,
            find (fun f => FighterType_eqb (opt_type f) t2) fighterOptions
            = Some o) by (destruct t2; simpl; eauto).
  destruct H1 as [o1 ->], H2 as [o2 ->]. cbn [bind].
  set (cx := centerX a). set (cy := centerY a).
  destruct (advance_created t1 (cx - 200) (cy - 200) cx cy 200
              (opt_name o1 ++ " 1") (opt_color o1))
    as (g1&A1&S1); [left; reflexivity|lra|lra|].
  destruct (advance_created t2 (cx + 200) (cy + 200) cx cy (-200)
              (opt_name o2 ++ " 2") (opt_color o2))
    as (g2&A2&S2); [right; reflexivity|lra|lra|].
  exists (mkArena (Some g1) (Some g2) false cx cy (walls (updateWalls a))),
    g1, g2.
  pose proof S1 as ((X1&X1')&_&R1&P1&B1).
  pose proof S2 as ((X2&X2')&_&R2&P2&B2).
  split; [|repeat (split; [trivial|])].
  - match goal with
    | |- updatePhysics ?b rnd = _ =>
        apply (quiet_frame b rnd _ _ g1 g2 eq_refl eq_refl); trivial
    end.
    + cbn [centerX centerY updateWalls]. fold cx cy.
      rewrite integrate_advance, A1. cbn [bind]. rewrite A2. reflexivity.
    + lra.
    + pose proof (settled_clear cx cy (cx - 200) (cy - 200) g1 a
                    eq_refl eq_refl (or_introl eq_refl) S1) as W1.
      pose proof (settled_clear cx cy (cx + 200) (cy + 200) g2 a
                    eq_refl eq_refl (or_intror eq_refl) S2) as W2.
      cbn [walls updateWalls centerX centerY] in *. fold cx cy.
      rewrite Forall_forall in *. intros w Hin. split; auto.
  - unfold Fighter.getDistanceTo.
    apply Rle_lt_trans with 100; [lra|].
    apply sqrt_gt_bound; [lra|].
    match goal with
    | |- _ < ?X * ?X + ?Y * ?Y =>
        assert (X <= -398) by lra;
        pose proof (Rle_0_sqr Y) as HY; unfold Rsqr in HY; nra
    end.
Qed.
